(** * ogt-web: eligibility engine, grid editor and compact codec

    A shallow embedding of the TypeScript sources

    - [lib/eligibility.ts]  (feature eligibility at summits),
    - [lib/defaults.ts]     (empty summit, empty grid, default screws),
    - [hooks/useGridState.ts] (the editor operations),
    - [lib/compact.ts]      (the compact code: encode / decode),
    - [lib/cad/grid.ts]     (the solid of a plan, over the terms of the
      CAD kernel),
    - [lib/svg-constants.ts] and [components/GridSvg.tsx] (the corner
      feature and the chamfer triangle of the drawing),
    - [scripts/generate.ts] (the arguments of the command-line script),
    - [lib/cad-client.ts]   (the status and the requests of the CAD
      client),

    together with the properties the specification states about them
    and further properties of the same code.

    Conventions.  JavaScript integers are [Z]; an array is a [list] and
    [a[i]] is [at_ a i], whose [None] is JavaScript's [undefined]; a
    [TypeError] raised by reading a field of [undefined] is the [None]
    of an [option] result.  A [boolean[][]] is a [list (list bool)];
    where the source reads a cell that may be [undefined] and only
    tests its truthiness, the model reads [false].  Tile layouts are
    rectangular (every row as long as the first); the statements that
    depend on it say so.  A JavaScript number that is not an index is
    a finite double, given by its exact rational value: a literal such
    as [4.2] is the double nearest to it, the product and the quotient
    of two doubles are rounded to the nearest double, ties to even
    ([round_double]), and [Math.round] is rounding half up.  Only the
    coordinates that [drawGrid] hands to the CAD kernel are kept as
    the exact expressions of the source.  A code string is a [string]
    whose characters are its code units (below 256); integers stay
    exact, which agrees with JavaScript below 2^53. *)

From stdpp Require Import base numbers list strings gmap.
From Stdlib Require Import ZArith QArith Qround Qabs Lia Lqa Bool Ascii.
From Stdlib Require DecimalString DecimalNat.

Local Open Scope Z_scope.

(** ** JavaScript arrays *)

Module JS.

Definition len {A} (l : list A) : Z := Z.of_nat (length l).

(** [l[i]]: [None] stands for [undefined]. *)
Definition at_ {A} (l : list A) (i : Z) : option A :=
  if bool_decide (0 <= i) then l !! Z.to_nat i else None.

(** [g[i]?.[j]] on a two-dimensional array. *)
Definition at2 {A} (g : list (list A)) (i j : Z) : option A :=
  match at_ g i with
  | Some row => at_ row j
  | None => None
  end.

(** Truthiness of a possibly-undefined boolean. *)
Definition truthy (o : option bool) : bool := default false o.

(** The index values of [for (let i = 0; i < n; i++)]. *)
Definition range (n : Z) : list Z := seqZ 0 n.

(** [a.slice(0, -1)]. *)
Definition slice_0_m1 {A} (l : list A) : list A := take (length l - 1)%nat l.

End JS.
Import JS.

(** ** JavaScript numbers *)

(** [2^e] for an integer exponent of either sign. *)
Definition pow2 (e : Z) : Q :=
  if 0 <=? e then inject_Z (2 ^ e) else 1 # Z.to_pos (2 ^ (- e)).

(** [floor(log2 q)] for [q > 0]. *)
Definition Qlog2 (q : Q) : Z :=
  let e := Z.log2 (Qnum q) - Z.log2 (Zpos (Qden q)) in
  if Qle_bool (pow2 e) q then e else e - 1.

(** Rounding to the nearest integer, ties to the even one. *)
Definition round_half_even (y : Q) : Z :=
  let f := Qfloor y in
  match (y - inject_Z f ?= 1 # 2)%Q with
  | Lt => f
  | Gt => f + 1
  | Eq => if Z.even f then f else f + 1
  end.

(** The exponent of the last bit of the double nearest to [q]: 53
    significant bits, and no bit below [2^-1074]. *)
Definition double_exponent (q : Q) : Z :=
  Z.max (Qlog2 (Qabs q) - 52) (-1074).

(** The binary64 rounding of IEEE 754, to nearest with ties to even,
    without its upper limit: the multiple of [2^e] nearest to [q],
    where [e] is the exponent of the last of 53 significant bits. *)
Definition round_double (q : Q) : Q :=
  if Qeq_bool q 0 then 0%Q
  else
    let e := double_exponent q in
    Qred (inject_Z (round_half_even (q / pow2 e)) * pow2 e).

(** [x * y] on doubles; [None] is [Infinity] or [-Infinity], the
    product whose rounding reaches [2^1024]. *)
Definition Number_mul (x y : Q) : option Q :=
  let r := round_double (x * y) in
  if Qle_bool (pow2 1024) (Qabs r) then None else Some r.

(** [x / y] on doubles, where the quotient is finite. *)
Definition Number_div (x y : Q) : Q := round_double (x / y).

(** ** lib/eligibility.ts *)

Abbreviation Tiles := (list (list bool)).

Definition rows_of {A} (g : list (list A)) : Z := len g.

(** [g[0]?.length ?? 0] *)
Definition cols_of {A} (g : list (list A)) : Z :=
  match g !! 0%nat with
  | Some row => len row
  | None => 0
  end.

Definition rectangular {A} (g : list (list A)) : Prop :=
  Forall (fun row => len row = cols_of g) g.

Definition isTile (tiles : Tiles) (r c : Z) : bool :=
  let rows := rows_of tiles in
  let cols := cols_of tiles in
  if (0 <=? r) && (r <? rows) && (0 <=? c) && (c <? cols)
  then truthy (at2 tiles r c)
  else false.

(** The body of the two nested loops over the summit positions
    [0 <= i <= rows], [0 <= j <= cols]. *)
Definition summit_grid {A B} (tiles : list (list A)) (f : Z -> Z -> B)
  : list (list B) :=
  (fun i => (fun j => f i j) <$> range (cols_of tiles + 1))
    <$> range (rows_of tiles + 1).

Definition connector_at (tiles : Tiles) (i j : Z) : bool :=
  let tl := isTile tiles (i - 1) (j - 1) in
  let tr := isTile tiles (i - 1) j in
  let bl := isTile tiles i (j - 1) in
  let br := isTile tiles i j in
  (Bool.eqb tl tr && Bool.eqb bl br && negb (Bool.eqb tl bl))
  || (Bool.eqb tl bl && Bool.eqb tr br && negb (Bool.eqb tl tr)).

Definition computeEligibleConnectorPositions (tiles : Tiles)
  : list (list bool) :=
  summit_grid tiles (connector_at tiles).

Definition computeConnectorDirection (tiles : Tiles) (i j : Z) : Z :=
  let tl := isTile tiles (i - 1) (j - 1) in
  let tr := isTile tiles (i - 1) j in
  let bl := isTile tiles i (j - 1) in
  let br := isTile tiles i j in
  if Bool.eqb tl tr && Bool.eqb bl br && negb (Bool.eqb tl bl)
  then (if bl then -90 else 90)
  else if Bool.eqb tl bl && Bool.eqb tr br && negb (Bool.eqb tl tr)
  then (if tr then 0 else 180)
  else 0.

Definition chamfer_at (tiles : Tiles) (i j : Z) : bool :=
  let count :=
    len (List.filter (fun b : bool => b)
           [isTile tiles (i - 1) (j - 1); isTile tiles (i - 1) j;
            isTile tiles i (j - 1); isTile tiles i j]) in
  count =? 1.

Definition computeEligibleChamferPositions (tiles : Tiles)
  : list (list bool) :=
  summit_grid tiles (chamfer_at tiles).

Definition screw_at (tiles : Tiles) (i j : Z) : bool :=
  let tl := isTile tiles (i - 1) (j - 1) in
  let tr := isTile tiles (i - 1) j in
  let bl := isTile tiles i (j - 1) in
  let br := isTile tiles i j in
  tl && tr && bl && br.

Definition computeEligibleScrewPositions (tiles : Tiles)
  : list (list bool) :=
  summit_grid tiles (screw_at tiles).

(** The inner helper [isEligible] of [computeCornerScrewPositions]. *)
Definition isEligible (eligible : list (list bool)) (r c : Z) : bool :=
  let nRows := rows_of eligible in
  let nCols := cols_of eligible in
  if (0 <=? r) && (r <? nRows) && (0 <=? c) && (c <? nCols)
  then truthy (at2 eligible r c)
  else false.

Definition computeCornerScrewPositions (eligible : list (list bool))
  : list (list bool) :=
  let nRows := rows_of eligible in
  let nCols := cols_of eligible in
  (fun i =>
     (fun j =>
        if negb (truthy (at2 eligible i j)) then false
        else
          let hThrough :=
            isEligible eligible i (j - 1) && isEligible eligible i (j + 1) in
          let vThrough :=
            isEligible eligible (i - 1) j && isEligible eligible (i + 1) j in
          negb hThrough && negb vThrough)
       <$> range nCols)
    <$> range nRows.

Record Eligibility := mkEligibility {
  connectors : list (list bool);
  chamfers : list (list bool);
  screws : list (list bool);
}.

Definition computeAllEligibility (tiles : Tiles) : Eligibility :=
  {| connectors := computeEligibleConnectorPositions tiles;
     chamfers := computeEligibleChamferPositions tiles;
     screws := computeEligibleScrewPositions tiles |}.

(** ** lib/types.ts and lib/defaults.ts *)

Record ScrewSize := mkScrewSize {
  diameter : Q;
  head_diameter : Q;
  head_inset : Q;
}.

(** [connector_angle: number | null] is an optional angle. *)
Record SummitFeatures := mkSummit {
  connector_angle : option Z;
  tile_chamfer : bool;
  screw : bool;
}.

Abbreviation Summits := (list (list SummitFeatures)).

(** The tag [opengrid_type] is a JavaScript string; the editor and the
    decoder use ["full"] and ["lite"]. *)
Record GridPlan := mkGridPlan {
  tiles : Tiles;
  summits : Summits;
  opengrid_type : string;
  screw_size : ScrewSize;
}.

(** The literals [4.2], [8.0], [1.0] and [4.1], [7.2], [1.0]. *)
Definition DEFAULT_SCREW_SIZE : ScrewSize :=
  {| diameter := round_double (42 # 10);
     head_diameter := round_double (80 # 10);
     head_inset := round_double (10 # 10) |}.

Definition LITE_DEFAULT_SCREW_SIZE : ScrewSize :=
  {| diameter := round_double (41 # 10);
     head_diameter := round_double (72 # 10);
     head_inset := round_double (10 # 10) |}.

Definition emptySummit : SummitFeatures :=
  {| connector_angle := None; tile_chamfer := false; screw := false |}.

(** [Array.from({ length: n }, () => x)] *)
Definition Array_from {A} (n : Z) (x : A) : list A := replicate (Z.to_nat n) x.

Definition createEmptyGrid (rows cols : Z) : Tiles * Summits :=
  (Array_from rows (Array_from cols true),
   Array_from (rows + 1) (Array_from (cols + 1) emptySummit)).

(** ** hooks/useGridState.ts *)

(** The state cells of the hook.  [cloneTiles] and [cloneSummits] copy
    arrays before they are written; on immutable lists they are the
    identity and are left out.  Every operation runs on the state of
    the latest render: the tiles and eligibility its closure captured
    are those of the state it updates. *)
Record EditorState := mkState {
  st_tiles : Tiles;
  st_summits : Summits;
  st_type : string;
  st_screw : ScrewSize;
}.

Definition with_summits (st : EditorState) (s : Summits) : EditorState :=
  {| st_tiles := st_tiles st; st_summits := s;
     st_type := st_type st; st_screw := st_screw st |}.

Definition with_grid (st : EditorState) (t : Tiles) (s : Summits)
  : EditorState :=
  {| st_tiles := t; st_summits := s;
     st_type := st_type st; st_screw := st_screw st |}.

(** [g[i][j] = v] at a position that exists. *)
Definition set2 {A} (g : list (list A)) (i j : Z) (v : A) : list (list A) :=
  alter (fun row => <[Z.to_nat j := v]> row) (Z.to_nat i) g.

Definition prune_one (e : Eligibility) (i j : Z) (s : SummitFeatures)
  : SummitFeatures :=
  {| connector_angle :=
       if truthy (at2 (connectors e) i j) then connector_angle s else None;
     tile_chamfer :=
       if truthy (at2 (chamfers e) i j) then tile_chamfer s else false;
     screw := if truthy (at2 (screws e) i j) then screw s else false |}.

Definition pruneSummits (summits : Summits) (eligibility : Eligibility)
  : Summits :=
  imap (fun i row =>
          imap (fun j s => prune_one eligibility (Z.of_nat i) (Z.of_nat j) s)
               row)
       summits.

Definition initialState (initialRows initialCols : Z) : EditorState :=
  {| st_tiles := fst (createEmptyGrid initialRows initialCols);
     st_summits := snd (createEmptyGrid initialRows initialCols);
     st_type := "full";
     st_screw := DEFAULT_SCREW_SIZE |}.

(** The operations return [None] where the JavaScript would raise a
    [TypeError] by reading a field of [undefined].  [toggleTile] is
    bound to the click handlers of the cells that exist; at a cell
    outside the grid the model has no successor state. *)
Definition toggleTile (r c : Z) (st : EditorState) : option EditorState :=
  match at2 (st_tiles st) r c with
  | Some b =>
      let newTiles := set2 (st_tiles st) r c (negb b) in
      let newElig := computeAllEligibility newTiles in
      Some (with_grid st newTiles (pruneSummits (st_summits st) newElig))
  | None => None
  end.

(** The shape shared by [toggleConnector], [toggleChamfer] and
    [toggleScrew]: return early when not eligible, else rewrite
    [next[i][j]]. *)
Definition toggle_feature (elig : list (list bool))
    (f : SummitFeatures -> SummitFeatures) (i j : Z) (st : EditorState)
  : option EditorState :=
  if negb (truthy (at2 elig i j)) then Some st
  else match at2 (st_summits st) i j with
       | Some s => Some (with_summits st (set2 (st_summits st) i j (f s)))
       | None => None
       end.

Definition toggleConnector (i j : Z) (st : EditorState) : option EditorState :=
  toggle_feature (connectors (computeAllEligibility (st_tiles st)))
    (fun s =>
       {| connector_angle :=
            match connector_angle s with
            | Some _ => None
            | None => Some (computeConnectorDirection (st_tiles st) i j)
            end;
          tile_chamfer := tile_chamfer s; screw := screw s |})
    i j st.

Definition toggleChamfer (i j : Z) (st : EditorState) : option EditorState :=
  toggle_feature (chamfers (computeAllEligibility (st_tiles st)))
    (fun s =>
       {| connector_angle := connector_angle s;
          tile_chamfer := negb (tile_chamfer s); screw := screw s |})
    i j st.

Definition toggleScrew (i j : Z) (st : EditorState) : option EditorState :=
  toggle_feature (screws (computeAllEligibility (st_tiles st)))
    (fun s =>
       {| connector_angle := connector_angle s;
          tile_chamfer := tile_chamfer s; screw := negb (screw s) |})
    i j st.

Definition addRow (st : EditorState) : EditorState :=
  let cols := cols_of (st_tiles st) in
  with_grid st
    (st_tiles st ++ [Array_from cols true])
    (st_summits st ++ [Array_from (cols + 1) emptySummit]).

Definition removeRow (st : EditorState) : EditorState :=
  if rows_of (st_tiles st) <=? 1 then st
  else
    let newTiles := slice_0_m1 (st_tiles st) in
    let newElig := computeAllEligibility newTiles in
    with_grid st newTiles (pruneSummits (slice_0_m1 (st_summits st)) newElig).

Definition addColumn (st : EditorState) : EditorState :=
  with_grid st
    ((fun row => row ++ [true]) <$> st_tiles st)
    ((fun row => row ++ [emptySummit]) <$> st_summits st).

Definition removeColumn (st : EditorState) : EditorState :=
  if cols_of (st_tiles st) <=? 1 then st
  else
    let newTiles := slice_0_m1 <$> st_tiles st in
    let newElig := computeAllEligibility newTiles in
    with_grid st newTiles
      (pruneSummits (slice_0_m1 <$> st_summits st) newElig).

(** The double loop [for i <= rows, for j <= cols] of the "enable all"
    operations, threading the array [next] that the body may rewrite. *)
Definition for_summits (rows cols : Z)
    (body : Z -> Z -> Summits -> option Summits) (next : Summits)
  : option Summits :=
  foldl (fun acc i =>
           foldl (fun acc j => acc ≫= body i j) acc (range (cols + 1)))
        (Some next) (range (rows + 1)).

Definition enable_body (elig : list (list bool))
    (f : Z -> Z -> SummitFeatures -> SummitFeatures) (i j : Z)
    (next : Summits) : option Summits :=
  if truthy (at2 elig i j) then
    match at2 next i j with
    | Some s => Some (set2 next i j (f i j s))
    | None => None
    end
  else Some next.

Definition enable_all (elig : list (list bool))
    (f : Z -> Z -> SummitFeatures -> SummitFeatures) (st : EditorState)
  : option EditorState :=
  with_summits st <$>
    for_summits (rows_of (st_tiles st)) (cols_of (st_tiles st))
      (enable_body elig f) (st_summits st).

Definition enableAllConnectors (st : EditorState) : option EditorState :=
  enable_all (connectors (computeAllEligibility (st_tiles st)))
    (fun i j s =>
       {| connector_angle :=
            match connector_angle s with
            | None => Some (computeConnectorDirection (st_tiles st) i j)
            | Some a => Some a
            end;
          tile_chamfer := tile_chamfer s; screw := screw s |})
    st.

Definition enableAllChamfers (st : EditorState) : option EditorState :=
  enable_all (chamfers (computeAllEligibility (st_tiles st)))
    (fun _ _ s =>
       {| connector_angle := connector_angle s;
          tile_chamfer := true; screw := screw s |})
    st.

Definition enableAllScrews (st : EditorState) : option EditorState :=
  enable_all (screws (computeAllEligibility (st_tiles st)))
    (fun _ _ s =>
       {| connector_angle := connector_angle s;
          tile_chamfer := tile_chamfer s; screw := true |})
    st.

Definition enableCornerScrews (st : EditorState) : option EditorState :=
  let elig := screws (computeAllEligibility (st_tiles st)) in
  let corners := computeCornerScrewPositions elig in
  enable_all elig
    (fun i j s =>
       {| connector_angle := connector_angle s;
          tile_chamfer := tile_chamfer s;
          screw := truthy (at2 corners i j) |})
    st.

Definition clear_all (f : SummitFeatures -> SummitFeatures) (st : EditorState)
  : EditorState :=
  with_summits st ((fun row : list SummitFeatures => f <$> row) <$> st_summits st).

Definition clearAllConnectors : EditorState -> EditorState :=
  clear_all (fun s => {| connector_angle := None;
                         tile_chamfer := tile_chamfer s; screw := screw s |}).

Definition clearAllChamfers : EditorState -> EditorState :=
  clear_all (fun s => {| connector_angle := connector_angle s;
                         tile_chamfer := false; screw := screw s |}).

Definition clearAllScrews : EditorState -> EditorState :=
  clear_all (fun s => {| connector_angle := connector_angle s;
                         tile_chamfer := tile_chamfer s; screw := false |}).

Definition setOpengridType (type : string) (st : EditorState) : EditorState :=
  {| st_tiles := st_tiles st; st_summits := st_summits st;
     st_type := type;
     st_screw := if bool_decide (type = "lite")
                 then LITE_DEFAULT_SCREW_SIZE else DEFAULT_SCREW_SIZE |}.

Definition setScrewSize (s : ScrewSize) (st : EditorState) : EditorState :=
  {| st_tiles := st_tiles st; st_summits := st_summits st;
     st_type := st_type st; st_screw := s |}.

Definition toGridPlan (st : EditorState) : GridPlan :=
  {| tiles := st_tiles st; summits := st_summits st;
     opengrid_type := st_type st; screw_size := st_screw st |}.

(** The operations the editor offers, as the user interface binds them:
    the type selector passes ["full"] or ["lite"]. *)
Inductive Op :=
| ToggleTile (r c : Z)
| ToggleConnector (i j : Z)
| ToggleChamfer (i j : Z)
| ToggleScrew (i j : Z)
| AddRow | RemoveRow | AddColumn | RemoveColumn
| EnableAllConnectors | EnableAllChamfers | EnableAllScrews
| EnableCornerScrews
| ClearAllConnectors | ClearAllChamfers | ClearAllScrews
| SetOpengridType (lite : bool)
| SetScrewSize (s : ScrewSize).

Definition apply_op (o : Op) (st : EditorState) : option EditorState :=
  match o with
  | ToggleTile r c => toggleTile r c st
  | ToggleConnector i j => toggleConnector i j st
  | ToggleChamfer i j => toggleChamfer i j st
  | ToggleScrew i j => toggleScrew i j st
  | AddRow => Some (addRow st)
  | RemoveRow => Some (removeRow st)
  | AddColumn => Some (addColumn st)
  | RemoveColumn => Some (removeColumn st)
  | EnableAllConnectors => enableAllConnectors st
  | EnableAllChamfers => enableAllChamfers st
  | EnableAllScrews => enableAllScrews st
  | EnableCornerScrews => enableCornerScrews st
  | ClearAllConnectors => Some (clearAllConnectors st)
  | ClearAllChamfers => Some (clearAllChamfers st)
  | ClearAllScrews => Some (clearAllScrews st)
  | SetOpengridType lite =>
      Some (setOpengridType (if lite then "lite" else "full") st)
  | SetScrewSize s => Some (setScrewSize s st)
  end.

(** Running a sequence of operations, left to right. *)
Definition run_ops (ops : list Op) (st : EditorState) : option EditorState :=
  foldl (fun acc o => acc ≫= apply_op o) (Some st) ops.

(** The two operations that grow the grid. *)
Definition grows (o : Op) : bool :=
  match o with
  | AddRow | AddColumn => true
  | _ => false
  end.

(** States the editor reaches from a state [st0]. *)
Inductive reachable (st0 : EditorState) : EditorState -> Prop :=
| reach_init : reachable st0 st0
| reach_step st st' o :
    reachable st0 st -> apply_op o st = Some st' -> reachable st0 st'.

(** States reached without growing the grid. *)
Inductive reachable_without_growth (st0 : EditorState)
  : EditorState -> Prop :=
| reach0_init : reachable_without_growth st0 st0
| reach0_step st st' o :
    reachable_without_growth st0 st -> grows o = false ->
    apply_op o st = Some st' -> reachable_without_growth st0 st'.

(** ** lib/compact.ts *)

(** *** Numbers and strings *)

(** The value stored in a [Uint8Array] cell. *)
Definition u8 (x : Z) : Z := x mod 256.

(** [Math.round]: nearest integer, ties towards plus infinity. *)
Definition Math_round (q : Q) : Z := Qfloor (q + (1 # 2)).

(** The value a [Uint8Array] stores for a rounded number: an integer
    modulo 256, and 0 for an infinite one ([None]), which [Math.round]
    leaves infinite. *)
Definition ToUint8 (x : option Z) : Z :=
  match x with
  | Some n => u8 n
  | None => 0
  end.

(** [Math.round(x * 10)] as a [Uint8Array] stores it. *)
Definition tenths_byte (x : Q) : Z := ToUint8 (Math_round <$> Number_mul x 10).

(** [Math.ceil(n / d)] for integers [n] and [d > 0]. *)
Definition Math_ceil_div (n d : Z) : Z := - ((- n) / d).

Definition charCode (c : ascii) : Z := Z.of_N (Ascii.N_of_ascii c).

(** The template-literal rendering of a non-negative integer. *)
Definition Number_toString (n : Z) : string :=
  DecimalString.NilZero.string_of_uint (Nat.to_uint (Z.to_nat n)).

Definition digit_of (c : ascii) : option Z :=
  let n := charCode c in
  if (48 <=? n) && (n <=? 57) then Some (n - 48) else None.

(** White space skipped by [parseInt], among the code units below 256. *)
Definition is_white_space (c : ascii) : bool :=
  let n := charCode c in
  (n =? 9) || (n =? 10) || (n =? 11) || (n =? 12) || (n =? 13)
  || (n =? 32) || (n =? 160).

Fixpoint trim_start (s : string) : string :=
  match s with
  | String c rest => if is_white_space c then trim_start rest else s
  | EmptyString => s
  end.

Fixpoint parse_digits (s : string) (acc : Z) : Z :=
  match s with
  | String c rest =>
      match digit_of c with
      | Some d => parse_digits rest (acc * 10 + d)
      | None => acc
      end
  | EmptyString => acc
  end.

(** [parseInt(s, 10)]: leading white space, an optional sign, then the
    longest run of decimal digits; [None] is [NaN]. *)
Definition parseInt (s : string) : option Z :=
  let s1 := trim_start s in
  let '(sign, s2) :=
    match s1 with
    | String "-" rest => (-1, rest)
    | String "+" rest => (1, rest)
    | _ => (1, s1)
    end in
  match s2 with
  | String c _ =>
      match digit_of c with
      | Some _ => Some (sign * parse_digits s2 0)
      | None => None
      end
  | EmptyString => None
  end.

(** [code.split(".")] *)
Fixpoint split_dot (s : string) : list string :=
  match s with
  | EmptyString => [EmptyString]
  | String c rest =>
      if bool_decide (c = "."%char) then EmptyString :: split_dot rest
      else match split_dot rest with
           | p :: ps => String c p :: ps
           | [] => [String c EmptyString]
           end
  end.

(** *** Base64url helpers *)

Definition B64 : string :=
  "ABCDEFGHIJKLMNOPQRSTUVWXYZabcdefghijklmnopqrstuvwxyz0123456789-_".

(** [B64[x]]; every use masks [x] with [0x3f], so the index exists. *)
Definition B64_at (x : Z) : ascii :=
  match String.get (Z.to_nat x) B64 with
  | Some c => c
  | None => "?"%char
  end.

Fixpoint b64urlEncode (data : list Z) : string :=
  match data with
  | [] => EmptyString
  | [b0] =>
      String (B64_at (Z.land (Z.shiftr b0 2) 63))
        (String (B64_at (Z.land (Z.lor (Z.shiftl b0 4) (Z.shiftr 0 4)) 63))
           EmptyString)
  | [b0; b1] =>
      String (B64_at (Z.land (Z.shiftr b0 2) 63))
        (String (B64_at (Z.land (Z.lor (Z.shiftl b0 4) (Z.shiftr b1 4)) 63))
           (String (B64_at (Z.land (Z.lor (Z.shiftl b1 2) (Z.shiftr 0 6)) 63))
              EmptyString))
  | b0 :: b1 :: b2 :: rest =>
      String (B64_at (Z.land (Z.shiftr b0 2) 63))
        (String (B64_at (Z.land (Z.lor (Z.shiftl b0 4) (Z.shiftr b1 4)) 63))
           (String (B64_at (Z.land (Z.lor (Z.shiftl b1 2) (Z.shiftr b2 6)) 63))
              (String (B64_at (Z.land b2 63)) (b64urlEncode rest))))
  end.

(** The table [lookup] built by the first loop of [b64urlDecode]: a
    [Uint8Array(128)], zero except at the codes of the alphabet. *)
Definition b64_lookup_table : list Z :=
  foldl (fun lookup i => <[Z.to_nat (charCode (B64_at i)) := i]> lookup)
        (replicate 128%nat 0) (range (Z.of_nat (String.length B64))).

(** [lookup[s.charCodeAt(i)]]; outside the table the read is
    [undefined], which the shifts and ors that follow treat as 0. *)
Definition b64_lookup (c : ascii) : Z :=
  default 0 (at_ b64_lookup_table (charCode c)).

Definition b64_val (c : ascii) : Z :=
  if bool_decide (c = "="%char) then 0 else b64_lookup c.

(** One iteration of the decoding loop, on four characters. *)
Definition b64_group (a0 a1 a2 a3 : ascii) : list Z :=
  let c0 := b64_val a0 in
  let c1 := b64_val a1 in
  let c2 := b64_val a2 in
  let c3 := b64_val a3 in
  [Z.lor (Z.shiftl c0 2) (Z.shiftr c1 4)]
  ++ (if bool_decide (a2 = "="%char) then []
      else [Z.land (Z.lor (Z.shiftl c1 4) (Z.shiftr c2 2)) 255])
  ++ (if bool_decide (a3 = "="%char) then []
      else [Z.land (Z.lor (Z.shiftl c2 6) c3) 255]).

(** The decoding loop over a string already padded with ["="] to a
    multiple of four characters: the three short cases are the last
    group of the padded string. *)
Fixpoint b64_groups (s : string) : list Z :=
  match s with
  | EmptyString => []
  | String a0 EmptyString => b64_group a0 "=" "=" "="
  | String a0 (String a1 EmptyString) => b64_group a0 a1 "=" "="
  | String a0 (String a1 (String a2 EmptyString)) => b64_group a0 a1 a2 "="
  | String a0 (String a1 (String a2 (String a3 rest))) =>
      b64_group a0 a1 a2 a3 ++ b64_groups rest
  end.

Definition b64urlDecode (s : string) : list Z := u8 <$> b64_groups s.

(** *** Bit packing *)

(** [result[i >> 3] |= 1 << (7 - (i & 7))] *)
Definition set_bit (result : list Z) (i : Z) : list Z :=
  alter (fun b => u8 (Z.lor b (Z.shiftl 1 (7 - Z.land i 7))))
        (Z.to_nat (Z.shiftr i 3)) result.

Definition bitsToBytes (bits : list bool) : list Z :=
  let nBytes := Math_ceil_div (len bits) 8 in
  foldl (fun result i => if truthy (at_ bits i) then set_bit result i else result)
        (replicate (Z.to_nat nBytes) 0) (range (len bits)).

(** [(data[byteIdx] & (1 << bitIdx)) !== 0]; the and reads 0 where the
    byte is [undefined]. *)
Definition bit_of_bytes (data : list Z) (i : Z) : bool :=
  let byteIdx := Z.shiftr i 3 in
  let bitIdx := 7 - Z.land i 7 in
  negb (Z.land (default 0 (at_ data byteIdx)) (Z.shiftl 1 bitIdx) =? 0).

Definition bytesToBits (data : list Z) (nBits : Z) : list bool :=
  bit_of_bytes data <$> range nBits.

(** *** Public API *)

Definition summit_active (s : SummitFeatures) : bool :=
  match connector_angle s with Some _ => true | None => false end
  || tile_chamfer s || screw s.

(** The local constants [typeChar], [screwBytes] and [tileBits] of
    [encode]. *)
Definition typeChar_of (plan : GridPlan) : string :=
  if bool_decide (opengrid_type plan = "full") then "f" else "l".

Definition screwBytes_of (plan : GridPlan) : list Z :=
  [tenths_byte (diameter (screw_size plan));
   tenths_byte (head_diameter (screw_size plan));
   tenths_byte (head_inset (screw_size plan))].

Definition tileBits_of (plan : GridPlan) : list bool :=
  mjoin ((fun r => (fun c => truthy (at2 (tiles plan) r c))
                     <$> range (cols_of (tiles plan)))
           <$> range (rows_of (tiles plan))).

(** [encode] reads [plan.summits[i][j]] for every summit position of
    the tile grid and raises a [TypeError] ([None]) where it is
    absent. *)
Definition encode (plan : GridPlan) : option string :=
  let rows := rows_of (tiles plan) in
  let cols := cols_of (tiles plan) in
  let screwStr := b64urlEncode (screwBytes_of plan) in
  let tilesStr := b64urlEncode (bitsToBytes (tileBits_of plan)) in
  featureRows ←
    mapM (fun i =>
            mapM (fun j => summit_active <$> at2 (summits plan) i j)
                 (range (cols + 1)))
         (range (rows + 1));
  let featuresStr := b64urlEncode (bitsToBytes (mjoin featureRows)) in
  Some ("0." +:+ typeChar_of plan +:+ "." +:+ Number_toString rows +:+ "."
        +:+ Number_toString cols +:+ "." +:+ screwStr +:+ "."
        +:+ tilesStr +:+ "." +:+ featuresStr).

Inductive DecodeError :=
| ExpectedSevenParts (got : Z)
| UnsupportedVersion (version : string)
| InvalidType (typeChar : string)
| InvalidDimensions (rStr cStr : string)
| DimensionsBelowOne (rows cols : Z)
| ScrewDataLength (got : Z)
| InsufficientTileData
| InsufficientFeatureData.

Inductive Result :=
| Ok (plan : GridPlan)
| Throw (e : DecodeError).

(** The summit the decoder builds at [(i, j)] from its activity bit. *)
Definition decode_summit (tiles : Tiles) (connEligible chamferEligible
    screwEligible : list (list bool)) (bit : bool) (i j : Z)
  : SummitFeatures :=
  if bit then
    if truthy (at2 connEligible i j) then
      {| connector_angle := Some (computeConnectorDirection tiles i j);
         tile_chamfer := false; screw := false |}
    else if truthy (at2 chamferEligible i j) then
      {| connector_angle := None; tile_chamfer := true; screw := false |}
    else if truthy (at2 screwEligible i j) then
      {| connector_angle := None; tile_chamfer := false; screw := true |}
    else emptySummit
  else emptySummit.

(** The body of [decode] once the code has split into seven parts. *)
Definition decode_fields (version typeChar rStr cStr screwStr tilesStr
    featuresStr : string) : Result :=
  if negb (bool_decide (version = "0")) then Throw (UnsupportedVersion version)
  else if negb (bool_decide (typeChar = "f"))
          && negb (bool_decide (typeChar = "l"))
  then Throw (InvalidType typeChar)
  else
    let opengridType := if bool_decide (typeChar = "f") then "full" else "lite" in
    match parseInt rStr, parseInt cStr with
    | Some rows, Some cols =>
      if (rows <? 1) || (cols <? 1) then Throw (DimensionsBelowOne rows cols)
      else
        let screwData := b64urlDecode screwStr in
        if negb (len screwData =? 3) then Throw (ScrewDataLength (len screwData))
        else
          let screwSize :=
            {| diameter :=
                 Number_div (inject_Z (default 0 (at_ screwData 0))) 10;
               head_diameter :=
                 Number_div (inject_Z (default 0 (at_ screwData 1))) 10;
               head_inset :=
                 Number_div (inject_Z (default 0 (at_ screwData 2))) 10 |} in
          let tilesData := b64urlDecode tilesStr in
          let nTileBits := rows * cols in
          if len tilesData <? Math_ceil_div nTileBits 8
          then Throw InsufficientTileData
          else
            let tileBits := bytesToBits tilesData nTileBits in
            let tiles :=
              (fun r =>
                 (fun c => truthy (at_ tileBits (r * cols + c)))
                   <$> range cols)
                <$> range rows in
            let connEligible := computeEligibleConnectorPositions tiles in
            let chamferEligible := computeEligibleChamferPositions tiles in
            let screwEligible := computeEligibleScrewPositions tiles in
            let featuresData := b64urlDecode featuresStr in
            let nFeatureBits := (rows + 1) * (cols + 1) in
            if len featuresData <? Math_ceil_div nFeatureBits 8
            then Throw InsufficientFeatureData
            else
              let featureBits := bytesToBits featuresData nFeatureBits in
              let summits :=
                (fun i =>
                   (fun j =>
                      decode_summit tiles connEligible chamferEligible
                        screwEligible
                        (truthy (at_ featureBits (i * (cols + 1) + j))) i j)
                     <$> range (cols + 1))
                  <$> range (rows + 1) in
              Ok {| tiles := tiles; summits := summits;
                    opengrid_type := opengridType;
                    screw_size := screwSize |}
    | _, _ => Throw (InvalidDimensions rStr cStr)
    end.

Definition decode (code : string) : Result :=
  match split_dot code with
  | [version; typeChar; rStr; cStr; screwStr; tilesStr; featuresStr] =>
      decode_fields version typeChar rStr cStr screwStr tilesStr featuresStr
  | parts => Throw (ExpectedSevenParts (len parts))
  end.

(** ** Specification vocabulary *)

(** Every active feature field of [s] is allowed by the eligibility
    grids [e] at summit [(i, j)]. *)
Definition feature_allowed (e : Eligibility) (i j : Z) (s : SummitFeatures)
  : Prop :=
  (connector_angle s <> None -> truthy (at2 (connectors e) i j) = true)
  /\ (tile_chamfer s = true -> truthy (at2 (chamfers e) i j) = true)
  /\ (screw s = true -> truthy (at2 (screws e) i j) = true).

Definition summits_allowed (e : Eligibility) (ss : Summits) : Prop :=
  forall i j s, at2 ss i j = Some s -> feature_allowed e i j s.

(** The eligibility-consistency invariant of an editor state. *)
Definition eligibility_consistent (st : EditorState) : Prop :=
  summits_allowed (computeAllEligibility (st_tiles st)) (st_summits st).

(** The grid has at least one row and one column. *)
Definition dims_at_least_one (st : EditorState) : Prop :=
  1 <= rows_of (st_tiles st) /\ 1 <= cols_of (st_tiles st).

(** A field of a code holds no separator. *)
Fixpoint no_dot (s : string) : bool :=
  match s with
  | EmptyString => true
  | String c rest => negb (bool_decide (c = "."%char)) && no_dot rest
  end.

(** The values a [Uint8Array] holds. *)
Definition is_byte (b : Z) : Prop := 0 <= b < 256.

(** A two-dimensional array of [n] rows of [m] cells each. *)
Definition shape {A} (g : list (list A)) (n m : Z) : Prop :=
  len g = n /\ Forall (fun row => len row = m) g.

(** A plan whose tile grid is a rectangle of at least 1x1 slots and
    whose summit grid has one more row and one more column. *)
Definition well_shaped (p : GridPlan) : Prop :=
  1 <= rows_of (tiles p) /\ 1 <= cols_of (tiles p)
  /\ rectangular (tiles p)
  /\ shape (summits p) (rows_of (tiles p) + 1) (cols_of (tiles p) + 1).

(** Every active feature of the plan is eligible on the plan's own
    tiles, and every connector carries the direction its tiles give. *)
Definition summit_good (t : Tiles) (i j : Z) (s : SummitFeatures) : Prop :=
  feature_allowed (computeAllEligibility t) i j s
  /\ (forall a, connector_angle s = Some a ->
                a = computeConnectorDirection t i j).

Definition plan_consistent (p : GridPlan) : Prop :=
  forall i j s, at2 (summits p) i j = Some s -> summit_good (tiles p) i j s.

(** What the editor maintains as long as the grid does not grow. *)
Definition editor_invariant (st : EditorState) : Prop :=
  well_shaped (toGridPlan st) /\ plan_consistent (toGridPlan st)
  /\ (st_type st = "full" \/ st_type st = "lite").

(** The three values fit the byte encoding: 0 to 25.5 mm. *)
Definition screw_in_range (s : ScrewSize) : Prop :=
  (0 <= diameter s <= 255 # 10)%Q
  /\ (0 <= head_diameter s <= 255 # 10)%Q
  /\ (0 <= head_inset s <= 255 # 10)%Q.

(** Agreement to 0.1 mm. *)
Definition close_to_tenth (x y : Q) : Prop := (Qabs (x - y) <= 1 # 10)%Q.

Definition screw_close (s s' : ScrewSize) : Prop :=
  close_to_tenth (diameter s) (diameter s')
  /\ close_to_tenth (head_diameter s) (head_diameter s')
  /\ close_to_tenth (head_inset s) (head_inset s').

(** The round trip of one plan through the codec. *)
Definition roundtrip_law (p : GridPlan) : Prop :=
  exists code q,
    encode p = Some code /\ decode code = Ok q
    /\ tiles q = tiles p
    /\ screw_close (screw_size q) (screw_size p)
    /\ opengrid_type q = opengrid_type p
    /\ summits q = summits p.

(** The activity bits of a plan whose summit grid is complete. *)
Definition featureBits_of (plan : GridPlan) : list bool :=
  mjoin ((fun i =>
            (fun j => summit_active
                        (default emptySummit (at2 (summits plan) i j)))
              <$> range (cols_of (tiles plan) + 1))
           <$> range (rows_of (tiles plan) + 1)).

(** The dot-separated fields of a code, by position. *)
Definition field (code : string) (k : nat) : string :=
  default EmptyString (split_dot code !! k).

(** A numeric field, as the specification words it: a decimal numeral,
    that is a non-empty run of digits, after an optional sign. *)
Fixpoint all_digits (s : string) : bool :=
  match s with
  | EmptyString => true
  | String c rest => bool_decide (is_Some (digit_of c)) && all_digits rest
  end.

Definition numeric (s : string) : bool :=
  let digits :=
    match s with
    | String "-" rest => rest
    | String "+" rest => rest
    | _ => s
    end in
  negb (bool_decide (digits = "")) && all_digits digits.

(** The validation conditions as the specification lists them: the
    field count is not 7; the version is not "0"; the type character is
    neither "f" nor "l"; rows or cols is non-numeric or below 1; the
    screw payload is not 3 bytes; the tile payload is shorter than
    [ceil(rows*cols/8)] bytes; the summit payload is shorter than
    [ceil((rows+1)*(cols+1)/8)] bytes. *)
Definition spec_validation_fails (code : string) : Prop :=
  len (split_dot code) <> 7
  \/ field code 0 <> "0"
  \/ (field code 1 <> "f" /\ field code 1 <> "l")
  \/ (numeric (field code 2) = false \/ numeric (field code 3) = false
      \/ (exists rows, parseInt (field code 2) = Some rows /\ rows < 1)
      \/ (exists cols, parseInt (field code 3) = Some cols /\ cols < 1))
  \/ len (b64urlDecode (field code 4)) <> 3
  \/ (exists rows cols,
        parseInt (field code 2) = Some rows
        /\ parseInt (field code 3) = Some cols
        /\ len (b64urlDecode (field code 5)) < Math_ceil_div (rows * cols) 8)
  \/ (exists rows cols,
        parseInt (field code 2) = Some rows
        /\ parseInt (field code 3) = Some cols
        /\ len (b64urlDecode (field code 6))
           < Math_ceil_div ((rows + 1) * (cols + 1)) 8).

(** The validation conditions as the decoder tests them.  They are
    those of the specification but for the dimensions: a field is
    rejected as not a number only where [parseInt] finds no integer at
    its start, after white space and a sign ([NaN]); what follows the
    digits is not looked at.  So: the field count is not 7; the version
    is not "0"; the type character is neither "f" nor "l"; rows or cols
    starts with no integer or is below 1; the screw payload is not 3
    bytes; the tile payload is shorter than [ceil(rows*cols/8)] bytes;
    the summit payload is shorter than [ceil((rows+1)*(cols+1)/8)]
    bytes. *)
Definition validation_fails (code : string) : Prop :=
  len (split_dot code) <> 7
  \/ field code 0 <> "0"
  \/ (field code 1 <> "f" /\ field code 1 <> "l")
  \/ (parseInt (field code 2) = None \/ parseInt (field code 3) = None
      \/ (exists rows, parseInt (field code 2) = Some rows /\ rows < 1)
      \/ (exists cols, parseInt (field code 3) = Some cols /\ cols < 1))
  \/ len (b64urlDecode (field code 4)) <> 3
  \/ (exists rows cols,
        parseInt (field code 2) = Some rows
        /\ parseInt (field code 3) = Some cols
        /\ len (b64urlDecode (field code 5)) < Math_ceil_div (rows * cols) 8)
  \/ (exists rows cols,
        parseInt (field code 2) = Some rows
        /\ parseInt (field code 3) = Some cols
        /\ len (b64urlDecode (field code 6))
           < Math_ceil_div ((rows + 1) * (cols + 1)) 8).

(** The condition each error reports. *)
Definition error_condition (code : string) (e : DecodeError) : Prop :=
  match e with
  | ExpectedSevenParts got => got = len (split_dot code) /\ got <> 7
  | UnsupportedVersion version => version = field code 0 /\ version <> "0"
  | InvalidType typeChar =>
      typeChar = field code 1 /\ typeChar <> "f" /\ typeChar <> "l"
  | InvalidDimensions rStr cStr =>
      rStr = field code 2 /\ cStr = field code 3
      /\ (parseInt rStr = None \/ parseInt cStr = None)
  | DimensionsBelowOne rows cols =>
      parseInt (field code 2) = Some rows
      /\ parseInt (field code 3) = Some cols /\ (rows < 1 \/ cols < 1)
  | ScrewDataLength got =>
      got = len (b64urlDecode (field code 4)) /\ got <> 3
  | InsufficientTileData =>
      exists rows cols,
        parseInt (field code 2) = Some rows
        /\ parseInt (field code 3) = Some cols
        /\ len (b64urlDecode (field code 5)) < Math_ceil_div (rows * cols) 8
  | InsufficientFeatureData =>
      exists rows cols,
        parseInt (field code 2) = Some rows
        /\ parseInt (field code 3) = Some cols
        /\ len (b64urlDecode (field code 6))
           < Math_ceil_div ((rows + 1) * (cols + 1)) 8
  end.

(** The activity bit the decoder reads for summit [(i, j)]. *)
Definition feature_bit (code : string) (i j : Z) : bool :=
  match parseInt (field code 2), parseInt (field code 3) with
  | Some rows, Some cols =>
      truthy (at_ (bytesToBits (b64urlDecode (field code 6))
                               ((rows + 1) * (cols + 1)))
                  (i * (cols + 1) + j))
  | _, _ => false
  end.

(** The 2x2 editor with every eligible feature enabled. *)
Definition full_2x2 : GridPlan :=
  toGridPlan
    (default (initialState 2 2)
       (run_ops [EnableAllConnectors; EnableAllChamfers; EnableAllScrews]
                (initialState 2 2))).

(** The 2x2 editor with a 30 mm screw diameter. *)
Definition wide_screw_state : EditorState :=
  setScrewSize {| diameter := 30; head_diameter := 8; head_inset := 1 |}
               (initialState 2 2).

(** The 2x2 editor after [toggleConnector(2, 1)] and [addRow()]. *)
Definition stale_state : EditorState :=
  addRow (default (initialState 2 2) (toggleConnector 2 1 (initialState 2 2))).

(** The 2x2 editor after [toggleConnector(1, 2)] and [addColumn()]. *)
Definition stale_state_column : EditorState :=
  addColumn
    (default (initialState 2 2) (toggleConnector 1 2 (initialState 2 2))).

(** A screw diameter of 0.15 mm: the double nearest to 0.15, whose
    product with 10 is the double 1.5. *)
Definition thin_screw : ScrewSize :=
  {| diameter := round_double (15 # 100);
     head_diameter := round_double (80 # 10);
     head_inset := round_double (10 # 10) |}.

(** The plan of [stale_state] with the thin screw. *)
Definition thin_screw_plan : GridPlan :=
  toGridPlan (setScrewSize thin_screw stale_state).

(** The 3x2 editor after enabling every connector and every chamfer,
    setting the thin screw and removing a row. *)
Definition featured_ops : list Op :=
  [EnableAllConnectors; EnableAllChamfers; SetScrewSize thin_screw;
   RemoveRow].

Definition featured_state : EditorState :=
  default (initialState 3 2) (run_ops featured_ops (initialState 3 2)).

(** ** Vocabulary of the further properties *)

(** The padding a standard Base64 encoder appends to [n] bytes. *)
Definition b64_padding (n : Z) : string :=
  if n mod 3 =? 1 then "==" else if n mod 3 =? 2 then "=" else "".

(** The characters [A-Z a-z 0-9 - _]. *)
Definition url_safe (c : ascii) : bool :=
  let n := charCode c in
  ((65 <=? n) && (n <=? 90)) || ((97 <=? n) && (n <=? 122))
  || ((48 <=? n) && (n <=? 57)) || (n =? 45) || (n =? 95).

Fixpoint all_chars (P : ascii -> bool) (s : string) : bool :=
  match s with
  | EmptyString => true
  | String c rest => P c && all_chars P rest
  end.

(** The characters of a compact code: the alphabet and the separator. *)
Definition code_char (c : ascii) : bool :=
  url_safe c || bool_decide (c = "."%char).

(** The summit the decoder resolves from the activity of [s]. *)
Definition resolved_summit (t : Tiles) (i j : Z) (s : SummitFeatures)
  : SummitFeatures :=
  decode_summit t (computeEligibleConnectorPositions t)
    (computeEligibleChamferPositions t) (computeEligibleScrewPositions t)
    (summit_active s) i j.

(** At most one of the three feature fields of [s] is active. *)
Definition at_most_one_feature (s : SummitFeatures) : Prop :=
  (connector_angle s <> None -> tile_chamfer s = false /\ screw s = false)
  /\ (tile_chamfer s = true -> screw s = false).

(** The screw size a code carries for [s]: each dimension in tenths of
    a millimetre, in one byte. *)
Definition stored_screw (s : ScrewSize) : ScrewSize :=
  {| diameter := Number_div (inject_Z (tenths_byte (diameter s))) 10;
     head_diameter := Number_div (inject_Z (tenths_byte (head_diameter s))) 10;
     head_inset := Number_div (inject_Z (tenths_byte (head_inset s))) 10 |}.

(** The type tag a code carries for the tag [t]. *)
Definition stored_type (t : string) : string :=
  if bool_decide (t = "full") then "full" else "lite".

(** [ss'] is [ss] with [f i j] applied to the summit at [(i, j)]. *)
Definition summits_map (f : Z -> Z -> SummitFeatures -> SummitFeatures)
    (ss ss' : Summits) : Prop :=
  forall i j, at2 ss' i j = f i j <$> at2 ss i j.

(** Summit [(i, j)] is one of the four corners of tile slot [(r, c)]. *)
Definition corner_of (r c i j : Z) : Prop :=
  r <= i <= r + 1 /\ c <= j <= c + 1.

(** The summit positions the "enable all" loops visit, in order. *)
Definition summit_positions (rows cols : Z) : list (Z * Z) :=
  range (rows + 1) ≫= fun i => (fun j => (i, j)) <$> range (cols + 1).

(** ** lib/cad/grid.ts *)

(** The solids of the CAD kernel, as the terms that build them: the
    templates the [make...] functions return and the operations
    [translate], [rotate] (about the z axis through the origin),
    [fuse] and [cut].  [clone] copies a solid and is the identity on
    terms. *)
Inductive Solid :=
| makeOpengridFullTile
| makeOpengridLiteTile
| makeConnectorCutout
| makeTileChamferCutout
| makeScrewCutout (screwSize : ScrewSize) (tileThickness : Q) (lite : bool)
| translate (s : Solid) (x y z : Q)
| rotate (s : Solid) (angle : Z)
| fuse (a b : Solid)
| cut (a tool : Solid).

(** [for (let i = 0; i < a.length; i++) { const x = a[i]; ... }] *)
Definition for_each {A S} (a : list A) (body : Z -> A -> S -> S) (s : S) : S :=
  foldl (fun acc ix => body ix.1 ix.2 acc) s (zip (JS.range (JS.len a)) a).

Definition CONNECTOR_CUTOUT_HEIGHT : Q := 24 # 10.
Definition LITE_TILE_THICKNESS : Q := 4.

(** The local variables of the second loop of [drawGrid]. *)
Record CutState := mkCutState {
  cs_result : Solid;
  connectorTemplate : option Solid;
  connectorZ : Q;
  screwTemplate : option Solid;
}.

Inductive Drawn :=
| Shape (s : Solid)
| Error (message : string).

Section Grid.

(** The constants of [lib/cad/constants.ts]. *)
Variables TILE_SIZE TILE_THICKNESS : Q.

Definition place_tile (plan : GridPlan) (rowIdx colIdx : Z)
    (result : option Solid) : option Solid :=
  let x := (inject_Z colIdx * TILE_SIZE + TILE_SIZE / 2)%Q in
  let y := (- (inject_Z rowIdx * TILE_SIZE + TILE_SIZE / 2))%Q in
  let baseTile :=
    if bool_decide (opengrid_type plan = "lite")
    then makeOpengridLiteTile else makeOpengridFullTile in
  let tile := translate baseTile x y 0 in
  match result with
  | None => Some tile
  | Some r => Some (fuse r tile)
  end.

Definition place_tiles (plan : GridPlan) : option Solid :=
  for_each (tiles plan)
    (fun rowIdx row =>
       for_each row
         (fun colIdx (present : bool) result =>
            if negb present then result
            else place_tile plan rowIdx colIdx result))
    None.

Definition cut_connector (plan : GridPlan) (sx sy : Q)
    (summit : SummitFeatures) (st : CutState) : CutState :=
  match connector_angle summit with
  | Some angle =>
      let template :=
        match connectorTemplate st with
        | None => makeConnectorCutout
        | Some t => t
        end in
      let z :=
        match connectorTemplate st with
        | None =>
            if bool_decide (opengrid_type plan = "lite") then 1%Q
            else (TILE_THICKNESS / 2 - CONNECTOR_CUTOUT_HEIGHT / 2)%Q
        | Some _ => connectorZ st
        end in
      let cutout := translate (rotate template angle) sx sy z in
      {| cs_result := cut (cs_result st) cutout;
         connectorTemplate := Some template;
         connectorZ := z;
         screwTemplate := screwTemplate st |}
  | None => st
  end.

Definition cut_chamfer (sx sy : Q) (summit : SummitFeatures) (st : CutState)
  : CutState :=
  if tile_chamfer summit then
    {| cs_result := cut (cs_result st) (translate makeTileChamferCutout sx sy 0);
       connectorTemplate := connectorTemplate st;
       connectorZ := connectorZ st;
       screwTemplate := screwTemplate st |}
  else st.

Definition cut_screw (plan : GridPlan) (sx sy : Q) (summit : SummitFeatures)
    (st : CutState) : CutState :=
  if screw summit then
    let template :=
      match screwTemplate st with
      | None =>
          let thickness :=
            if bool_decide (opengrid_type plan = "lite")
            then LITE_TILE_THICKNESS else TILE_THICKNESS in
          makeScrewCutout (screw_size plan) thickness
            (bool_decide (opengrid_type plan = "lite"))
      | Some t => t
      end in
    {| cs_result := cut (cs_result st) (translate template sx sy 0);
       connectorTemplate := connectorTemplate st;
       connectorZ := connectorZ st;
       screwTemplate := Some template |}
  else st.

Definition cut_summit (plan : GridPlan) (i j : Z) (summit : SummitFeatures)
    (st : CutState) : CutState :=
  let sx := (inject_Z j * TILE_SIZE)%Q in
  let sy := (inject_Z (- i) * TILE_SIZE)%Q in
  cut_screw plan sx sy summit
    (cut_chamfer sx sy summit (cut_connector plan sx sy summit st)).

Definition drawGrid (plan : GridPlan) : Drawn :=
  match place_tiles plan with
  | None => Error "No tiles in grid plan"
  | Some result =>
      Shape
        (cs_result
           (for_each (summits plan)
              (fun i row => for_each row (fun j summit => cut_summit plan i j summit))
              {| cs_result := result; connectorTemplate := None;
                 connectorZ := 0; screwTemplate := None |}))
  end.

End Grid.

(** The tiles fused into a solid and the cuts applied to it. *)
Fixpoint tiles_in (s : Solid) : nat :=
  match s with
  | makeOpengridFullTile | makeOpengridLiteTile => 1
  | translate s _ _ _ | rotate s _ => tiles_in s
  | fuse a b => tiles_in a + tiles_in b
  | cut a _ => tiles_in a
  | _ => 0
  end.

Fixpoint cuts_in (s : Solid) : nat :=
  match s with
  | cut a _ => S (cuts_in a)
  | translate s _ _ _ | rotate s _ => cuts_in s
  | fuse a b => cuts_in a + cuts_in b
  | _ => 0
  end.

(** The truthy slots of a layout and the active feature fields of a
    summit grid. *)
Definition count_row (row : list bool) : nat :=
  length (List.filter (fun b : bool => b) row).

Definition count_tiles (t : Tiles) : nat := sum_list (count_row <$> t).

Definition feature_fields (s : SummitFeatures) : nat :=
  (match connector_angle s with Some _ => 1 | None => 0 end)
  + (if tile_chamfer s then 1 else 0) + (if screw s then 1 else 0).

Definition count_features (ss : Summits) : nat :=
  sum_list ((fun row : list SummitFeatures =>
               sum_list (feature_fields <$> row)) <$> ss).

(** What the first loop of [drawGrid] has built after the slots seen so
    far: nothing as long as none was a tile, else the fusion of one
    tile per tile slot. *)
Definition placed (n : nat) (result : option Solid) : Prop :=
  match result with
  | None => n = 0%nat
  | Some s => tiles_in s = n /\ (0 < n)%nat /\ cuts_in s = 0%nat
  end.

(** ** lib/svg-constants.ts and components/GridSvg.tsx *)

Definition CELL_SIZE : Z := 100.
Definition GAP : Z := 12.
Definition TILE_CONTENT : Z := CELL_SIZE - GAP.

(** [TILE_CONTENT * 0.25], which is the integer 22. *)
Definition CHAMFER_SIZE : Z := TILE_CONTENT / 4.

Definition tileX (c : Z) : Z := c * CELL_SIZE + GAP / 2.
Definition tileY (r : Z) : Z := r * CELL_SIZE + GAP / 2.
Definition summitX (j : Z) : Z := j * CELL_SIZE.
Definition summitY (i : Z) : Z := i * CELL_SIZE.

Definition COLORS_featureActive : string := "#f5f5f5".
Definition COLORS_featureGhost : string := "#bbf7d0".

Inductive FeatureType := Chamfer | Screw | Connector.

(** [null] is [None]. *)
Definition cornerFeature (eligibility : Eligibility) (si sj : Z)
  : option FeatureType :=
  if truthy (at2 (chamfers eligibility) si sj) then Some Chamfer
  else if truthy (at2 (screws eligibility) si sj) then Some Screw
  else if truthy (at2 (connectors eligibility) si sj) then Some Connector
  else None.

(** The [<polygon>] element [ChamferFeature] renders: its three points
    and its fill colour. *)
Record Polygon := mkPolygon {
  points : list (Z * Z);
  fill : string;
}.

Definition ChamferFeature (i j : Z) (active eligible : bool) (tiles : Tiles)
  : option Polygon :=
  if negb eligible then None
  else
    let sx := summitX j in
    let sy := summitY i in
    let color := if active then COLORS_featureActive else COLORS_featureGhost in
    let S := CHAMFER_SIZE in
    let br := isTile tiles i j in
    let bl := isTile tiles i (j - 1) in
    let tr := isTile tiles (i - 1) j in
    let '(dx1, dy1, dx2, dy2) :=
      if br then (S, 0, 0, S)
      else if bl then (- S, 0, 0, S)
      else if tr then (S, 0, 0, - S)
      else (- S, 0, 0, - S) in
    let ox := sx + (Z.sgn dx1 * GAP) / 2 in
    let oy := sy + (Z.sgn dy2 * GAP) / 2 in
    Some {| points := [(ox, oy); (ox + dx1, oy + dy1); (ox + dx2, oy + dy2)];
            fill := color |}.

(** A point lies on the drawn square of tile slot [(r, c)]. *)
Definition on_tile (r c : Z) (p : Z * Z) : Prop :=
  tileX c <= p.1 <= tileX c + TILE_CONTENT
  /\ tileY r <= p.2 <= tileY r + TILE_CONTENT.

(** ** scripts/generate.ts *)

(** [String.prototype.toLowerCase] on the code units below 256: the
    letters A-Z and the capital letters of Latin-1 (all of 192-222 but
    the multiplication sign 215) move up by 32. *)
Definition to_lower (c : ascii) : ascii :=
  let n := charCode c in
  if ((65 <=? n) && (n <=? 90))
     || ((192 <=? n) && (n <=? 222) && negb (n =? 215))
  then Ascii.ascii_of_N (Z.to_N (n + 32))
  else c.

Fixpoint toLowerCase (s : string) : string :=
  match s with
  | EmptyString => EmptyString
  | String c rest => String (to_lower c) (toLowerCase rest)
  end.

(** [s.startsWith("-")] *)
Definition startsWith_dash (s : string) : bool :=
  match s with
  | String c _ => bool_decide (c = "-"%char)
  | EmptyString => false
  end.

(** The local variables [code], [format] and [output] of [parseArgs];
    [null] is [None]. *)
Record ArgState := mkArgState {
  as_code : option string;
  as_format : string;
  as_output : option string;
}.

(** The loop over [args]; an option with a value takes two
    arguments, the [++i] of the source. *)
Fixpoint parse_loop (args : list string) (st : ArgState) : ArgState :=
  match args with
  | [] => st
  | a :: rest =>
      let positional :=
        if negb (startsWith_dash a)
        then {| as_code := Some a; as_format := as_format st;
                as_output := as_output st |}
        else st in
      match rest with
      | b :: rest' =>
          if bool_decide (a = "--format") then
            parse_loop rest'
              {| as_code := as_code st; as_format := toLowerCase b;
                 as_output := as_output st |}
          else if bool_decide (a = "-o") then
            parse_loop rest'
              {| as_code := as_code st; as_format := as_format st;
                 as_output := Some b |}
          else parse_loop rest positional
      | [] => positional
      end
  end.

Record ParsedArgs := mkParsedArgs {
  pa_code : string;
  pa_format : string;
  pa_output : string;
}.

(** The result of [parseArgs]: its record, or the message printed
    before [process.exit(1)]. *)
Inductive ArgResult :=
| Parsed (r : ParsedArgs)
| Exit1 (message : string).

(** Truthiness of a possibly-null string: [null] and the empty string
    are falsy. *)
Definition truthy_string (o : option string) : option string :=
  match o with
  | Some EmptyString | None => None
  | Some s => Some s
  end.

Definition parseArgs (args : list string) : ArgResult :=
  let st := parse_loop args
              {| as_code := None; as_format := "step"; as_output := None |} in
  match truthy_string (as_code st) with
  | None =>
      Exit1 "Usage: npx tsx scripts/generate.ts <compact-code> [--format step|stl] [-o output]"
  | Some code =>
      let format := as_format st in
      if negb (bool_decide (format = "step"))
         && negb (bool_decide (format = "stl"))
      then Exit1 ("Invalid format: " +:+ format +:+ ". Must be 'step' or 'stl'.")
      else
        let output :=
          match truthy_string (as_output st) with
          | Some o => o
          | None => "opengrid." +:+ format
          end in
        Parsed {| pa_code := code; pa_format := format; pa_output := output |}
  end.

(** ** lib/cad-client.ts *)

Inductive WorkerStatus := status_loading | status_ready | status_error.

Record WorkerSnapshot := mkSnapshot {
  status : WorkerStatus;
  error : option string;
}.

(** The messages of the worker; [data] stands for the bytes of the
    generated file. *)
Inductive WorkerResponse :=
| msg_ready
| msg_init_error (err : string)
| msg_result (id : Z) (data : list Z)
| msg_error (id : Z) (err : string).

(** A call of the [resolve] or of the [reject] of a pending request. *)
Inductive Settlement :=
| Resolved (id : Z) (mimeType : string) (data : list Z)
| Rejected (id : Z) (err : string).

Definition settled_id (s : Settlement) : Z :=
  match s with
  | Resolved id _ _ | Rejected id _ => id
  end.

(** The module state: [snapshot], [nextId] and the [pending] map, which
    keeps the MIME type of each request, together with the settlements
    made so far, oldest first. *)
Record Client := mkClient {
  snapshot : WorkerSnapshot;
  nextId : Z;
  pending : gmap Z string;
  settled : list Settlement;
}.

Definition initialClient : Client :=
  {| snapshot := {| status := status_loading; error := None |};
     nextId := 1; pending := ∅; settled := [] |}.

Definition setStatus (st : WorkerStatus) (err : option string) (c : Client)
  : Client :=
  match status (snapshot c) with
  | status_loading =>
      {| snapshot := {| status := st; error := err |};
         nextId := nextId c; pending := pending c; settled := settled c |}
  | _ => c
  end.

(** The listener of the worker's messages. *)
Definition on_message (msg : WorkerResponse) (c : Client) : Client :=
  match msg with
  | msg_ready => setStatus status_ready None c
  | msg_init_error err => setStatus status_error (Some err) c
  | msg_result id data =>
      match pending c !! id with
      | Some mimeType =>
          {| snapshot := snapshot c; nextId := nextId c;
             pending := delete id (pending c);
             settled := settled c ++ [Resolved id mimeType data] |}
      | None => c
      end
  | msg_error id err =>
      match pending c !! id with
      | Some _ =>
          {| snapshot := snapshot c; nextId := nextId c;
             pending := delete id (pending c);
             settled := settled c ++ [Rejected id err] |}
      | None => c
      end
  end.

(** The part of [generateCAD] that runs once [waitForReady] has
    resolved: it takes the next id and registers the request. *)
Definition send_request (stl : bool) (c : Client) : Client :=
  let id := nextId c in
  let mimeType := if stl then "model/stl" else "application/step" in
  {| snapshot := snapshot c; nextId := id + 1;
     pending := <[id := mimeType]> (pending c); settled := settled c |}.

(** What happens to the client. *)
Inductive ClientEvent :=
| WorkerMessage (msg : WorkerResponse)
| WorkerError
| LoadTimeout
| Generate (stl : bool).

Definition client_step (e : ClientEvent) (c : Client) : Client :=
  match e with
  | WorkerMessage msg => on_message msg c
  | WorkerError => setStatus status_error (Some "CAD engine failed to load") c
  | LoadTimeout =>
      setStatus status_error (Some "CAD engine timed out while loading") c
  | Generate stl => send_request stl c
  end.

Definition client_run (events : list ClientEvent) (c : Client) : Client :=
  foldl (fun c e => client_step e c) c events.

(** The ids in flight and the ids settled are below [nextId], no id is
    both, and no id was settled twice. *)
Definition client_invariant (c : Client) : Prop :=
  1 <= nextId c
  /\ (forall id, is_Some (pending c !! id) -> 1 <= id < nextId c)
  /\ Forall (fun s => 1 <= settled_id s < nextId c) (settled c)
  /\ (forall s, s ∈ settled c -> pending c !! settled_id s = None)
  /\ NoDup (settled_id <$> settled c).

(** The summits of a grid that carry a feature. *)
Definition count_active (ss : Summits) : nat :=
  sum_list ((fun row : list SummitFeatures =>
               length (List.filter summit_active row)) <$> ss).

(** * Properties *)

(** ** Array reads *)


Lemma at_Some {A} (l : list A) i x : at_ l i = Some x -> 0 <= i < len l.
Proof.
  unfold at_, len. case_bool_decide; [|done].
  intros Hl%lookup_lt_Some. lia.
Qed.

Lemma at_None {A} (l : list A) i : ~ (0 <= i < len l) -> at_ l i = None.
Proof.
  unfold at_, len. intros Hout. case_bool_decide; [|done].
  apply lookup_ge_None. lia.
Qed.

Lemma at_is_Some {A} (l : list A) i : 0 <= i < len l -> is_Some (at_ l i).
Proof.
  unfold at_, len. intros H. rewrite bool_decide_eq_true_2 by lia.
  apply lookup_lt_is_Some. lia.
Qed.

Lemma at_of_nat {A} (l : list A) (k : nat) : at_ l (Z.of_nat k) = l !! k.
Proof.
  unfold at_. rewrite bool_decide_eq_true_2 by lia. by rewrite Nat2Z.id.
Qed.

Lemma at_range n i : 0 <= i < n -> at_ (range n) i = Some i.
Proof.
  intros H. unfold at_, range. rewrite bool_decide_eq_true_2 by lia.
  rewrite lookup_seqZ_lt by lia. f_equal. lia.
Qed.

Lemma len_range n : 0 <= n -> len (range n) = n.
Proof. intros H. unfold len, range. rewrite length_seqZ. lia. Qed.

Lemma at_fmap {A B} (f : A -> B) (l : list A) i : at_ (f <$> l) i = f <$> at_ l i.
Proof. unfold at_. case_bool_decide; [apply list_lookup_fmap|done]. Qed.

Lemma len_fmap {A B} (f : A -> B) (l : list A) : len (f <$> l) = len l.
Proof. unfold len. by rewrite length_fmap. Qed.

Lemma at2_Some {A} (g : list (list A)) i j x :
  at2 g i j = Some x -> exists row, at_ g i = Some row /\ at_ row j = Some x.
Proof. unfold at2. destruct (at_ g i) as [row|]; [eauto|done]. Qed.

(** A table filled by two nested loops is read back by its indices. *)
Lemma at2_table {B} (f : Z -> Z -> B) n m i j :
  0 <= i < n -> 0 <= j < m ->
  at2 ((fun i => (fun j => f i j) <$> range m) <$> range n) i j = Some (f i j).
Proof.
  intros Hi Hj. unfold at2.
  rewrite at_fmap, at_range by done. simpl.
  by rewrite at_fmap, at_range.
Qed.

Lemma at2_table_None {B} (f : Z -> Z -> B) n m i j :
  ~ (0 <= i < n /\ 0 <= j < m) ->
  at2 ((fun i => (fun j => f i j) <$> range m) <$> range n) i j = None.
Proof.
  intros H. unfold at2. rewrite at_fmap.
  destruct (at_ (range n) i) as [i'|] eqn:Ei; [|done]. simpl.
  rewrite at_fmap.
  destruct (at_ (range m) j) as [j'|] eqn:Ej; [|done].
  apply at_Some in Ei, Ej. unfold len, range in Ei, Ej.
  rewrite length_seqZ in Ei, Ej. lia.
Qed.


Lemma rows_of_nonneg {A} (g : list (list A)) : 0 <= rows_of g.
Proof. unfold rows_of, len. lia. Qed.

Lemma cols_of_nonneg {A} (g : list (list A)) : 0 <= cols_of g.
Proof. unfold cols_of, len. destruct (g !! 0%nat); lia. Qed.

Lemma at2_summit_grid {A B} (t : list (list A)) (f : Z -> Z -> B) i j :
  0 <= i <= rows_of t -> 0 <= j <= cols_of t ->
  at2 (summit_grid t f) i j = Some (f i j).
Proof. intros. unfold summit_grid. apply at2_table; lia. Qed.

Lemma at2_summit_grid_None {A B} (t : list (list A)) (f : Z -> Z -> B) i j :
  ~ (0 <= i <= rows_of t /\ 0 <= j <= cols_of t) ->
  at2 (summit_grid t f) i j = None.
Proof. intros. unfold summit_grid. apply at2_table_None; lia. Qed.

Lemma at2_rectangular_bounds {A} (t : list (list A)) r c x :
  rectangular t -> at2 t r c = Some x ->
  0 <= r < rows_of t /\ 0 <= c < cols_of t.
Proof.
  intros Hrect (row & Hr & Hc)%at2_Some.
  pose proof (at_Some _ _ _ Hr) as Hr'. pose proof (at_Some _ _ _ Hc) as Hc'.
  assert (len row = cols_of t) as Hlen.
  { unfold rectangular in Hrect. rewrite Forall_forall in Hrect.
    apply Hrect. unfold at_ in Hr. case_bool_decide; [|done].
    by eapply list_elem_of_lookup_2. }
  unfold rows_of. lia.
Qed.

(** On a rectangular layout the bounds test of [isTile] is the bounds
    test of the array read itself. *)
Lemma isTile_rectangular (t : Tiles) r c :
  rectangular t -> isTile t r c = truthy (at2 t r c).
Proof.
  intros Hrect. unfold isTile.
  destruct ((0 <=? r) && (r <? rows_of t) && (0 <=? c) && (c <? cols_of t))
    eqn:E; [done|].
  destruct (at2 t r c) as [b|] eqn:Eb; [|done].
  apply at2_rectangular_bounds in Eb; [|done].
  exfalso. revert E. rewrite !andb_false_iff.
  rewrite !Z.leb_gt, !Z.ltb_ge. lia.
Qed.

Lemma isTile_out_of_bounds (t : Tiles) r c :
  ~ (0 <= r < rows_of t /\ 0 <= c < cols_of t) -> isTile t r c = false.
Proof.
  intros H. unfold isTile.
  destruct ((0 <=? r) && (r <? rows_of t) && (0 <=? c) && (c <? cols_of t))
    eqn:E; [|done].
  exfalso. apply H. revert E. rewrite !andb_true_iff.
  rewrite !Z.leb_le, !Z.ltb_lt. lia.
Qed.

(** ** Eligibility *)

Lemma chamfer_count (tl tr bl br : bool) :
  (len (List.filter (fun b : bool => b) [tl; tr; bl; br]) =? 1)
  = bool_decide (Z.b2z tl + Z.b2z tr + Z.b2z bl + Z.b2z br = 1).
Proof. by destruct tl, tr, bl, br. Qed.

(** C5: the three eligibility grids hold, at every summit, the
    documented predicate of the four neighbours [tl], [tr], [bl], [br]
    read at [(i-1,j-1)], [(i-1,j)], [(i,j-1)], [(i,j)], where a
    neighbour outside the layout reads as a hole. *)
Theorem eligibility_predicates (t : Tiles) (i j : Z) :
  rectangular t ->
  0 <= i <= rows_of t -> 0 <= j <= cols_of t ->
  let tl := truthy (at2 t (i - 1) (j - 1)) in
  let tr := truthy (at2 t (i - 1) j) in
  let bl := truthy (at2 t i (j - 1)) in
  let br := truthy (at2 t i j) in
  (forall r c, ~ (0 <= r < rows_of t /\ 0 <= c < cols_of t) ->
               isTile t r c = false /\ at2 t r c = None)
  /\ at2 (computeEligibleScrewPositions t) i j = Some (tl && tr && bl && br)
  /\ at2 (computeEligibleChamferPositions t) i j
     = Some (bool_decide (Z.b2z tl + Z.b2z tr + Z.b2z bl + Z.b2z br = 1))
  /\ at2 (computeEligibleConnectorPositions t) i j
     = Some (bool_decide ((tl = tr /\ bl = br /\ tl <> bl)
                          \/ (tl = bl /\ tr = br /\ tl <> tr))).
Proof.
  intros Hrect Hi Hj tl tr bl br. split; [|split; [|split]].
  - intros r c Hout. split; [by apply isTile_out_of_bounds|].
    destruct (at2 t r c) as [b|] eqn:E; [|done].
    apply at2_rectangular_bounds in E; [|done]. lia.
  - unfold computeEligibleScrewPositions.
    rewrite at2_summit_grid by done. unfold screw_at.
    by rewrite !isTile_rectangular.
  - unfold computeEligibleChamferPositions.
    rewrite at2_summit_grid by done. unfold chamfer_at.
    rewrite !isTile_rectangular by done. f_equal. apply chamfer_count.
  - unfold computeEligibleConnectorPositions.
    rewrite at2_summit_grid by done. unfold connector_at.
    rewrite !isTile_rectangular by done. f_equal.
    unfold tl, tr, bl, br. clear.
    repeat match goal with
           | |- context [truthy ?x] => destruct (truthy x)
           end; cbn [Bool.eqb andb orb negb];
      first [ by rewrite bool_decide_eq_true_2 by (intuition congruence)
            | by rewrite bool_decide_eq_false_2 by (intuition congruence) ].
Qed.

Lemma eligibility_predicates_witness :
  at2 (computeEligibleConnectorPositions [[true; true]; [true; true]]) 0 1
  = Some true.
Proof.
  pose proof (eligibility_predicates [[true; true]; [true; true]] 0 1) as H.
  simpl in H. apply H.
  - repeat constructor.
  - vm_compute. intuition congruence.
  - vm_compute. intuition congruence.
Defined.

Lemma eligible_at_grid (t : Tiles) i j :
  truthy (at2 (computeEligibleConnectorPositions t) i j) = true ->
  connector_at t i j = true.
Proof.
  unfold computeEligibleConnectorPositions.
  destruct (decide (0 <= i <= rows_of t /\ 0 <= j <= cols_of t)) as [[]|].
  - by rewrite at2_summit_grid.
  - by rewrite at2_summit_grid_None.
Qed.

Lemma chamfer_at_grid (t : Tiles) i j :
  truthy (at2 (computeEligibleChamferPositions t) i j) = true ->
  chamfer_at t i j = true.
Proof.
  unfold computeEligibleChamferPositions.
  destruct (decide (0 <= i <= rows_of t /\ 0 <= j <= cols_of t)) as [[]|].
  - by rewrite at2_summit_grid.
  - by rewrite at2_summit_grid_None.
Qed.

Lemma screw_at_grid (t : Tiles) i j :
  truthy (at2 (computeEligibleScrewPositions t) i j) = true ->
  screw_at t i j = true.
Proof.
  unfold computeEligibleScrewPositions.
  destruct (decide (0 <= i <= rows_of t /\ 0 <= j <= cols_of t)) as [[]|].
  - by rewrite at2_summit_grid.
  - by rewrite at2_summit_grid_None.
Qed.

(** The three predicates exclude one another on any four neighbours. *)
Lemma predicates_exclusive (t : Tiles) i j :
  (connector_at t i j && chamfer_at t i j = false)
  /\ (connector_at t i j && screw_at t i j = false)
  /\ (chamfer_at t i j && screw_at t i j = false).
Proof.
  unfold connector_at, chamfer_at, screw_at.
  destruct (isTile t (i - 1) (j - 1)), (isTile t (i - 1) j),
    (isTile t i (j - 1)), (isTile t i j); done.
Qed.

(** C3: at every summit position of a layout at most one of the three
    eligibility grids holds [true]. *)
Theorem eligibility_mutually_exclusive (t : Tiles) (i j : Z) :
  rectangular t ->
  0 <= i <= rows_of t -> 0 <= j <= cols_of t ->
  let conn := truthy (at2 (computeEligibleConnectorPositions t) i j) in
  let cham := truthy (at2 (computeEligibleChamferPositions t) i j) in
  let scr := truthy (at2 (computeEligibleScrewPositions t) i j) in
  ~ (conn = true /\ cham = true)
  /\ ~ (conn = true /\ scr = true)
  /\ ~ (cham = true /\ scr = true).
Proof.
  intros _ Hi Hj conn cham scr.
  destruct (predicates_exclusive t i j) as (H1 & H2 & H3).
  repeat split; intros [Ha Hb].
  - apply eligible_at_grid in Ha. apply chamfer_at_grid in Hb.
    by rewrite Ha, Hb in H1.
  - apply eligible_at_grid in Ha. apply screw_at_grid in Hb.
    by rewrite Ha, Hb in H2.
  - apply chamfer_at_grid in Ha. apply screw_at_grid in Hb.
    by rewrite Ha, Hb in H3.
Qed.

Lemma eligibility_mutually_exclusive_witness :
  ~ (truthy (at2 (computeEligibleConnectorPositions
                    [[true; false]; [true; true]]) 1 1) = true
     /\ truthy (at2 (computeEligibleChamferPositions
                       [[true; false]; [true; true]]) 1 1) = true).
Proof.
  apply (eligibility_mutually_exclusive [[true; false]; [true; true]] 1 1).
  - repeat constructor.
  - vm_compute. intuition congruence.
  - vm_compute. intuition congruence.
Defined.

(** C6: the direction of a connector is -90 or 90 on a horizontal split
    (bottom side tiled or not), 0 or 180 on a vertical split (right
    side tiled or not), and 0 when the neighbours form no split; on the
    2x2 all-tile grid summit (0,1) is connector-eligible with direction
    -90 and summit (1,1) is screw-eligible only. *)
Theorem connector_direction_cases (t : Tiles) (i j : Z) :
  let tl := isTile t (i - 1) (j - 1) in
  let tr := isTile t (i - 1) j in
  let bl := isTile t i (j - 1) in
  let br := isTile t i j in
  let horizontal := tl = tr /\ bl = br /\ tl <> bl in
  let vertical := tl = bl /\ tr = br /\ tl <> tr in
  let all2x2 := fst (createEmptyGrid 2 2) in
  (horizontal ->
   computeConnectorDirection t i j = if bl then -90 else 90)
  /\ (vertical ->
      computeConnectorDirection t i j = if tr then 0 else 180)
  /\ (~ horizontal -> ~ vertical -> computeConnectorDirection t i j = 0)
  /\ at2 (computeEligibleConnectorPositions all2x2) 0 1 = Some true
  /\ computeConnectorDirection all2x2 0 1 = -90
  /\ at2 (computeEligibleScrewPositions all2x2) 1 1 = Some true
  /\ at2 (computeEligibleConnectorPositions all2x2) 1 1 = Some false
  /\ at2 (computeEligibleChamferPositions all2x2) 1 1 = Some false.
Proof.
  intros tl tr bl br horizontal vertical all2x2.
  unfold computeConnectorDirection. fold tl tr bl br.
  unfold horizontal, vertical. clearbody tl tr bl br.
  repeat split; try reflexivity.
  - intros (-> & -> & ?). by destruct tr, br.
  - intros (-> & -> & ?). by destruct bl, br.
  - intros Hh Hv. destruct tl, tr, bl, br; simpl; try done;
      exfalso; first [ apply Hh; by repeat split | apply Hv; by repeat split ].
Qed.

Lemma connector_direction_cases_witness :
  computeConnectorDirection [[true; false]; [true; false]] 1 1 = 180.
Proof.
  pose proof (connector_direction_cases [[true; false]; [true; false]] 1 1)
    as (_ & Hvertical & _).
  apply Hvertical. vm_compute. intuition congruence.
Defined.

(** ** Corner screws *)

Lemma isEligible_in_range (e : list (list bool)) i j :
  0 <= i < rows_of e -> 0 <= j < cols_of e ->
  isEligible e i j = truthy (at2 e i j).
Proof.
  intros Hi Hj. unfold isEligible.
  replace ((0 <=? i) && (i <? rows_of e) && (0 <=? j) && (j <? cols_of e))
    with true; [done|].
  symmetry. rewrite !andb_true_iff, !Z.leb_le, !Z.ltb_lt. lia.
Qed.

Lemma isEligible_out_of_range (e : list (list bool)) i j :
  ~ (0 <= i < rows_of e /\ 0 <= j < cols_of e) -> isEligible e i j = false.
Proof.
  intros H. unfold isEligible.
  destruct ((0 <=? i) && (i <? rows_of e) && (0 <=? j) && (j <? cols_of e))
    eqn:E; [|done].
  exfalso. apply H. revert E. rewrite !andb_true_iff.
  rewrite !Z.leb_le, !Z.ltb_lt. lia.
Qed.

(** C7: a position is marked by [computeCornerScrewPositions] exactly
    when it is eligible and neither its left and right neighbours are
    both eligible nor its top and bottom neighbours are, neighbours
    outside the grid being ineligible; on the 3x3 all-tile grid the
    four eligible positions are all corners, and on the 4x4 all-tile
    grid only the four outer corners of the eligible 3x3 block are. *)
Theorem corner_screws_spec (eligible : list (list bool)) (i j : Z) :
  let screws3 := computeEligibleScrewPositions (fst (createEmptyGrid 3 3)) in
  let screws4 := computeEligibleScrewPositions (fst (createEmptyGrid 4 4)) in
  (truthy (at2 (computeCornerScrewPositions eligible) i j) = true
   <-> isEligible eligible i j = true
       /\ ~ (isEligible eligible i (j - 1) = true
             /\ isEligible eligible i (j + 1) = true)
       /\ ~ (isEligible eligible (i - 1) j = true
             /\ isEligible eligible (i + 1) j = true))
  /\ screws3 = [[false; false; false; false];
                [false; true; true; false];
                [false; true; true; false];
                [false; false; false; false]]
  /\ computeCornerScrewPositions screws3 = screws3
  /\ screws4 = [[false; false; false; false; false];
                [false; true; true; true; false];
                [false; true; true; true; false];
                [false; true; true; true; false];
                [false; false; false; false; false]]
  /\ computeCornerScrewPositions screws4
     = [[false; false; false; false; false];
        [false; true; false; true; false];
        [false; false; false; false; false];
        [false; true; false; true; false];
        [false; false; false; false; false]].
Proof.
  intros screws3 screws4. split; [|by vm_compute].
  unfold computeCornerScrewPositions.
  destruct (decide (0 <= i < rows_of eligible /\ 0 <= j < cols_of eligible))
    as [[Hi Hj]|Hout].
  - rewrite at2_table by done. rewrite (isEligible_in_range _ i j) by done.
    destruct (truthy (at2 eligible i j)); simpl; [|intuition congruence].
    destruct (isEligible eligible i (j - 1)), (isEligible eligible i (j + 1)),
      (isEligible eligible (i - 1) j), (isEligible eligible (i + 1) j);
      simpl; intuition congruence.
  - rewrite at2_table_None by done.
    rewrite (isEligible_out_of_range _ i j) by done.
    simpl. intuition congruence.
Qed.

(** ** Pruning *)

Lemma prune_one_idem e i j s :
  prune_one e i j (prune_one e i j s) = prune_one e i j s.
Proof.
  unfold prune_one. simpl.
  destruct (truthy (at2 (connectors e) i j)),
    (truthy (at2 (chamfers e) i j)), (truthy (at2 (screws e) i j)); done.
Qed.

Lemma prune_one_allowed e i j s : feature_allowed e i j (prune_one e i j s).
Proof.
  unfold feature_allowed, prune_one. simpl.
  destruct (truthy (at2 (connectors e) i j)),
    (truthy (at2 (chamfers e) i j)), (truthy (at2 (screws e) i j)); done.
Qed.

Lemma at2_pruneSummits (ss : Summits) e i j :
  at2 (pruneSummits ss e) i j = prune_one e i j <$> at2 ss i j.
Proof.
  unfold at2, at_, pruneSummits.
  case_bool_decide as Hi; [|done].
  rewrite list_lookup_imap. destruct (ss !! Z.to_nat i) as [row|]; [|done].
  simpl. case_bool_decide as Hj; [|done].
  rewrite list_lookup_imap. by rewrite !Z2Nat.id.
Qed.

Lemma pruneSummits_allowed (ss : Summits) e :
  summits_allowed e (pruneSummits ss e).
Proof.
  intros i j s. rewrite at2_pruneSummits.
  destruct (at2 ss i j); intros [= <-]. apply prune_one_allowed.
Qed.

(** C9: pruning twice against the same eligibility is pruning once, and
    one pruning already leaves no active feature that the eligibility
    grids do not allow. *)
Theorem pruneSummits_idempotent (ss : Summits) (e : Eligibility) :
  pruneSummits (pruneSummits ss e) e = pruneSummits ss e
  /\ summits_allowed e (pruneSummits ss e).
Proof.
  split; [|apply pruneSummits_allowed].
  unfold pruneSummits. apply list_eq. intros i.
  rewrite !list_lookup_imap. destruct (ss !! i) as [row|]; [|done].
  simpl. f_equal. apply list_eq. intros j.
  rewrite !list_lookup_imap. destruct (row !! j) as [s|]; [|done].
  simpl. f_equal. apply prune_one_idem.
Qed.

(** ** Grid dimensions under the editor operations *)

Lemma rows_of_set2 {A} (g : list (list A)) i j v :
  rows_of (set2 g i j v) = rows_of g.
Proof. unfold rows_of, len, set2. by rewrite length_alter. Qed.

Lemma cols_of_set2 {A} (g : list (list A)) i j v :
  cols_of (set2 g i j v) = cols_of g.
Proof.
  unfold cols_of, set2.
  destruct (decide (Z.to_nat i = 0%nat)) as [->|Hne].
  - rewrite list_lookup_alter. destruct (g !! 0%nat); [|done].
    simpl. unfold len. by rewrite length_insert.
  - by rewrite list_lookup_alter_ne.
Qed.

Lemma toggle_feature_tiles elig f i j st st' :
  toggle_feature elig f i j st = Some st' -> st_tiles st' = st_tiles st.
Proof.
  unfold toggle_feature. destruct (negb _); [by intros [= <-]|].
  destruct (at2 _ _ _); [by intros [= <-]|done].
Qed.

Lemma enable_all_tiles elig f st st' :
  enable_all elig f st = Some st' -> st_tiles st' = st_tiles st.
Proof.
  unfold enable_all. destruct (for_summits _ _ _ _); [by intros [= <-]|done].
Qed.

Lemma rows_of_slice {A} (g : list (list A)) :
  rows_of (slice_0_m1 g) = Z.max 0 (rows_of g - 1).
Proof. unfold rows_of, len, slice_0_m1. rewrite length_take. lia. Qed.

Lemma cols_of_slice_rows {A} (g : list (list A)) :
  2 <= rows_of g -> cols_of (slice_0_m1 g) = cols_of g.
Proof.
  unfold rows_of, len, cols_of, slice_0_m1. intros H.
  by rewrite lookup_take_lt by lia.
Qed.

Lemma cols_of_slice_cols {A} (g : list (list A)) :
  cols_of (slice_0_m1 <$> g) = Z.max 0 (cols_of g - 1).
Proof.
  unfold cols_of. rewrite list_lookup_fmap.
  destruct (g !! 0%nat) as [row|]; [|done]. simpl.
  unfold len, slice_0_m1. rewrite length_take. lia.
Qed.

Lemma cols_of_app_row {A} (g : list (list A)) row :
  1 <= rows_of g -> cols_of (g ++ [row]) = cols_of g.
Proof.
  unfold rows_of, len, cols_of. intros H. by rewrite lookup_app_l by lia.
Qed.

Lemma cols_of_app_col {A} (g : list (list A)) x :
  1 <= rows_of g -> cols_of ((fun row => row ++ [x]) <$> g) = cols_of g + 1.
Proof.
  unfold rows_of, len, cols_of. intros H. rewrite list_lookup_fmap.
  destruct (g !! 0%nat) as [row|] eqn:E.
  - simpl. unfold len. rewrite length_app. simpl. lia.
  - apply lookup_ge_None in E. lia.
Qed.

Lemma apply_op_dims o st st' :
  dims_at_least_one st -> apply_op o st = Some st' -> dims_at_least_one st'.
Proof.
  unfold dims_at_least_one. intros [Hr Hc] Hop.
  destruct o; simpl in Hop;
    try (injection Hop as <-; simpl; done);
    try (apply toggle_feature_tiles in Hop; by rewrite Hop);
    try (apply enable_all_tiles in Hop; by rewrite Hop).
  - unfold toggleTile in Hop. destruct (at2 _ _ _); [|done].
    injection Hop as <-. simpl. by rewrite rows_of_set2, cols_of_set2.
  - injection Hop as <-. unfold addRow. simpl.
    rewrite cols_of_app_row by done. split; [|done].
    unfold rows_of, len in *. rewrite length_app. simpl. lia.
  - injection Hop as <-. unfold removeRow.
    destruct (rows_of (st_tiles st) <=? 1) eqn:E; [done|].
    apply Z.leb_gt in E. simpl.
    rewrite rows_of_slice, cols_of_slice_rows by lia. lia.
  - injection Hop as <-. unfold addColumn. simpl.
    rewrite cols_of_app_col by done. split; [|lia].
    unfold rows_of. by rewrite len_fmap.
  - injection Hop as <-. unfold removeColumn.
    destruct (cols_of (st_tiles st) <=? 1) eqn:E; [done|].
    apply Z.leb_gt in E. simpl.
    rewrite cols_of_slice_cols. split; [|lia].
    unfold rows_of. by rewrite len_fmap.
Qed.

(** C8: [removeRow] on a grid of exactly one row and [removeColumn] on
    a grid of exactly one column leave the state, tiles and summits,
    unchanged; and from a grid of at least one row and one column no
    sequence of editor operations reaches a grid with fewer. *)
Theorem remove_last_rejected (st : EditorState) :
  (rows_of (st_tiles st) = 1 -> removeRow st = st)
  /\ (cols_of (st_tiles st) = 1 -> removeColumn st = st)
  /\ (forall st',
        1 <= rows_of (st_tiles st) -> 1 <= cols_of (st_tiles st) ->
        reachable st st' ->
        1 <= rows_of (st_tiles st') /\ 1 <= cols_of (st_tiles st')).
Proof.
  split; [|split].
  - intros E. unfold removeRow. by rewrite E.
  - intros E. unfold removeColumn. by rewrite E.
  - intros st' Hr Hc Hreach.
    induction Hreach as [|st1 st2 o _ IH Hop]; [done|].
    by apply (apply_op_dims o st1 st2).
Qed.

Lemma remove_last_rejected_witness :
  removeRow (removeRow (initialState 2 2)) = removeRow (initialState 2 2)
  /\ 1 <= rows_of (st_tiles (removeRow (removeRow (initialState 2 2)))).
Proof.
  split.
  - apply (remove_last_rejected (removeRow (initialState 2 2))).
    reflexivity.
  - apply (remove_last_rejected (initialState 2 2)).
    + vm_compute. congruence.
    + vm_compute. congruence.
    + eapply (reach_step _ _ _ RemoveRow); [|reflexivity].
      eapply (reach_step _ _ _ RemoveRow); [apply reach_init|reflexivity].
Defined.

(** ** Growing the grid *)

(** C2 (the code falls short of it): [addRow] and [addColumn] neither
    recompute eligibility nor prune.  After [toggleConnector(2, 1)] and
    [addRow()] on the 2x2 editor, summit (2,1) keeps its connector
    although the connector grid of the new layout is false there; the
    same happens at summit (1,2) after [toggleConnector(1, 2)] and
    [addColumn()].  Both states are reachable and violate the
    eligibility-consistency invariant. *)
Lemma addRow_keeps_stale_connector :
  (reachable (initialState 2 2) stale_state
   /\ at2 (st_summits stale_state) 2 1
      = Some {| connector_angle := Some 90;
                tile_chamfer := false; screw := false |}
   /\ at2 (connectors (computeAllEligibility (st_tiles stale_state))) 2 1
      = Some false
   /\ ~ eligibility_consistent stale_state)
  /\ (reachable (initialState 2 2) stale_state_column
      /\ at2 (st_summits stale_state_column) 1 2
         = Some {| connector_angle := Some 180;
                   tile_chamfer := false; screw := false |}
      /\ at2 (connectors
                (computeAllEligibility (st_tiles stale_state_column))) 1 2
         = Some false
      /\ ~ eligibility_consistent stale_state_column).
Proof.
  split; (split; [|split; [|split]]); try reflexivity.
  - eapply (reach_step _ _ _ AddRow); [|reflexivity].
    eapply (reach_step _ _ _ (ToggleConnector 2 1)); [apply reach_init|].
    reflexivity.
  - intros H. destruct (H 2 1 _ eq_refl) as [Hconn _].
    by specialize (Hconn ltac:(done)).
  - eapply (reach_step _ _ _ AddColumn); [|reflexivity].
    eapply (reach_step _ _ _ (ToggleConnector 1 2)); [apply reach_init|].
    reflexivity.
  - intros H. destruct (H 1 2 _ eq_refl) as [Hconn _].
    by specialize (Hconn ltac:(done)).
Qed.

(** ** Splitting and joining the fields of a code *)

Lemma split_dot_nonempty s : split_dot s <> [].
Proof.
  destruct s as [|c s]; simpl; [done|].
  case_bool_decide; [done|]. by destruct (split_dot s).
Qed.

Lemma split_dot_no_dot s : no_dot s = true -> split_dot s = [s].
Proof.
  induction s as [|c s IH]; simpl; [done|].
  case_bool_decide; [done|]. intros H'. by rewrite IH.
Qed.

Lemma split_dot_field s rest :
  no_dot s = true -> split_dot (s +:+ String "." rest) = s :: split_dot rest.
Proof.
  induction s as [|c s IH]; simpl.
  - done.
  - case_bool_decide; [done|]. intros H'. by rewrite IH.
Qed.

(** ** Decimal rendering and [parseInt] *)

Lemma digit_not_space_dot c d :
  digit_of c = Some d ->
  is_white_space c = false /\ c <> "-"%char /\ c <> "+"%char
  /\ c <> "."%char /\ 0 <= d <= 9.
Proof.
  unfold digit_of, is_white_space.
  destruct (_ && _) eqn:E; [|done]. intros [= <-].
  apply andb_true_iff in E as [E1%Z.leb_le E2%Z.leb_le].
  split; [|split; [|split; [|split]]].
  - cbv zeta. rewrite !orb_false_iff, !Z.eqb_neq. lia.
  - intros ->. vm_compute in E1. done.
  - intros ->. vm_compute in E1. done.
  - intros ->. vm_compute in E1. done.
  - lia.
Qed.

Lemma parse_digits_uint d acc :
  0 <= acc ->
  parse_digits (DecimalString.NilEmpty.string_of_uint d) acc
  = Z.of_nat (Nat.of_uint_acc d (Z.to_nat acc)).
Proof.
  revert acc. induction d; intros acc Hacc; simpl; [lia|..];
    match goal with
    | |- context [charCode ?c] =>
        let v := eval vm_compute in (charCode c) in
        change (charCode c) with v
    end;
    rewrite IHd by lia; f_equal; f_equal; rewrite Nat.tail_mul_spec; lia.
Qed.

Lemma string_of_uint_head d :
  d <> Decimal.Nil ->
  exists c rest dg, DecimalString.NilEmpty.string_of_uint d = String c rest
                    /\ digit_of c = Some dg.
Proof. destruct d; [done|..]; intros _; simpl; eauto. Qed.

Lemma string_of_uint_no_dot d :
  no_dot (DecimalString.NilEmpty.string_of_uint d) = true.
Proof. induction d; simpl; done. Qed.

Lemma parseInt_digits s c rest d :
  s = String c rest -> digit_of c = Some d ->
  parseInt s = Some (parse_digits s 0).
Proof.
  intros -> Hd. unfold parseInt.
  destruct (digit_not_space_dot c d Hd) as (Hws & Hm & Hp & _).
  cbn [trim_start]. rewrite Hws.
  destruct c as [[] [] [] [] [] [] [] []]; try done; rewrite Hd; f_equal; lia.
Qed.

Lemma parseInt_toString n :
  0 <= n -> parseInt (Number_toString n) = Some n.
Proof.
  intros Hn. unfold Number_toString, DecimalString.NilZero.string_of_uint.
  pose proof (DecimalNat.Unsigned.of_to (Z.to_nat n)) as Hof.
  unfold Nat.of_uint in Hof.
  destruct (Nat.to_uint (Z.to_nat n)) as [|d|d|d|d|d|d|d|d|d|d] eqn:E.
  { cbn [Nat.of_uint_acc] in Hof. replace n with 0 by lia. reflexivity. }
  all: match goal with
       | |- parseInt (DecimalString.NilEmpty.string_of_uint ?u) = _ =>
           pose proof (parse_digits_uint u 0 ltac:(lia)) as Hp;
           change (Z.to_nat 0) with 0%nat in Hp; rewrite Hof in Hp;
           rewrite Z2Nat.id in Hp by lia; rewrite <- Hp
       end;
    eapply parseInt_digits; [cbn [DecimalString.NilEmpty.string_of_uint]; reflexivity | reflexivity].
Qed.

Lemma toString_no_dot n : no_dot (Number_toString n) = true.
Proof.
  unfold Number_toString, DecimalString.NilZero.string_of_uint.
  destruct (Nat.to_uint _) eqn:E; [done|..]; apply string_of_uint_no_dot.
Qed.

(** ** Base64url *)

(** Checking a decidable property on every index below [n]. *)
Lemma forall_range (P : Z -> bool) n :
  forallb P (range n) = true -> forall x, 0 <= x < n -> P x = true.
Proof.
  intros H x Hx. rewrite forallb_forall in H. apply H.
  apply list_elem_of_In. unfold range. apply elem_of_seqZ. lia.
Qed.

Lemma forall_bytes2 (P : Z -> Z -> bool) :
  forallb (fun a => forallb (P a) (range 256)) (range 256) = true ->
  forall a b, is_byte a -> is_byte b -> P a b = true.
Proof.
  intros H a b Ha Hb.
  apply (forall_range (P a) 256); [|done].
  by apply (forall_range (fun a => forallb (P a) (range 256)) 256).
Qed.

Lemma land_63_bound x : 0 <= Z.land x 63 < 64.
Proof.
  change 63 with (Z.ones 6). rewrite Z.land_ones by lia.
  apply Z.mod_pos_bound. lia.
Qed.

Lemma sextet_check :
  forallb (fun x => (b64_val (B64_at x) =? x)
                    && negb (bool_decide (B64_at x = "="%char))
                    && negb (bool_decide (B64_at x = "."%char)))
          (range 64) = true.
Proof. vm_compute. reflexivity. Qed.

Lemma sextet_char x :
  0 <= x < 64 ->
  b64_val (B64_at x) = x
  /\ B64_at x <> "="%char /\ B64_at x <> "."%char.
Proof.
  intros Hx. pose proof (forall_range _ 64 sextet_check x Hx) as H.
  simpl in H. rewrite !andb_true_iff, !negb_true_iff in H.
  destruct H as [[H1%Z.eqb_eq H2%bool_decide_eq_false] H3%bool_decide_eq_false].
  done.
Qed.

Lemma first_byte_check :
  forallb (fun b0 => forallb (fun b1 =>
    Z.lor (Z.shiftl (Z.land (Z.shiftr b0 2) 63) 2)
      (Z.shiftr (Z.land (Z.lor (Z.shiftl b0 4) (Z.shiftr b1 4)) 63) 4)
    =? b0) (range 256)) (range 256) = true.
Proof. vm_compute. reflexivity. Qed.

Lemma first_byte b0 b1 :
  is_byte b0 -> is_byte b1 ->
  Z.lor (Z.shiftl (Z.land (Z.shiftr b0 2) 63) 2)
        (Z.shiftr (Z.land (Z.lor (Z.shiftl b0 4) (Z.shiftr b1 4)) 63) 4)
  = b0.
Proof.
  intros H0 H1. apply Z.eqb_eq.
  exact (forall_bytes2 _ first_byte_check b0 b1 H0 H1).
Qed.

Lemma second_byte_high_check :
  forallb (fun b0 => forallb (fun b1 =>
    Z.land (Z.shiftl (Z.land (Z.lor (Z.shiftl b0 4) (Z.shiftr b1 4)) 63) 4)
      255
    =? Z.shiftl (Z.shiftr b1 4) 4) (range 256)) (range 256) = true.
Proof. vm_compute. reflexivity. Qed.

Lemma second_byte_high b0 b1 :
  is_byte b0 -> is_byte b1 ->
  Z.land (Z.shiftl (Z.land (Z.lor (Z.shiftl b0 4) (Z.shiftr b1 4)) 63) 4) 255
  = Z.shiftl (Z.shiftr b1 4) 4.
Proof.
  intros H0 H1. apply Z.eqb_eq.
  exact (forall_bytes2 _ second_byte_high_check b0 b1 H0 H1).
Qed.

Lemma second_byte_low_check :
  forallb (fun b1 => forallb (fun b2 =>
    Z.land (Z.shiftr (Z.land (Z.lor (Z.shiftl b1 2) (Z.shiftr b2 6)) 63) 2)
      255
    =? Z.land b1 15) (range 256)) (range 256) = true.
Proof. vm_compute. reflexivity. Qed.

Lemma second_byte_low b1 b2 :
  is_byte b1 -> is_byte b2 ->
  Z.land (Z.shiftr (Z.land (Z.lor (Z.shiftl b1 2) (Z.shiftr b2 6)) 63) 2) 255
  = Z.land b1 15.
Proof.
  intros H1 H2. apply Z.eqb_eq.
  exact (forall_bytes2 _ second_byte_low_check b1 b2 H1 H2).
Qed.

Lemma third_byte_high_check :
  forallb (fun b1 => forallb (fun b2 =>
    Z.land (Z.shiftl (Z.land (Z.lor (Z.shiftl b1 2) (Z.shiftr b2 6)) 63) 6)
      255
    =? Z.shiftl (Z.shiftr b2 6) 6) (range 256)) (range 256) = true.
Proof. vm_compute. reflexivity. Qed.

Lemma third_byte_high b1 b2 :
  is_byte b1 -> is_byte b2 ->
  Z.land (Z.shiftl (Z.land (Z.lor (Z.shiftl b1 2) (Z.shiftr b2 6)) 63) 6) 255
  = Z.shiftl (Z.shiftr b2 6) 6.
Proof.
  intros H1 H2. apply Z.eqb_eq.
  exact (forall_bytes2 _ third_byte_high_check b1 b2 H1 H2).
Qed.

Lemma byte_recombine_check :
  forallb (fun b =>
    (Z.lor (Z.shiftl (Z.shiftr b 4) 4) (Z.land b 15) =? b)
    && (Z.lor (Z.shiftl (Z.shiftr b 6) 6) (Z.land (Z.land b 63) 255) =? b)
    && (u8 b =? b)) (range 256) = true.
Proof. vm_compute. reflexivity. Qed.

Lemma byte_recombine b :
  is_byte b ->
  Z.lor (Z.shiftl (Z.shiftr b 4) 4) (Z.land b 15) = b
  /\ Z.lor (Z.shiftl (Z.shiftr b 6) 6) (Z.land (Z.land b 63) 255) = b
  /\ u8 b = b.
Proof.
  intros Hb. pose proof (forall_range _ 256 byte_recombine_check b Hb) as H.
  simpl in H. rewrite !andb_true_iff, !Z.eqb_eq in H. tauto.
Qed.

Lemma second_byte b0 b1 b2 :
  is_byte b0 -> is_byte b1 -> is_byte b2 ->
  Z.land
    (Z.lor
       (Z.shiftl (Z.land (Z.lor (Z.shiftl b0 4) (Z.shiftr b1 4)) 63) 4)
       (Z.shiftr (Z.land (Z.lor (Z.shiftl b1 2) (Z.shiftr b2 6)) 63) 2))
    255
  = b1.
Proof.
  intros H0 H1 H2. rewrite Z.land_lor_distr_l.
  rewrite second_byte_high, second_byte_low by done.
  by apply byte_recombine.
Qed.

Lemma third_byte b1 b2 :
  is_byte b1 -> is_byte b2 ->
  Z.land
    (Z.lor
       (Z.shiftl (Z.land (Z.lor (Z.shiftl b1 2) (Z.shiftr b2 6)) 63) 6)
       (Z.land b2 63))
    255
  = b2.
Proof.
  intros H1 H2. rewrite Z.land_lor_distr_l.
  rewrite third_byte_high by done. by apply byte_recombine.
Qed.

Lemma is_byte_0 : is_byte 0.
Proof. unfold is_byte. lia. Qed.

Lemma b64_group_full b0 b1 b2 :
  is_byte b0 -> is_byte b1 -> is_byte b2 ->
  b64_group (B64_at (Z.land (Z.shiftr b0 2) 63))
            (B64_at (Z.land (Z.lor (Z.shiftl b0 4) (Z.shiftr b1 4)) 63))
            (B64_at (Z.land (Z.lor (Z.shiftl b1 2) (Z.shiftr b2 6)) 63))
            (B64_at (Z.land b2 63))
  = [b0; b1; b2].
Proof.
  intros H0 H1 H2. unfold b64_group.
  destruct (sextet_char _ (land_63_bound (Z.shiftr b0 2))) as (-> & _ & _).
  destruct (sextet_char _ (land_63_bound
              (Z.lor (Z.shiftl b0 4) (Z.shiftr b1 4)))) as (-> & _ & _).
  destruct (sextet_char _ (land_63_bound
              (Z.lor (Z.shiftl b1 2) (Z.shiftr b2 6)))) as (-> & E2 & _).
  destruct (sextet_char _ (land_63_bound b2)) as (-> & E3 & _).
  rewrite !bool_decide_eq_false_2 by done. simpl.
  by rewrite first_byte, second_byte, third_byte.
Qed.

Lemma b64_group_two b0 b1 :
  is_byte b0 -> is_byte b1 ->
  b64_group (B64_at (Z.land (Z.shiftr b0 2) 63))
            (B64_at (Z.land (Z.lor (Z.shiftl b0 4) (Z.shiftr b1 4)) 63))
            (B64_at (Z.land (Z.lor (Z.shiftl b1 2) (Z.shiftr 0 6)) 63))
            "="
  = [b0; b1].
Proof.
  intros H0 H1. unfold b64_group.
  destruct (sextet_char _ (land_63_bound (Z.shiftr b0 2))) as (-> & _ & _).
  destruct (sextet_char _ (land_63_bound
              (Z.lor (Z.shiftl b0 4) (Z.shiftr b1 4)))) as (-> & _ & _).
  destruct (sextet_char _ (land_63_bound
              (Z.lor (Z.shiftl b1 2) (Z.shiftr 0 6)))) as (-> & E2 & _).
  rewrite (bool_decide_eq_false_2 _ E2).
  rewrite (bool_decide_eq_true_2 ("="%char = "="%char)) by done. simpl.
  by rewrite first_byte, (second_byte b0 b1 0) by (done || apply is_byte_0).
Qed.

Lemma b64_group_one b0 :
  is_byte b0 ->
  b64_group (B64_at (Z.land (Z.shiftr b0 2) 63))
            (B64_at (Z.land (Z.lor (Z.shiftl b0 4) (Z.shiftr 0 4)) 63))
            "=" "="
  = [b0].
Proof.
  intros H0. unfold b64_group.
  destruct (sextet_char _ (land_63_bound (Z.shiftr b0 2))) as (-> & _ & _).
  destruct (sextet_char _ (land_63_bound
              (Z.lor (Z.shiftl b0 4) (Z.shiftr 0 4)))) as (-> & _ & _).
  rewrite !(bool_decide_eq_true_2 ("="%char = "="%char)) by done. simpl.
  by rewrite (first_byte b0 0) by (done || apply is_byte_0).
Qed.

(** Induction on a list three elements at a time, as the encoding loop
    walks its input. *)
Lemma list_ind3 {A} (P : list A -> Prop) :
  P [] -> (forall a, P [a]) -> (forall a b, P [a; b]) ->
  (forall a b c l, P l -> P (a :: b :: c :: l)) ->
  forall l, P l.
Proof.
  intros H0 H1 H2 H3 l.
  assert (forall n l, (length l < n)%nat -> P l) as Hn.
  { clear l. induction n as [|n IH]; intros l Hl; [lia|].
    destruct l as [|a [|b [|c l]]]; auto.
    apply H3, IH. simpl in Hl. lia. }
  apply (Hn (S (length l))). lia.
Qed.

Lemma u8_bytes (data : list Z) : Forall is_byte data -> u8 <$> data = data.
Proof.
  induction 1 as [|b data Hb _ IH]; [done|].
  csimpl. rewrite IH. f_equal. by apply byte_recombine.
Qed.

Lemma b64_groups_encode (data : list Z) :
  Forall is_byte data -> b64_groups (b64urlEncode data) = data.
Proof.
  induction data as [|a|a b|a b c l IH] using list_ind3; intros Hb.
  - done.
  - apply Forall_cons in Hb as [Ha _].
    cbn [b64urlEncode b64_groups]. by apply b64_group_one.
  - apply Forall_cons in Hb as [Ha Hb]. apply Forall_cons in Hb as [Hb _].
    cbn [b64urlEncode b64_groups]. by apply b64_group_two.
  - apply Forall_cons in Hb as [Ha Hb]. apply Forall_cons in Hb as [Hb Hc].
    apply Forall_cons in Hc as [Hc Hl].
    change (b64urlEncode (a :: b :: c :: l))
      with (String (B64_at (Z.land (Z.shiftr a 2) 63))
             (String (B64_at (Z.land (Z.lor (Z.shiftl a 4) (Z.shiftr b 4)) 63))
               (String
                  (B64_at (Z.land (Z.lor (Z.shiftl b 2) (Z.shiftr c 6)) 63))
                  (String (B64_at (Z.land c 63)) (b64urlEncode l))))).
    cbn [b64_groups]. rewrite b64_group_full, IH by done. done.
Qed.

(** Decoding an encoded byte array gives the array back. *)
Lemma b64url_roundtrip (data : list Z) :
  Forall is_byte data -> b64urlDecode (b64urlEncode data) = data.
Proof.
  intros Hb. unfold b64urlDecode. rewrite b64_groups_encode by done.
  by apply u8_bytes.
Qed.

Lemma b64urlEncode_no_dot (data : list Z) : no_dot (b64urlEncode data) = true.
Proof.
  induction data as [|a|a b|a b c l IH] using list_ind3;
    cbn [b64urlEncode no_dot]; rewrite ?IH;
    repeat match goal with
    | |- context [bool_decide (B64_at (Z.land ?x 63) = "."%char)] =>
        rewrite (bool_decide_eq_false_2 (B64_at (Z.land x 63) = "."%char))
          by apply (sextet_char _ (land_63_bound x))
    end; done.
Qed.

(** ** Bit packing *)

Lemma index_byte i : Z.shiftr i 3 = i / 8.
Proof. rewrite Z.shiftr_div_pow2 by lia. done. Qed.

Lemma index_bit i : Z.land i 7 = i mod 8.
Proof. change 7 with (Z.ones 3). rewrite Z.land_ones by lia. done. Qed.

Lemma testbit_single_mask x m :
  0 <= m -> negb (Z.land x (Z.shiftl 1 m) =? 0) = Z.testbit x m.
Proof.
  intros Hm. rewrite Z.shiftl_1_l.
  destruct (Z.testbit x m) eqn:E.
  - apply negb_true_iff, Z.eqb_neq. intros H0.
    assert (Z.testbit (Z.land x (2 ^ m)) m = true) as Hb.
    { rewrite Z.land_spec, E, Z.pow2_bits_true by lia. done. }
    rewrite H0, Z.bits_0 in Hb. done.
  - apply negb_false_iff, Z.eqb_eq. apply Z.bits_inj'. intros n Hn.
    rewrite Z.land_spec, Z.bits_0, Z.pow2_bits_eqb by lia.
    destruct (Z.eqb_spec m n) as [->|]; [by rewrite E|].
    by rewrite andb_false_r.
Qed.

Lemma bit_of_bytes_testbit data i :
  bit_of_bytes data i
  = Z.testbit (default 0 (at_ data (i / 8))) (7 - i mod 8).
Proof.
  unfold bit_of_bytes. cbv zeta. rewrite index_byte, index_bit.
  apply testbit_single_mask.
  pose proof (Z.mod_pos_bound i 8). lia.
Qed.

Lemma testbit_set_mask b m m' :
  0 <= m < 8 -> 0 <= m' < 8 ->
  Z.testbit (u8 (Z.lor b (Z.shiftl 1 m))) m' = Z.testbit b m' || (m =? m').
Proof.
  intros Hm Hm'. unfold u8. change 256 with (2 ^ 8).
  rewrite Z.mod_pow2_bits_low by lia.
  rewrite Z.lor_spec, Z.shiftl_1_l, Z.pow2_bits_eqb by lia. done.
Qed.

Lemma length_set_bit data i : length (set_bit data i) = length data.
Proof. unfold set_bit. apply length_alter. Qed.

Lemma is_byte_u8 x : is_byte (u8 x).
Proof. unfold is_byte, u8. apply Z.mod_pos_bound. lia. Qed.

Lemma set_bit_bytes data i : Forall is_byte data -> Forall is_byte (set_bit data i).
Proof.
  intros H. unfold set_bit. apply Forall_alter; [done|].
  intros. apply is_byte_u8.
Qed.

Lemma bit_of_bytes_set_bit data i j :
  0 <= i -> 0 <= j -> i / 8 < len data ->
  bit_of_bytes (set_bit data i) j = (i =? j) || bit_of_bytes data j.
Proof.
  intros Hi Hj Hlen. rewrite !bit_of_bytes_testbit.
  unfold set_bit, at_. rewrite index_byte, index_bit.
  assert (0 <= j / 8) by (apply Z.div_pos; lia).
  assert (0 <= i / 8) by (apply Z.div_pos; lia).
  pose proof (Z.mod_pos_bound i 8 ltac:(lia)).
  pose proof (Z.mod_pos_bound j 8 ltac:(lia)).
  rewrite bool_decide_eq_true_2 by done.
  rewrite list_lookup_alter. case_decide as Hij.
  - apply Z2Nat.inj in Hij; [|lia..].
    destruct (data !! Z.to_nat (i / 8)) as [b|] eqn:Eb.
    + rewrite <- Hij, Eb. simpl. rewrite testbit_set_mask by lia.
      rewrite orb_comm. f_equal.
      apply eq_true_iff_eq. rewrite !Z.eqb_eq.
      pose proof (Z.div_mod i 8 ltac:(lia)).
      pose proof (Z.div_mod j 8 ltac:(lia)). lia.
    + apply lookup_ge_None in Eb. unfold len in Hlen. lia.
  - replace (i =? j) with false; [done|].
    symmetry. apply Z.eqb_neq. intros ->. done.
Qed.

Lemma fold_set_bits (bits : list bool) (init : list Z) (k : nat) :
  len bits <= 8 * len init ->
  Z.of_nat k <= len bits ->
  Forall is_byte init ->
  let res :=
    foldl (fun result i => if truthy (at_ bits i) then set_bit result i else result)
          init (range (Z.of_nat k)) in
  length res = length init
  /\ Forall is_byte res
  /\ forall j, 0 <= j ->
       bit_of_bytes res j
       = ((j <? Z.of_nat k) && truthy (at_ bits j)) || bit_of_bytes init j.
Proof.
  intros Hcap. induction k as [|k IH]; intros Hk Hinit.
  - simpl. repeat split; [done|]. intros j Hj.
    replace (j <? Z.of_nat 0) with false; [done|]. symmetry. apply Z.ltb_ge. lia.
  - specialize (IH ltac:(lia) Hinit). cbv zeta in IH |- *.
    unfold range in *. rewrite seqZ_S, foldl_app. simpl.
    set (res := foldl _ init (seqZ 0 (Z.of_nat k))) in *.
    destruct IH as (Hlen & Hbytes & Hbits).
    rewrite Z.add_0_l.
    destruct (truthy (at_ bits (Z.of_nat k))) eqn:Ek.
    + split; [by rewrite length_set_bit|].
      split; [by apply set_bit_bytes|].
      intros j Hj. rewrite bit_of_bytes_set_bit; [|lia|done|].
      * rewrite Hbits by done.
        destruct (Z.eqb_spec (Z.of_nat k) j) as [<-|Hne].
        -- rewrite Ek. replace (Z.of_nat k <? Z.of_nat (S k)) with true; [done|].
           symmetry. apply Z.ltb_lt. lia.
        -- simpl. f_equal. f_equal. apply eq_true_iff_eq.
           rewrite !Z.ltb_lt. lia.
      * unfold len in *. rewrite Hlen.
        apply Z.div_lt_upper_bound; lia.
    + split; [done|]. split; [done|].
      intros j Hj. rewrite Hbits by done. f_equal.
      destruct (Z.eqb_spec (Z.of_nat k) j) as [<-|Hne].
      * rewrite Ek, !andb_false_r. done.
      * f_equal. apply eq_true_iff_eq. rewrite !Z.ltb_lt. lia.
Qed.

Lemma ceil_div_8_bounds n :
  0 <= n -> n <= 8 * Math_ceil_div n 8 < n + 8.
Proof. intros Hn. unfold Math_ceil_div. Z.div_mod_to_equations. lia. Qed.

Lemma bit_of_zero_bytes n j : bit_of_bytes (replicate n 0) j = false.
Proof.
  rewrite bit_of_bytes_testbit. unfold at_.
  case_bool_decide; [|apply Z.bits_0].
  destruct (replicate n 0 !! Z.to_nat (j / 8)) as [b|] eqn:E; [|apply Z.bits_0].
  apply lookup_replicate in E as [-> _]. apply Z.bits_0.
Qed.

Lemma bitsToBytes_spec (bits : list bool) :
  len (bitsToBytes bits) = Math_ceil_div (len bits) 8
  /\ Forall is_byte (bitsToBytes bits)
  /\ forall j, 0 <= j < len bits ->
       bit_of_bytes (bitsToBytes bits) j = truthy (at_ bits j).
Proof.
  assert (0 <= len bits) as Hn by (unfold len; lia).
  pose proof (ceil_div_8_bounds (len bits) Hn) as Hc.
  pose proof (fold_set_bits bits
                (replicate (Z.to_nat (Math_ceil_div (len bits) 8)) 0)
                (length bits)) as H.
  cbv zeta in H. fold (len bits) in H.
  destruct H as (Hlen & Hbytes & Hbits).
  - unfold len at 2. rewrite length_replicate. lia.
  - lia.
  - apply Forall_replicate. apply is_byte_0.
  - unfold bitsToBytes. split; [|split; [done|]].
    + unfold len at 1. rewrite Hlen, length_replicate. lia.
    + intros j Hj. rewrite Hbits by lia. rewrite bit_of_zero_bytes.
      rewrite orb_false_r.
      replace (j <? len bits) with true; [done|]. symmetry. apply Z.ltb_lt. lia.
Qed.

(** Unpacking the packed bits gives the bits back. *)
Lemma bits_roundtrip (bits : list bool) :
  bytesToBits (bitsToBytes bits) (len bits) = bits.
Proof.
  destruct (bitsToBytes_spec bits) as (_ & _ & Hbits).
  unfold bytesToBits. apply list_eq. intros k.
  rewrite list_lookup_fmap. unfold range.
  destruct (decide (k < length bits)%nat) as [Hk|Hk].
  - rewrite lookup_seqZ_lt by (unfold len; lia). simpl.
    rewrite Z.add_0_l, Hbits by (unfold len; lia).
    rewrite at_of_nat.
    destruct (lookup_lt_is_Some_2 bits k Hk) as [b ->]. done.
  - rewrite lookup_seqZ_ge by (unfold len; lia).
    symmetry. apply lookup_ge_None. lia.
Qed.

(** ** Tables and their row-major flattening *)

Lemma range_bounds n k x : range n !! k = Some x -> 0 <= x < n /\ x = Z.of_nat k.
Proof. unfold range. intros [-> ?]%lookup_seqZ. lia. Qed.

Lemma table_ext {B} (f g : Z -> Z -> B) n m :
  (forall i j, 0 <= i < n -> 0 <= j < m -> f i j = g i j) ->
  (fun i => (fun j => f i j) <$> range m) <$> range n
  = (fun i => (fun j => g i j) <$> range m) <$> range n.
Proof.
  intros H. apply list_fmap_ext. intros k i [Hi _]%range_bounds.
  apply list_fmap_ext. intros k' j [Hj _]%range_bounds. by apply H.
Qed.

Lemma len_join_table {B} (f : Z -> Z -> B) (k : nat) m :
  0 <= m ->
  len (mjoin ((fun i => (fun j => f i j) <$> range m) <$> range (Z.of_nat k)))
  = Z.of_nat k * m.
Proof.
  intros Hm. induction k as [|k IH]; [done|].
  unfold range in *. rewrite seqZ_S, fmap_app, join_app. simpl.
  unfold len in *. rewrite length_app, app_nil_r, length_fmap, length_seqZ.
  lia.
Qed.

Lemma at_join_table {B} (f : Z -> Z -> B) n m i j :
  0 <= i < n -> 0 <= j < m ->
  at_ (mjoin ((fun i => (fun j => f i j) <$> range m) <$> range n)) (i * m + j)
  = Some (f i j).
Proof.
  intros Hi Hj. rewrite <- (Z2Nat.id n) in * by lia.
  induction (Z.to_nat n) as [|k IH]; [lia|].
  unfold range in *. rewrite seqZ_S, fmap_app, join_app. simpl.
  rewrite app_nil_r, Z.add_0_l.
  pose proof (len_join_table f k m ltac:(lia)) as Hlen.
  unfold range, len in Hlen. unfold at_ in *.
  rewrite bool_decide_eq_true_2 in * by nia.
  destruct (decide (i < Z.of_nat k)) as [Hlt|Hge].
  - rewrite lookup_app_l by nia. apply IH. lia.
  - assert (i = Z.of_nat k) as -> by lia.
    rewrite lookup_app_r by nia.
    replace (Z.to_nat (Z.of_nat k * m + j) - _)%nat with (Z.to_nat j) by nia.
    rewrite list_lookup_fmap, lookup_seqZ_lt by lia. simpl. f_equal. f_equal. lia.
Qed.

Lemma table_eq_grid {A} (g : list (list A)) (h : Z -> Z -> A) n m :
  shape g n m ->
  (forall i j x, at2 g i j = Some x -> h i j = x) ->
  (fun i => (fun j => h i j) <$> range m) <$> range n = g.
Proof.
  intros [Hn Hrows] Hh. apply list_eq. intros k.
  rewrite list_lookup_fmap. unfold range.
  destruct (g !! k) as [row|] eqn:Ek.
  - pose proof (lookup_lt_Some _ _ _ Ek) as Hk.
    rewrite lookup_seqZ_lt by (unfold len in Hn; lia). simpl. f_equal.
    assert (len row = m) as Hm.
    { rewrite Forall_forall in Hrows. apply Hrows.
      by eapply list_elem_of_lookup_2. }
    apply list_eq. intros k'. rewrite list_lookup_fmap.
    destruct (row !! k') as [x|] eqn:Ex.
    + pose proof (lookup_lt_Some _ _ _ Ex) as Hk'.
      rewrite lookup_seqZ_lt by (unfold len in Hm; lia). simpl. f_equal.
      apply Hh. unfold at2. rewrite !Z.add_0_l, at_of_nat, Ek.
      by rewrite at_of_nat.
    + apply lookup_ge_None in Ex.
      rewrite lookup_seqZ_ge by (unfold len in Hm; lia). done.
  - apply lookup_ge_None in Ek.
    rewrite lookup_seqZ_ge by (unfold len in Hn; lia). done.
Qed.

Lemma shape_at2 {A} (g : list (list A)) n m i j :
  shape g n m -> 0 <= i < n -> 0 <= j < m -> is_Some (at2 g i j).
Proof.
  intros [Hn Hrows] Hi Hj. unfold at2.
  destruct (at_is_Some g i ltac:(lia)) as [row Hrow]. rewrite Hrow.
  apply at_is_Some.
  rewrite Forall_forall in Hrows. rewrite (Hrows row); [done|].
  unfold at_ in Hrow. case_bool_decide; [|done].
  by eapply list_elem_of_lookup_2.
Qed.

Lemma rectangular_shape {A} (g : list (list A)) :
  rectangular g -> shape g (rows_of g) (cols_of g).
Proof. intros H. by split. Qed.

Lemma mapM_range {B} (f : Z -> option B) (g : Z -> B) n :
  (forall i, 0 <= i < n -> f i = Some (g i)) ->
  mapM f (range n) = Some (g <$> range n).
Proof.
  intros H. apply mapM_Some_2. apply Forall2_fmap_r, Forall_Forall2_diag.
  apply Forall_forall. intros x Hx. apply H.
  unfold range in Hx. apply elem_of_seqZ in Hx. lia.
Qed.

(** ** Numbers *)

Lemma pow2_pos e : (0 < pow2 e)%Q.
Proof.
  unfold pow2. destruct (0 <=? e) eqn:E.
  - apply Z.leb_le in E. unfold Qlt. simpl.
    pose proof (Z.pow_pos_nonneg 2 e). lia.
  - reflexivity.
Qed.

Lemma pow2_small e : e <= -44 -> (pow2 e <= 1 # 17592186044416)%Q.
Proof.
  intros He. unfold pow2.
  destruct (0 <=? e) eqn:E; [apply Z.leb_le in E; lia|].
  unfold Qle. simpl.
  assert (2 ^ 44 <= 2 ^ (- e)) as Hpow by (apply Z.pow_le_mono_r; lia).
  rewrite Z2Pos.id by lia.
  change (2 ^ 44) with 17592186044416 in Hpow. lia.
Qed.

Lemma round_half_even_error y :
  (Qabs (inject_Z (round_half_even y) - y) <= 1 # 2)%Q.
Proof.
  unfold round_half_even.
  pose proof (Qfloor_le y) as Hle. pose proof (Qlt_floor y) as Hlt.
  set (f := Qfloor y) in *.
  rewrite inject_Z_plus in Hlt. change (inject_Z 1) with 1%Q in Hlt.
  assert (inject_Z (f + 1) == inject_Z f + 1)%Q as Hsucc
      by (by rewrite inject_Z_plus).
  apply Qabs_Qle_condition.
  destruct (y - inject_Z f ?= 1 # 2)%Q eqn:E.
  - apply Qeq_alt in E. destruct (Z.even f); rewrite ?Hsucc; split; lra.
  - apply Qlt_alt in E. split; lra.
  - apply Qgt_alt in E. rewrite Hsucc. split; lra.
Qed.

Lemma Qlog2_le_8 q : (q <= 256)%Q -> Qlog2 q <= 8.
Proof.
  intros Hq. unfold Qlog2.
  assert (Z.log2 (Qnum q) - Z.log2 (Z.pos (Qden q)) <= 8) as H.
  { unfold Qle in Hq. simpl in Hq.
    assert (Z.log2 (Qnum q) <= Z.log2 (Z.pos (Qden q) * 2 ^ 8)) as Hlog
        by (apply Z.log2_le_mono; change (2 ^ 8) with 256; lia).
    rewrite Z.log2_mul_pow2 in Hlog by lia. lia. }
  destruct (Qle_bool _ q); lia.
Qed.

(** Up to 256 a double is within [2^-45] of the number it rounds. *)
Lemma round_double_error q :
  (Qabs q <= 256)%Q ->
  (Qabs (round_double q - q) <= 1 # 35184372088832)%Q.
Proof.
  intros Hq. unfold round_double.
  destruct (Qeq_bool q 0) eqn:E0.
  - apply Qeq_bool_iff in E0. apply Qabs_Qle_condition. split; lra.
  - assert (double_exponent q <= -44) as He.
    { unfold double_exponent. pose proof (Qlog2_le_8 (Qabs q) Hq). lia. }
    set (e := double_exponent q) in *.
    pose proof (pow2_pos e) as Hpos. pose proof (pow2_small e He) as Hsmall.
    pose proof (round_half_even_error (q / pow2 e)) as Herr.
    set (r := inject_Z (round_half_even (q / pow2 e))) in *.
    rewrite Qred_correct.
    assert (q / pow2 e * pow2 e == q)%Q as Hy by (field; lra).
    set (y := (q / pow2 e)%Q) in *.
    apply Qabs_Qle_condition in Herr as [H1 H2].
    apply Qabs_Qle_condition.
    set (P := pow2 e) in *.
    assert ((r - y) * P <= (1 # 2) * P)%Q as Hup
        by (apply Qmult_le_compat_r; lra).
    assert (- (1 # 2) * P <= (r - y) * P)%Q as Hlo
        by (apply Qmult_le_compat_r; lra).
    assert ((r - y) * P == r * P - q)%Q as Heq by (rewrite <- Hy; ring).
    rewrite Heq in Hup, Hlo. split; lra.
Qed.

Lemma pow2_1024_large : (512 < pow2 1024)%Q.
Proof. reflexivity. Qed.

(** The double nearest to one tenth is [0x1.999999999999ap-4]. *)
Example double_one_tenth :
  round_double (1 # 10) = 3602879701896397 # 36028797018963968.
Proof. vm_compute. reflexivity. Qed.

(** The double nearest to 0.15 lies below 0.15, so that its tenths
    round down to 1; its product with 10 in doubles is 1.5, which
    [Math.round] takes to 2. *)
Example thin_screw_tenths :
  (diameter thin_screw < 15 # 100)%Q
  /\ Math_round (diameter thin_screw * 10) = 1
  /\ Number_mul (diameter thin_screw) 10 = Some (3 # 2)
  /\ tenths_byte (diameter thin_screw) = 2.
Proof. repeat split; by vm_compute. Qed.

(** ** Screw sizes *)

Lemma tenths_byte_is_byte d : is_byte (tenths_byte d).
Proof.
  unfold tenths_byte, ToUint8, is_byte.
  destruct (Math_round <$> Number_mul d 10) as [n|]; [|lia].
  unfold u8. apply Z.mod_pos_bound. lia.
Qed.

(** In the range of the codec the stored byte is the rounding of the
    tenths, within one half and [2^-45], and it decodes to a double
    within 0.1 of the dimension. *)
Lemma tenths_byte_close (d : Q) :
  (0 <= d <= 255 # 10)%Q ->
  close_to_tenth (Number_div (inject_Z (tenths_byte d)) 10) d.
Proof.
  intros [Hlo Hhi].
  assert (Qabs (d * 10) <= 256)%Q as Hx
      by (apply Qabs_Qle_condition; split; lra).
  pose proof (round_double_error (d * 10) Hx) as Ht.
  apply Qabs_Qle_condition in Ht as [Ht1 Ht2].
  unfold tenths_byte, Number_mul.
  set (t := round_double (d * 10)) in *.
  assert (Qle_bool (pow2 1024) (Qabs t) = false) as ->.
  { destruct (Qle_bool (pow2 1024) (Qabs t)) eqn:E; [|done].
    apply Qle_bool_iff in E. pose proof pow2_1024_large as Hbig.
    assert (Qabs t <= 256)%Q as Habs
        by (apply Qabs_Qle_condition; split; lra).
    exfalso. generalize dependent (pow2 1024). intros. lra. }
  cbn [fmap option_fmap option_map ToUint8]. unfold Math_round.
  pose proof (Qfloor_le (t + (1 # 2))) as Hle.
  pose proof (Qlt_floor (t + (1 # 2))) as Hlt.
  set (n := Qfloor (t + (1 # 2))) in *.
  rewrite inject_Z_plus in Hlt. change (inject_Z 1) with 1%Q in Hlt.
  assert (0 <= n < 256) as Hn.
  { split.
    - assert (inject_Z (-1) < inject_Z n)%Q as H;
        [|rewrite <- Zlt_Qlt in H; lia].
      change (inject_Z (-1)) with (-1 # 1)%Q. lra.
    - assert (inject_Z n < inject_Z 256)%Q as H;
        [|by rewrite <- Zlt_Qlt in H].
      change (inject_Z 256) with (256 # 1)%Q. lra. }
  unfold u8. rewrite Z.mod_small by done.
  assert (Qabs (inject_Z n / 10) <= 256)%Q as Hr.
  { apply Qabs_Qle_condition. unfold Qdiv. change (/ 10)%Q with (1 # 10)%Q.
    split; lra. }
  pose proof (round_double_error (inject_Z n / 10) Hr) as Hd.
  apply Qabs_Qle_condition in Hd as [Hd1 Hd2].
  unfold close_to_tenth, Number_div.
  set (r := round_double (inject_Z n / 10)) in *.
  unfold Qdiv in Hd1, Hd2. change (/ 10)%Q with (1 # 10)%Q in Hd1, Hd2.
  apply Qabs_Qle_condition. split; lra.
Qed.

Lemma byte_decodes_in_range_check :
  forallb (fun b => Qle_bool 0 (Number_div (inject_Z b) 10)
                    && Qle_bool (Number_div (inject_Z b) 10) (255 # 10))
          (range 256) = true.
Proof. vm_compute. reflexivity. Qed.

Lemma byte_decodes_in_range b :
  is_byte b -> (0 <= Number_div (inject_Z b) 10 <= 255 # 10)%Q.
Proof.
  intros Hb.
  pose proof (forall_range _ 256 byte_decodes_in_range_check b Hb) as H.
  apply andb_true_iff in H as [H1 H2].
  by rewrite !Qle_bool_iff in *.
Qed.

Lemma byte_reencodes_check :
  forallb (fun b => tenths_byte (Number_div (inject_Z b) 10) =? b)
          (range 256) = true.
Proof. vm_compute. reflexivity. Qed.

(** The double [b / 10] of a byte is stored as that byte again. *)
Lemma byte_reencodes b :
  is_byte b -> tenths_byte (Number_div (inject_Z b) 10) = b.
Proof.
  intros Hb. apply Z.eqb_eq.
  apply (forall_range _ 256 byte_reencodes_check b Hb).
Qed.

(** ** The round trip *)

Lemma decode_joined v t r c s ti f :
  no_dot v = true -> no_dot t = true -> no_dot r = true ->
  no_dot c = true -> no_dot s = true -> no_dot ti = true ->
  no_dot f = true ->
  decode (v +:+ "." +:+ t +:+ "." +:+ r +:+ "." +:+ c +:+ "." +:+ s
          +:+ "." +:+ ti +:+ "." +:+ f)
  = decode_fields v t r c s ti f.
Proof.
  intros Hv Ht Hr Hc Hs Hti Hf. unfold decode.
  assert (forall x, "." +:+ x = String "." x) as Hdot by done.
  rewrite !Hdot, !split_dot_field by done. by rewrite split_dot_no_dot.
Qed.

Lemma encode_well_shaped (p : GridPlan) :
  well_shaped p ->
  encode p
  = Some ("0" +:+ "." +:+ typeChar_of p +:+ "."
          +:+ Number_toString (rows_of (tiles p)) +:+ "."
          +:+ Number_toString (cols_of (tiles p)) +:+ "."
          +:+ b64urlEncode (screwBytes_of p) +:+ "."
          +:+ b64urlEncode (bitsToBytes (tileBits_of p)) +:+ "."
          +:+ b64urlEncode (bitsToBytes (featureBits_of p))).
Proof.
  intros (Hr & Hc & Hrect & Hshape). unfold encode.
  rewrite (mapM_range _
    (fun i => (fun j => summit_active
                          (default emptySummit (at2 (summits p) i j)))
                <$> range (cols_of (tiles p) + 1))).
  - reflexivity.
  - intros i Hi. apply mapM_range. intros j Hj.
    destruct (shape_at2 _ _ _ i j Hshape Hi Hj) as [s ->]. done.
Qed.

(** A summit that obeys eligibility is determined by its activity
    bit. *)
Lemma decode_summit_consistent (t : Tiles) i j s :
  feature_allowed (computeAllEligibility t) i j s ->
  (forall a, connector_angle s = Some a -> a = computeConnectorDirection t i j) ->
  decode_summit t (computeEligibleConnectorPositions t)
    (computeEligibleChamferPositions t) (computeEligibleScrewPositions t)
    (summit_active s) i j
  = s.
Proof.
  intros (Hconn & Hcham & Hscr) Hangle. simpl in Hconn, Hcham, Hscr.
  destruct (predicates_exclusive t i j) as (X1 & X2 & X3).
  unfold decode_summit, summit_active.
  destruct s as [[a|] ch sc]; simpl in *.
  - specialize (Hconn ltac:(done)). rewrite Hconn.
    rewrite (Hangle a eq_refl).
    apply eligible_at_grid in Hconn. rewrite Hconn in X1, X2.
    destruct ch; [specialize (Hcham eq_refl); apply chamfer_at_grid in Hcham;
                  by rewrite Hcham in X1|].
    destruct sc; [specialize (Hscr eq_refl); apply screw_at_grid in Hscr;
                  by rewrite Hscr in X2|].
    done.
  - destruct ch; simpl.
    + specialize (Hcham eq_refl). rewrite Hcham.
      apply chamfer_at_grid in Hcham. rewrite Hcham in X1, X3.
      destruct (truthy (at2 (computeEligibleConnectorPositions t) i j)) eqn:E.
      { apply eligible_at_grid in E. by rewrite E in X1. }
      destruct sc; [specialize (Hscr eq_refl); apply screw_at_grid in Hscr;
                    by rewrite Hscr in X3|].
      done.
    + destruct sc; [|done].
      specialize (Hscr eq_refl). rewrite Hscr.
      apply screw_at_grid in Hscr. rewrite Hscr in X2, X3.
      destruct (truthy (at2 (computeEligibleConnectorPositions t) i j)) eqn:E.
      { apply eligible_at_grid in E. by rewrite E, andb_true_r in X2. }
      destruct (truthy (at2 (computeEligibleChamferPositions t) i j)) eqn:E'.
      { apply chamfer_at_grid in E'. by rewrite E', andb_true_r in X3. }
      done.
Qed.

Lemma len_tileBits (p : GridPlan) :
  len (tileBits_of p) = rows_of (tiles p) * cols_of (tiles p).
Proof.
  unfold tileBits_of.
  rewrite <- (Z2Nat.id (rows_of (tiles p))) at 1 by apply rows_of_nonneg.
  rewrite len_join_table by apply cols_of_nonneg.
  by rewrite Z2Nat.id by apply rows_of_nonneg.
Qed.

Lemma len_featureBits (p : GridPlan) :
  len (featureBits_of p)
  = (rows_of (tiles p) + 1) * (cols_of (tiles p) + 1).
Proof.
  pose proof (rows_of_nonneg (tiles p)). pose proof (cols_of_nonneg (tiles p)).
  unfold featureBits_of.
  rewrite <- (Z2Nat.id (rows_of (tiles p) + 1)) at 1 by lia.
  rewrite len_join_table by lia. by rewrite Z2Nat.id by lia.
Qed.

Lemma screwBytes_bytes (p : GridPlan) : Forall is_byte (screwBytes_of p).
Proof. unfold screwBytes_of. repeat constructor; apply tenths_byte_is_byte. Qed.

(** Decoding the packed and encoded bits of a list gives the list. *)
Lemma packed_bits_roundtrip (bits : list bool) n :
  len bits = n ->
  (len (b64urlDecode (b64urlEncode (bitsToBytes bits)))
     <? Math_ceil_div n 8) = false
  /\ bytesToBits (b64urlDecode (b64urlEncode (bitsToBytes bits))) n = bits.
Proof.
  intros <-. destruct (bitsToBytes_spec bits) as (Hlen & Hbytes & _).
  rewrite b64url_roundtrip by done. split.
  - rewrite Hlen. apply Z.ltb_irrefl.
  - apply bits_roundtrip.
Qed.

Lemma typeChar_no_dot p : no_dot (typeChar_of p) = true.
Proof. unfold typeChar_of. by case_bool_decide. Qed.

Lemma decoded_tiles (p : GridPlan) :
  rectangular (tiles p) ->
  (fun r => (fun c => truthy (at_ (tileBits_of p) (r * cols_of (tiles p) + c)))
              <$> range (cols_of (tiles p)))
    <$> range (rows_of (tiles p))
  = tiles p.
Proof.
  intros Hrect.
  rewrite (table_ext _ (fun r c => truthy (at2 (tiles p) r c))).
  - apply table_eq_grid; [by apply rectangular_shape|].
    by intros i j x ->.
  - intros i j Hi Hj. unfold tileBits_of. by rewrite at_join_table.
Qed.

Lemma decoded_summits (p : GridPlan) :
  well_shaped p -> plan_consistent p ->
  (fun i =>
     (fun j =>
        decode_summit (tiles p) (computeEligibleConnectorPositions (tiles p))
          (computeEligibleChamferPositions (tiles p))
          (computeEligibleScrewPositions (tiles p))
          (truthy (at_ (featureBits_of p) (i * (cols_of (tiles p) + 1) + j)))
          i j)
       <$> range (cols_of (tiles p) + 1))
    <$> range (rows_of (tiles p) + 1)
  = summits p.
Proof.
  intros (Hr & Hc & Hrect & Hshape) Hcons.
  rewrite (table_ext _ (fun i j =>
    decode_summit (tiles p) (computeEligibleConnectorPositions (tiles p))
      (computeEligibleChamferPositions (tiles p))
      (computeEligibleScrewPositions (tiles p))
      (summit_active (default emptySummit (at2 (summits p) i j))) i j)).
  - apply table_eq_grid; [done|].
    intros i j s Hs. rewrite Hs. simpl.
    destruct (Hcons i j s Hs) as [Hallowed Hangle].
    by apply decode_summit_consistent.
  - intros i j Hi Hj. unfold featureBits_of. by rewrite at_join_table.
Qed.

Lemma decode_fields_encoded (p : GridPlan) :
  well_shaped p -> plan_consistent p ->
  opengrid_type p = "full" \/ opengrid_type p = "lite" ->
  decode_fields "0" (typeChar_of p)
    (Number_toString (rows_of (tiles p)))
    (Number_toString (cols_of (tiles p)))
    (b64urlEncode (screwBytes_of p))
    (b64urlEncode (bitsToBytes (tileBits_of p)))
    (b64urlEncode (bitsToBytes (featureBits_of p)))
  = Ok {| tiles := tiles p; summits := summits p;
          opengrid_type := opengrid_type p;
          screw_size := stored_screw (screw_size p) |}.
Proof.
  intros Hws Hcons Htag.
  pose proof Hws as (Hr & Hc & Hrect & Hshape).
  unfold decode_fields.
  rewrite (bool_decide_eq_true_2 ("0" = "0")) by done.
  assert ((negb (bool_decide (typeChar_of p = "f"))
           && negb (bool_decide (typeChar_of p = "l")) = false)
          /\ (if bool_decide (typeChar_of p = "f") then "full" else "lite")
             = opengrid_type p) as [Ht1 Ht2].
  { unfold typeChar_of. destruct Htag as [-> | ->]; by vm_compute. }
  cbn [negb]. rewrite Ht1, Ht2.
  rewrite !parseInt_toString by lia.
  replace ((rows_of (tiles p) <? 1) || (cols_of (tiles p) <? 1)) with false
    by (symmetry; rewrite orb_false_iff, !Z.ltb_ge; lia).
  rewrite (b64url_roundtrip (screwBytes_of p)) by apply screwBytes_bytes.
  destruct (packed_bits_roundtrip (tileBits_of p) _ (len_tileBits p))
    as [-> ->].
  destruct (packed_bits_roundtrip (featureBits_of p) _ (len_featureBits p))
    as [-> ->].
  cbv zeta. rewrite decoded_tiles by done.
  rewrite decoded_summits by done.
  unfold screwBytes_of, stored_screw.
  generalize (tenths_byte (diameter (screw_size p)))
    (tenths_byte (head_diameter (screw_size p)))
    (tenths_byte (head_inset (screw_size p))).
  reflexivity.
Qed.

Lemma consistent_plan_roundtrip (p : GridPlan) :
  well_shaped p -> plan_consistent p ->
  screw_in_range (screw_size p) ->
  opengrid_type p = "full" \/ opengrid_type p = "lite" ->
  roundtrip_law p.
Proof.
  intros Hws Hcons Hscrew Htag. unfold roundtrip_law.
  eexists _, _. split; [by apply encode_well_shaped|].
  rewrite decode_joined
    by first [ done | apply typeChar_no_dot | apply toString_no_dot
             | apply b64urlEncode_no_dot ].
  split; [by apply decode_fields_encoded|].
  cbn [tiles summits opengrid_type screw_size].
  destruct Hscrew as (Hd & Hh & Hi).
  repeat split; by apply tenths_byte_close.
Qed.

(** C1 (as amended): a plan with a rectangular tile grid of at least
    1x1 slots and a complete summit grid, whose active features are
    all eligible and whose connectors carry the direction of their
    tiles, whose screw dimensions lie between 0 and 25.5 mm and whose
    type tag is "full" or "lite", is encoded to a code that decodes to
    the same tiles, the same summits, the same tag, and a screw size
    that agrees with the original to 0.1 mm.  The stored byte is the
    one the doubles of the encoder give, and the decoded dimension the
    double that the division of the byte by 10 gives. *)
Theorem roundtrip_consistent_plan (p : GridPlan) :
  well_shaped p -> plan_consistent p ->
  screw_in_range (screw_size p) ->
  opengrid_type p = "full" \/ opengrid_type p = "lite" ->
  roundtrip_law p.
Proof. apply consistent_plan_roundtrip. Qed.

Lemma full_2x2_consistent : plan_consistent full_2x2.
Proof.
  intros i j s Hs.
  assert (0 <= i < 3 /\ 0 <= j < 3) as [Hi Hj].
  { apply (at2_rectangular_bounds (summits full_2x2) i j s); [|done].
    by repeat constructor. }
  assert (i = 0 \/ i = 1 \/ i = 2) as [->|[->| ->]] by lia;
    (assert (j = 0 \/ j = 1 \/ j = 2) as [->|[->| ->]] by lia);
    vm_compute in Hs; injection Hs as <-;
    (split; [repeat split; intros; by vm_compute|]);
    intros a [= <-]; by vm_compute.
Qed.

Lemma full_2x2_well_shaped : well_shaped full_2x2.
Proof.
  split; [by vm_compute|]. split; [by vm_compute|].
  split; [by repeat constructor|]. split; [done|by repeat constructor].
Qed.

Lemma roundtrip_consistent_plan_witness : roundtrip_law full_2x2.
Proof.
  apply (roundtrip_consistent_plan full_2x2).
  - apply full_2x2_well_shaped.
  - apply full_2x2_consistent.
  - vm_compute. intuition congruence.
  - left. reflexivity.
Defined.

(** C1 (as stated) fails: the editor reaches a plan, here by setting a
    30 mm screw diameter on the 2x2 grid, whose decoded screw diameter
    is 4.4 mm. *)
Lemma roundtrip_fails_for_wide_screw :
  ~ (forall st, reachable (initialState 2 2) st ->
                roundtrip_law (toGridPlan st)).
Proof.
  intros H.
  destruct (H wide_screw_state) as (code & q & He & Hd & _ & Hclose & _).
  { eapply (reach_step _ _ _ (SetScrewSize _)); [apply reach_init|].
    reflexivity. }
  vm_compute in He. injection He as <-.
  vm_compute in Hd. injection Hd as <-.
  destruct Hclose as [Hc _]. vm_compute in Hc. by apply Hc.
Qed.

(** The stale connector left by [addRow] does not survive the codec
    either: its activity bit is decoded as the screw the new layout
    allows at that summit. *)
Lemma stale_connector_decodes_as_screw :
  exists code q,
    encode (toGridPlan stale_state) = Some code /\ decode code = Ok q
    /\ at2 (summits (toGridPlan stale_state)) 2 1
       = Some {| connector_angle := Some 90;
                 tile_chamfer := false; screw := false |}
    /\ at2 (summits q) 2 1
       = Some {| connector_angle := None;
                 tile_chamfer := false; screw := true |}.
Proof. eexists _, _. split; [by vm_compute|]. split; by vm_compute. Qed.

(** The tag is kept only when it is one of the two the decoder
    produces: a plan tagged "light" comes back tagged "lite". *)
Example light_tag_decodes_as_lite :
  exists code q,
    encode {| tiles := [[true]];
              summits := [[emptySummit; emptySummit];
                          [emptySummit; emptySummit]];
              opengrid_type := "light";
              screw_size := DEFAULT_SCREW_SIZE |} = Some code
    /\ decode code = Ok q /\ opengrid_type q = "lite".
Proof. eexists _, _. split; [by vm_compute|]. split; by vm_compute. Qed.

(** ** Pruning operations restore consistency *)

Lemma toggleTile_consistent r c st st' :
  toggleTile r c st = Some st' -> eligibility_consistent st'.
Proof.
  unfold toggleTile. destruct (at2 _ _ _); [|done]. intros [= <-].
  apply pruneSummits_allowed.
Qed.

Lemma removeRow_consistent st :
  1 < rows_of (st_tiles st) -> eligibility_consistent (removeRow st).
Proof.
  intros H. unfold removeRow.
  replace (rows_of (st_tiles st) <=? 1) with false
    by (symmetry; apply Z.leb_gt; lia).
  apply pruneSummits_allowed.
Qed.

Lemma removeColumn_consistent st :
  1 < cols_of (st_tiles st) -> eligibility_consistent (removeColumn st).
Proof.
  intros H. unfold removeColumn.
  replace (cols_of (st_tiles st) <=? 1) with false
    by (symmetry; apply Z.leb_gt; lia).
  apply pruneSummits_allowed.
Qed.

(** ** Decode validation *)

(** What [decode_fields] returns: an error together with the condition
    it reports, or a plan built from fields that pass every check. *)
Lemma decode_fields_spec v t r c s ti f :
  match decode_fields v t r c s ti f with
  | Throw (ExpectedSevenParts _) => False
  | Throw (UnsupportedVersion v') => v' = v /\ v <> "0"
  | Throw (InvalidType t') => t' = t /\ t <> "f" /\ t <> "l"
  | Throw (InvalidDimensions r' c') =>
      r' = r /\ c' = c /\ (parseInt r = None \/ parseInt c = None)
  | Throw (DimensionsBelowOne rows cols) =>
      parseInt r = Some rows /\ parseInt c = Some cols
      /\ (rows < 1 \/ cols < 1)
  | Throw (ScrewDataLength got) => got = len (b64urlDecode s) /\ got <> 3
  | Throw InsufficientTileData =>
      exists rows cols,
        parseInt r = Some rows /\ parseInt c = Some cols
        /\ len (b64urlDecode ti) < Math_ceil_div (rows * cols) 8
  | Throw InsufficientFeatureData =>
      exists rows cols,
        parseInt r = Some rows /\ parseInt c = Some cols
        /\ len (b64urlDecode f) < Math_ceil_div ((rows + 1) * (cols + 1)) 8
  | Ok p =>
      v = "0" /\ (t = "f" \/ t = "l")
      /\ exists rows cols,
           parseInt r = Some rows /\ parseInt c = Some cols
           /\ 1 <= rows /\ 1 <= cols
           /\ len (b64urlDecode s) = 3
           /\ Math_ceil_div (rows * cols) 8 <= len (b64urlDecode ti)
           /\ Math_ceil_div ((rows + 1) * (cols + 1)) 8
              <= len (b64urlDecode f)
           /\ tiles p
              = (fun r' =>
                   (fun c' =>
                      truthy (at_ (bytesToBits (b64urlDecode ti) (rows * cols))
                                  (r' * cols + c')))
                     <$> range cols)
                  <$> range rows
           /\ summits p
              = (fun i =>
                   (fun j =>
                      decode_summit (tiles p)
                        (computeEligibleConnectorPositions (tiles p))
                        (computeEligibleChamferPositions (tiles p))
                        (computeEligibleScrewPositions (tiles p))
                        (truthy
                           (at_ (bytesToBits (b64urlDecode f)
                                             ((rows + 1) * (cols + 1)))
                                (i * (cols + 1) + j)))
                        i j)
                     <$> range (cols + 1))
                  <$> range (rows + 1)
  end.
Proof.
  unfold decode_fields.
  case_bool_decide as Hv; cbn [negb]; [|done].
  destruct (negb (bool_decide (t = "f")) && negb (bool_decide (t = "l")))
    eqn:Ht.
  { apply andb_true_iff in Ht as [Hf Hl].
    apply negb_true_iff, bool_decide_eq_false in Hf, Hl. done. }
  assert (t = "f" \/ t = "l") as Ht'.
  { apply andb_false_iff in Ht as [Ht|Ht];
      apply negb_false_iff, bool_decide_eq_true in Ht; auto. }
  destruct (parseInt r) as [rows|] eqn:Er; [|split; [done|split; auto]].
  destruct (parseInt c) as [cols|] eqn:Ec; [|split; [done|split; auto]].
  destruct ((rows <? 1) || (cols <? 1)) eqn:Edim.
  { apply orb_true_iff in Edim. rewrite !Z.ltb_lt in Edim. done. }
  apply orb_false_iff in Edim as [Hr%Z.ltb_ge Hc%Z.ltb_ge].
  destruct (len (b64urlDecode s) =? 3) eqn:Es; cbn [negb];
    [apply Z.eqb_eq in Es|apply Z.eqb_neq in Es; done].
  destruct (len (b64urlDecode ti) <? Math_ceil_div (rows * cols) 8) eqn:Eti.
  { apply Z.ltb_lt in Eti. eauto. }
  apply Z.ltb_ge in Eti.
  destruct (len (b64urlDecode f) <? Math_ceil_div ((rows + 1) * (cols + 1)) 8)
    eqn:Ef.
  { apply Z.ltb_lt in Ef. eauto. }
  apply Z.ltb_ge in Ef.
  split; [done|]. split; [done|].
  exists rows, cols. simpl. repeat (split; [done|]). done.
Qed.

Lemma field_of_parts code parts k :
  split_dot code = parts -> field code k = default EmptyString (parts !! k).
Proof. intros <-. done. Qed.

(** Every error [decode] raises reports its own condition. *)
Lemma decode_error_condition code e :
  decode code = Throw e -> error_condition code e.
Proof.
  unfold decode.
  destruct (split_dot code)
    as [|v [|t [|r [|c [|s [|ti [|f [|x rest]]]]]]]] eqn:E;
    try (intros [= <-]; simpl; rewrite E; split; [done|];
         unfold len; simpl; lia).
  pose proof (decode_fields_spec v t r c s ti f) as H.
  intros He. rewrite He in H.
  unfold error_condition.
  rewrite !(field_of_parts code _ _ E). simpl.
  destruct e; try done.
  - by destruct H as [-> H].
  - by destruct H as [-> H].
  - by destruct H as (-> & -> & H).
Qed.

Lemma error_condition_fails code e :
  error_condition code e -> validation_fails code.
Proof.
  unfold validation_fails.
  destruct e; simpl.
  - intros [-> H]. auto.
  - intros [-> H]. auto.
  - intros [-> H]. auto.
  - intros (-> & -> & H). right. right. right. left. tauto.
  - intros (Hr & Hc & H). right. right. right. left.
    destruct H; [right; right; left|right; right; right]; eauto.
  - intros [-> H]. auto 7.
  - intros H. auto 8.
  - intros H. auto 9.
Qed.

(** A plan [decode] returns comes from a code that passes every check. *)
Lemma decode_Ok_valid code p : decode code = Ok p -> ~ validation_fails code.
Proof.
  unfold decode.
  destruct (split_dot code)
    as [|v [|t [|r [|c [|s [|ti [|f [|x rest]]]]]]]] eqn:E; try done.
  pose proof (decode_fields_spec v t r c s ti f) as H.
  intros He. rewrite He in H.
  destruct H as (-> & Ht & rows & cols & Hr & Hc & Hr1 & Hc1 & Hs & Hti & Hf & _).
  unfold validation_fails.
  rewrite !(field_of_parts code _ _ E), E. simpl.
  rewrite Hr, Hc.
  intros [H|[H|[H|[H|[H|[H|H]]]]]]; try done.
  - destruct H as [H1 H2]. by destruct Ht.
  - destruct H as [H|[H|[H|H]]]; try done;
      destruct H as (n & [= <-] & Hn); lia.
  - destruct H as (rows' & cols' & [= <-] & [= <-] & H). lia.
  - destruct H as (rows' & cols' & [= <-] & [= <-] & H). lia.
Qed.

Lemma validation_fails_iff_throws code :
  validation_fails code <-> exists e, decode code = Throw e.
Proof.
  split.
  - intros Hv. destruct (decode code) as [p|e] eqn:E; [|eauto].
    by apply decode_Ok_valid in E.
  - intros [e He]. by eapply error_condition_fails, decode_error_condition.
Qed.

Lemma parseInt_signed c rest :
  is_Some (digit_of c) ->
  is_Some (parseInt (String "+" (String c rest)))
  /\ is_Some (parseInt (String "-" (String c rest))).
Proof.
  intros [d Hd]. unfold parseInt. cbn [trim_start].
  change (is_white_space "+") with false.
  change (is_white_space "-") with false.
  cbv iota beta. rewrite Hd. by split.
Qed.

(** A numeral is read by [parseInt]. *)
Lemma numeric_parseInt s : numeric s = true -> is_Some (parseInt s).
Proof.
  intros H. destruct s as [|c rest]; [done|].
  destruct c as [[] [] [] [] [] [] [] []];
    try (cbn in H; discriminate H); try (by eexists);
    (destruct rest as [|c' rest']; [done|]);
    unfold numeric in H; cbn [negb andb all_digits] in H;
    rewrite bool_decide_eq_false_2 in H by done; cbn [negb andb] in H;
    apply andb_true_iff in H as [H _]; apply bool_decide_eq_true in H;
    by apply parseInt_signed.
Qed.

Lemma not_numeric_of_NaN s : parseInt s = None -> numeric s = false.
Proof.
  intros H. destruct (numeric s) eqn:E; [|done].
  apply numeric_parseInt in E. rewrite H in E. by destruct E.
Qed.

(** Whatever the decoder rejects, the specification's list rejects. *)
Lemma validation_fails_listed code :
  validation_fails code -> spec_validation_fails code.
Proof.
  unfold validation_fails, spec_validation_fails.
  intros [H|[H|[H|[H|H]]]]; [tauto|tauto|tauto| |tauto].
  right. right. right. left.
  destruct H as [H|[H|H]]; [| |tauto];
    apply not_numeric_of_NaN in H; tauto.
Qed.

(** On codes whose two dimension fields are numerals the two lists of
    conditions agree. *)
Lemma spec_validation_numeric code :
  numeric (field code 2) = true -> numeric (field code 3) = true ->
  spec_validation_fails code -> validation_fails code.
Proof.
  unfold validation_fails, spec_validation_fails. intros Hr Hc.
  rewrite Hr, Hc.
  intros [H|[H|[H|[H|H]]]]; [tauto|tauto|tauto| |tauto].
  right. right. right. left.
  destruct H as [H|[H|H]]; [done|done|tauto].
Qed.

(** C4 (as amended): [decode] fails exactly when one of the validation
    conditions holds as the decoder tests it, where a dimension field
    counts as not a number only if [parseInt] finds no integer at its
    start; each error it raises reports the condition it stands for,
    and on every other code it returns a plan.  Every failure falls
    under the conditions as the specification lists them, and the two
    lists agree on the codes whose dimension fields are numerals. *)
Theorem decode_validation (code : string) :
  ((exists e, decode code = Throw e) <-> validation_fails code)
  /\ (forall e, decode code = Throw e -> error_condition code e)
  /\ (~ validation_fails code -> exists p, decode code = Ok p)
  /\ (validation_fails code -> spec_validation_fails code)
  /\ (numeric (field code 2) = true -> numeric (field code 3) = true ->
      (spec_validation_fails code <-> validation_fails code)).
Proof.
  split; [|split; [|split; [|split]]].
  - symmetry. apply validation_fails_iff_throws.
  - intros e. apply decode_error_condition.
  - intros Hv. destruct (decode code) as [p|e] eqn:E; [eauto|].
    exfalso. apply Hv, validation_fails_iff_throws. eauto.
  - apply validation_fails_listed.
  - intros Hr Hc. split.
    + by apply spec_validation_numeric.
    + apply validation_fails_listed.
Qed.

Lemma decode_validation_witness :
  exists p, decode "0.f.2.2.KlAK.8A._4A" = Ok p.
Proof.
  apply (decode_validation "0.f.2.2.KlAK.8A._4A").
  intros Hv. apply validation_fails_iff_throws in Hv as [e He].
  vm_compute in He. discriminate He.
Defined.

(** C4 (as stated) fails: the rows field "2abc" is not numeric, yet the
    code decodes, to a grid of 2 rows. *)
Lemma decode_accepts_non_numeric_rows :
  ~ (forall code,
       (exists e, decode code = Throw e) <-> spec_validation_fails code).
Proof.
  intros H. destruct (H "0.f.2abc.2.KlAK.8A.AAA") as [_ [e He]].
  - right. right. right. left. left. reflexivity.
  - vm_compute in He. discriminate He.
Qed.

(** [parseInt] reads the leading digits of a field: a dimension such as
    "2abc" is the number 2, not an error; so is " 2", with white space
    before the digits. *)
Example decode_reads_leading_digits :
  exists p, decode "0.f.2abc.2.KlAK.8A.AAA" = Ok p
            /\ rows_of (tiles p) = 2 /\ cols_of (tiles p) = 2.
Proof. eexists. split; [by vm_compute|]. by vm_compute. Qed.

Example decode_skips_white_space :
  numeric " 2" = false
  /\ exists p, decode "0.f. 2.2.KlAK.8A.AAA" = Ok p
               /\ rows_of (tiles p) = 2 /\ cols_of (tiles p) = 2.
Proof.
  split; [done|]. eexists. split; [by vm_compute|]. by vm_compute.
Qed.

(** ** Inconsistent codes *)

Lemma rows_of_table {B} (f : Z -> Z -> B) n m :
  0 <= n ->
  rows_of ((fun i => (fun j => f i j) <$> range m) <$> range n) = n.
Proof. intros Hn. unfold rows_of. by rewrite len_fmap, len_range. Qed.

Lemma cols_of_table {B} (f : Z -> Z -> B) n m :
  1 <= n -> 0 <= m ->
  cols_of ((fun i => (fun j => f i j) <$> range m) <$> range n) = m.
Proof.
  intros Hn Hm. unfold cols_of. rewrite list_lookup_fmap.
  unfold range at 2. rewrite lookup_seqZ_lt by lia. simpl.
  by rewrite len_fmap, len_range.
Qed.

(** C10: a code that passes validation decodes to a plan, and a summit
    whose activity bit is set while none of the three eligibility grids
    of the decoded tiles holds there comes out with no active feature:
    the bit is dropped, not reported. *)
Theorem decode_clears_ineligible_bit (code : string) :
  ~ validation_fails code ->
  exists p,
    decode code = Ok p
    /\ forall i j,
         0 <= i <= rows_of (tiles p) -> 0 <= j <= cols_of (tiles p) ->
         feature_bit code i j = true ->
         truthy (at2 (computeEligibleConnectorPositions (tiles p)) i j) = false ->
         truthy (at2 (computeEligibleChamferPositions (tiles p)) i j) = false ->
         truthy (at2 (computeEligibleScrewPositions (tiles p)) i j) = false ->
         at2 (summits p) i j = Some emptySummit.
Proof.
  intros Hv. destruct (decode code) as [p|e] eqn:E;
    [|exfalso; apply Hv, validation_fails_iff_throws; eauto].
  exists p. split; [done|]. intros i j Hi Hj Hbit Hconn Hcham Hscr.
  revert E. unfold decode.
  destruct (split_dot code)
    as [|v [|t [|r [|c [|s [|ti [|f [|x rest]]]]]]]] eqn:Es; try done.
  pose proof (decode_fields_spec v t r c s ti f) as H.
  intros He. rewrite He in H.
  destruct H as (_ & _ & rows & cols & Hr & Hc & Hr1 & Hc1 & _ & _ & _ & Ht & Hs).
  rewrite Ht in Hi, Hj.
  rewrite rows_of_table in Hi by lia. rewrite cols_of_table in Hj by lia.
  rewrite Hs, at2_table by lia. f_equal.
  unfold decode_summit. rewrite Hconn, Hcham, Hscr.
  destruct (truthy (at_ _ _)); reflexivity.
Qed.

Lemma decode_clears_ineligible_bit_witness :
  exists p,
    decode "0.f.2.2.KlAK.4A.CAA" = Ok p
    /\ tiles p = [[true; true]; [true; false]]
    /\ feature_bit "0.f.2.2.KlAK.4A.CAA" 1 1 = true
    /\ at2 (summits p) 1 1 = Some emptySummit.
Proof.
  destruct (decode_clears_ineligible_bit "0.f.2.2.KlAK.4A.CAA")
    as (p & Hp & Hall).
  { intros Hv. apply validation_fails_iff_throws in Hv as [e He].
    vm_compute in He. discriminate He. }
  exists p. split; [done|].
  vm_compute in Hp. injection Hp as <-.
  split; [done|]. split; [by vm_compute|].
  apply Hall; by vm_compute.
Defined.

(** ** The editor without growth keeps eligibility-consistency *)

Lemma at2_set2 {A} (g : list (list A)) i j v i' j' :
  is_Some (at2 g i j) ->
  at2 (set2 g i j v) i' j'
  = if decide (i' = i /\ j' = j) then Some v else at2 g i' j'.
Proof.
  intros [x Hx]. apply at2_Some in Hx as (row & Hrow & Hcell).
  pose proof (at_Some _ _ _ Hrow) as Hi. pose proof (at_Some _ _ _ Hcell) as Hj.
  unfold at2, at_, set2 in *.
  rewrite bool_decide_eq_true_2 in Hrow, Hcell by lia.
  case_bool_decide as Hi'; [|by rewrite decide_False by lia].
  rewrite list_lookup_alter. case_decide as Hii.
  - apply Z2Nat.inj in Hii; [|lia..]. subst i'. rewrite Hrow. simpl.
    case_bool_decide as Hj'; [|by rewrite decide_False by lia].
    destruct (decide (j' = j)) as [->|Hne].
    + rewrite decide_True by done.
      apply list_lookup_insert_eq. unfold len in Hj. lia.
    + rewrite decide_False by tauto.
      apply list_lookup_insert_ne. intros Heq. apply Z2Nat.inj in Heq; lia.
  - rewrite decide_False; [done|]. intros [-> _]. done.
Qed.

Lemma foldl_option_invariant {A B} (P : A -> Prop) (g : B -> A -> option A)
    (l : list B) (acc : option A) :
  (forall x a a', P a -> g x a = Some a' -> P a') ->
  (forall a, acc = Some a -> P a) ->
  forall r, foldl (fun acc x => acc ≫= g x) acc l = Some r -> P r.
Proof.
  intros Hg. revert acc. induction l as [|x l IH]; intros acc Hacc r; simpl.
  - apply Hacc.
  - apply IH. intros a Ha. destruct acc as [a0|]; [|done]. simpl in Ha.
    by apply (Hg x a0 a); [apply Hacc|].
Qed.

Lemma for_summits_invariant (P : Summits -> Prop) rows cols body next res :
  (forall i j n n', P n -> body i j n = Some n' -> P n') ->
  P next -> for_summits rows cols body next = Some res -> P res.
Proof.
  intros Hbody Hnext. unfold for_summits.
  assert (forall (l : list Z) (acc : option Summits),
             (forall a, acc = Some a -> P a) ->
             forall r,
               foldl (fun acc i =>
                        foldl (fun acc j => acc ≫= body i j) acc
                              (range (cols + 1))) acc l = Some r -> P r) as H.
  { induction l as [|i l IH]; intros acc Hacc r; simpl; [apply Hacc|].
    apply IH. intros a.
    apply (foldl_option_invariant P (body i)); [|done].
    intros j n n'. apply Hbody. }
  apply H. by intros a [= <-].
Qed.

(** Rewriting one summit keeps a pointwise property of the summits,
    when the rewritten summit has it. *)
Lemma set2_pointwise (G : Z -> Z -> SummitFeatures -> Prop) (ss : Summits)
    i j s s' :
  (forall i j s, at2 ss i j = Some s -> G i j s) ->
  at2 ss i j = Some s -> G i j s' ->
  forall i' j' x, at2 (set2 ss i j s') i' j' = Some x -> G i' j' x.
Proof.
  intros Hall Hs Hs' i' j' x. rewrite at2_set2 by eauto.
  case_decide as Heq.
  - destruct Heq as [-> ->]. by intros [= <-].
  - apply Hall.
Qed.

Lemma shape_set2 {A} (g : list (list A)) n m i j v :
  shape g n m -> shape (set2 g i j v) n m.
Proof.
  intros [Hn Hrows]. unfold shape, set2, len in *.
  rewrite length_alter. split; [done|].
  apply Forall_alter; [done|]. intros row Hrow Hlen.
  by rewrite length_insert.
Qed.

Lemma enable_all_pointwise (G : Z -> Z -> SummitFeatures -> Prop) n m
    elig f st st' :
  (forall i j s, truthy (at2 elig i j) = true -> G i j s -> G i j (f i j s)) ->
  shape (st_summits st) n m ->
  (forall i j s, at2 (st_summits st) i j = Some s -> G i j s) ->
  enable_all elig f st = Some st' ->
  st_tiles st' = st_tiles st /\ st_type st' = st_type st
  /\ st_screw st' = st_screw st
  /\ shape (st_summits st') n m
  /\ (forall i j s, at2 (st_summits st') i j = Some s -> G i j s).
Proof.
  intros Hf Hshape Hst. unfold enable_all.
  destruct (for_summits _ _ _ _) as [res|] eqn:E; [|done].
  intros [= <-]. simpl. repeat (split; [done|]).
  eapply (for_summits_invariant
            (fun ss => shape ss n m
                       /\ forall i j s, at2 ss i j = Some s -> G i j s));
    [|split; [exact Hshape|exact Hst]|exact E].
  intros i j nx nx' [Hsh Hn]. unfold enable_body.
  destruct (truthy (at2 elig i j)) eqn:El; [|by intros [= <-]].
  destruct (at2 nx i j) as [s|] eqn:Es; [|done]. intros [= <-].
  split; [by apply shape_set2|].
  eapply set2_pointwise; [done..|]. apply Hf; [done|]. by apply Hn.
Qed.

Lemma toggle_feature_pointwise (G : Z -> Z -> SummitFeatures -> Prop) n m
    elig f i j st st' :
  (forall s, truthy (at2 elig i j) = true -> G i j s -> G i j (f s)) ->
  shape (st_summits st) n m ->
  (forall i j s, at2 (st_summits st) i j = Some s -> G i j s) ->
  toggle_feature elig f i j st = Some st' ->
  st_tiles st' = st_tiles st /\ st_type st' = st_type st
  /\ st_screw st' = st_screw st
  /\ shape (st_summits st') n m
  /\ (forall i j s, at2 (st_summits st') i j = Some s -> G i j s).
Proof.
  intros Hf Hshape Hst. unfold toggle_feature.
  destruct (truthy (at2 elig i j)) eqn:El; simpl; [|by intros [= <-]].
  destruct (at2 (st_summits st) i j) as [s|] eqn:Es; [|done]. intros [= <-].
  simpl. repeat (split; [done|]). split; [by apply shape_set2|].
  eapply set2_pointwise; [done..|]. apply Hf; [done|]. by apply Hst.
Qed.

Lemma clear_all_pointwise (G : Z -> Z -> SummitFeatures -> Prop) n m f st :
  (forall i j s, G i j s -> G i j (f s)) ->
  shape (st_summits st) n m ->
  (forall i j s, at2 (st_summits st) i j = Some s -> G i j s) ->
  shape (st_summits (clear_all f st)) n m
  /\ (forall i j s, at2 (st_summits (clear_all f st)) i j = Some s -> G i j s).
Proof.
  intros Hf [Hn Hrows] Hst. unfold clear_all. simpl. split.
  - split; [by rewrite len_fmap|].
    apply Forall_fmap. eapply Forall_impl; [exact Hrows|].
    intros row Hrow. simpl. by rewrite len_fmap.
  - intros i j s. unfold at2. rewrite at_fmap.
    destruct (at_ (st_summits st) i) as [row|] eqn:Er; [|done]. simpl.
    rewrite at_fmap. destruct (at_ row j) as [x|] eqn:Ex; [|done].
    intros [= <-]. apply Hf. apply Hst. unfold at2. by rewrite Er.
Qed.

Lemma allowed_set_connector e i j s a :
  truthy (at2 (connectors e) i j) = true -> feature_allowed e i j s ->
  feature_allowed e i j
    {| connector_angle := a; tile_chamfer := tile_chamfer s; screw := screw s |}.
Proof. intros El (H1 & H2 & H3). by repeat split. Qed.

Lemma allowed_clear_connector e i j s :
  feature_allowed e i j s ->
  feature_allowed e i j
    {| connector_angle := None; tile_chamfer := tile_chamfer s;
       screw := screw s |}.
Proof. intros (H1 & H2 & H3). by repeat split. Qed.

Lemma allowed_set_chamfer e i j s b :
  truthy (at2 (chamfers e) i j) = true -> feature_allowed e i j s ->
  feature_allowed e i j
    {| connector_angle := connector_angle s; tile_chamfer := b;
       screw := screw s |}.
Proof. intros El (H1 & H2 & H3). by repeat split. Qed.

Lemma allowed_clear_chamfer e i j s :
  feature_allowed e i j s ->
  feature_allowed e i j
    {| connector_angle := connector_angle s; tile_chamfer := false;
       screw := screw s |}.
Proof. intros (H1 & H2 & H3). by repeat split. Qed.

Lemma allowed_set_screw e i j s b :
  truthy (at2 (screws e) i j) = true -> feature_allowed e i j s ->
  feature_allowed e i j
    {| connector_angle := connector_angle s;
       tile_chamfer := tile_chamfer s; screw := b |}.
Proof. intros El (H1 & H2 & H3). by repeat split. Qed.

Lemma allowed_clear_screw e i j s :
  feature_allowed e i j s ->
  feature_allowed e i j
    {| connector_angle := connector_angle s;
       tile_chamfer := tile_chamfer s; screw := false |}.
Proof. intros (H1 & H2 & H3). by repeat split. Qed.

Create HintDb allowed discriminated.
#[local] Hint Resolve allowed_set_connector allowed_clear_connector
  allowed_set_chamfer allowed_clear_chamfer allowed_set_screw
  allowed_clear_screw : allowed.

(** *** Shapes under the operations *)

Lemma rectangular_set2 {A} (t : list (list A)) r c v :
  rectangular t -> rectangular (set2 t r c v).
Proof.
  intros Hrect. unfold rectangular. rewrite cols_of_set2.
  by apply (shape_set2 t (rows_of t) (cols_of t) r c v).
Qed.

Lemma shape_pruneSummits (ss : Summits) e n m :
  shape ss n m -> shape (pruneSummits ss e) n m.
Proof.
  intros [Hn Hrows]. unfold shape, pruneSummits, len in *.
  rewrite length_imap. split; [done|].
  apply Forall_lookup. intros k row. rewrite list_lookup_imap.
  destruct (ss !! k) as [row0|] eqn:E; [|done]. intros [= <-].
  rewrite length_imap. rewrite Forall_lookup in Hrows. by apply (Hrows k).
Qed.

Lemma shape_slice_rows {A} (g : list (list A)) n m :
  shape g n m -> shape (slice_0_m1 g) (Z.max 0 (n - 1)) m.
Proof.
  intros [Hn Hrows]. split.
  - rewrite <- Hn. apply rows_of_slice.
  - unfold slice_0_m1. by apply Forall_take.
Qed.

Lemma shape_slice_cols {A} (g : list (list A)) n m :
  shape g n m -> shape (slice_0_m1 <$> g) n (Z.max 0 (m - 1)).
Proof.
  intros [Hn Hrows]. split; [by rewrite len_fmap|].
  apply Forall_fmap. eapply Forall_impl; [exact Hrows|].
  intros row Hrow. simpl. rewrite <- Hrow.
  unfold len, slice_0_m1. rewrite length_take. lia.
Qed.

Lemma at2_slice_rows {A} (g : list (list A)) i j x :
  at2 (slice_0_m1 g) i j = Some x -> at2 g i j = Some x.
Proof.
  unfold at2, at_, slice_0_m1. case_bool_decide; [|done].
  destruct (take _ g !! Z.to_nat i) as [row|] eqn:E; [|done].
  apply lookup_take_Some in E as [-> _]. done.
Qed.

Lemma at2_slice_cols {A} (g : list (list A)) i j x :
  at2 (slice_0_m1 <$> g) i j = Some x -> at2 g i j = Some x.
Proof.
  unfold at2. rewrite at_fmap.
  destruct (at_ g i) as [row|]; [|done]. simpl.
  unfold at_, slice_0_m1. case_bool_decide; [|done].
  by intros [? _]%lookup_take_Some.
Qed.

(** *** Tiles and directions under the operations *)

Lemma isTile_true (t : Tiles) r c :
  isTile t r c = true -> at2 t r c = Some true.
Proof.
  unfold isTile. destruct (_ && _); [|done].
  by destruct (at2 t r c) as [[]|].
Qed.

Lemma isTile_set2 (t : Tiles) r c v r' c' :
  rectangular t -> is_Some (at2 t r c) ->
  isTile (set2 t r c v) r' c'
  = if decide (r' = r /\ c' = c) then v else isTile t r' c'.
Proof.
  intros Hrect Hcell.
  rewrite isTile_rectangular by by apply rectangular_set2.
  rewrite at2_set2 by done. case_decide; [done|].
  by rewrite isTile_rectangular.
Qed.

Lemma isTile_slice_rows (t : Tiles) r c :
  rectangular t -> isTile (slice_0_m1 t) r c = true -> isTile t r c = true.
Proof.
  intros Hrect H%isTile_true%at2_slice_rows.
  rewrite isTile_rectangular by done. by rewrite H.
Qed.

Lemma isTile_slice_cols (t : Tiles) r c :
  rectangular t ->
  isTile (slice_0_m1 <$> t) r c = true -> isTile t r c = true.
Proof.
  intros Hrect H%isTile_true%at2_slice_cols.
  rewrite isTile_rectangular by done. by rewrite H.
Qed.

(** A summit that is connector-eligible before and after one slot
    changes has kept its four neighbours, hence its direction. *)
Lemma direction_one_flip (t t' : Tiles) r c i j :
  (forall r' c', ~ (r' = r /\ c' = c) -> isTile t' r' c' = isTile t r' c') ->
  connector_at t i j = true -> connector_at t' i j = true ->
  computeConnectorDirection t' i j = computeConnectorDirection t i j.
Proof.
  intros Hsame. unfold connector_at, computeConnectorDirection.
  destruct (decide (i - 1 = r /\ j - 1 = c)) as [[? ?]|N1];
    [|destruct (decide (i - 1 = r /\ j = c)) as [[? ?]|N2];
      [|destruct (decide (i = r /\ j - 1 = c)) as [[? ?]|N3];
        [|destruct (decide (i = r /\ j = c)) as [[? ?]|N4]]]].
  - rewrite (Hsame (i - 1) j), (Hsame i (j - 1)), (Hsame i j) by lia.
    destruct (isTile t (i - 1) (j - 1)), (isTile t' (i - 1) (j - 1)),
      (isTile t (i - 1) j), (isTile t i (j - 1)), (isTile t i j); done.
  - rewrite (Hsame (i - 1) (j - 1)), (Hsame i (j - 1)), (Hsame i j) by lia.
    destruct (isTile t (i - 1) (j - 1)), (isTile t' (i - 1) j),
      (isTile t (i - 1) j), (isTile t i (j - 1)), (isTile t i j); done.
  - rewrite (Hsame (i - 1) (j - 1)), (Hsame (i - 1) j), (Hsame i j) by lia.
    destruct (isTile t (i - 1) (j - 1)), (isTile t' i (j - 1)),
      (isTile t (i - 1) j), (isTile t i (j - 1)), (isTile t i j); done.
  - rewrite (Hsame (i - 1) (j - 1)), (Hsame (i - 1) j), (Hsame i (j - 1))
      by lia.
    destruct (isTile t (i - 1) (j - 1)), (isTile t' i j),
      (isTile t (i - 1) j), (isTile t i (j - 1)), (isTile t i j); done.
  - by rewrite (Hsame (i - 1) (j - 1)), (Hsame (i - 1) j),
      (Hsame i (j - 1)), (Hsame i j) by lia.
Qed.

(** The same when slots are only removed. *)
Lemma direction_shrink (t t' : Tiles) i j :
  (forall r c, isTile t' r c = true -> isTile t r c = true) ->
  connector_at t i j = true -> connector_at t' i j = true ->
  computeConnectorDirection t' i j = computeConnectorDirection t i j.
Proof.
  intros Hle. unfold connector_at, computeConnectorDirection.
  pose proof (Hle (i - 1) (j - 1)) as H1. pose proof (Hle (i - 1) j) as H2.
  pose proof (Hle i (j - 1)) as H3. pose proof (Hle i j) as H4.
  destruct (isTile t' (i - 1) (j - 1)), (isTile t' (i - 1) j),
    (isTile t' i (j - 1)), (isTile t' i j);
    try rewrite (H1 eq_refl); try rewrite (H2 eq_refl);
    try rewrite (H3 eq_refl); try rewrite (H4 eq_refl);
    destruct (isTile t (i - 1) (j - 1)), (isTile t (i - 1) j),
      (isTile t i (j - 1)), (isTile t i j); done.
Qed.

(** Pruning against the eligibility of new tiles keeps every summit
    good, as long as surviving connectors keep their direction. *)
Lemma pruneSummits_good (t t' : Tiles) (ss ss0 : Summits) :
  (forall i j s, at2 ss i j = Some s -> at2 ss0 i j = Some s) ->
  (forall i j s, at2 ss0 i j = Some s -> summit_good t i j s) ->
  (forall i j, connector_at t i j = true -> connector_at t' i j = true ->
               computeConnectorDirection t' i j
               = computeConnectorDirection t i j) ->
  forall i j s,
    at2 (pruneSummits ss (computeAllEligibility t')) i j = Some s ->
    summit_good t' i j s.
Proof.
  intros Hsub Hgood Hdir i j s'. rewrite at2_pruneSummits.
  destruct (at2 ss i j) as [s|] eqn:Es; [|done]. intros [= <-].
  split; [apply prune_one_allowed|].
  destruct (Hgood i j s (Hsub _ _ _ Es)) as [(Hconn & _) Hangle].
  unfold prune_one. simpl.
  destruct (truthy (at2 (computeEligibleConnectorPositions t') i j)) eqn:E;
    [|done].
  intros a Ha. rewrite (Hangle a Ha). symmetry. apply Hdir.
  - apply eligible_at_grid. apply Hconn. by rewrite Ha.
  - by apply eligible_at_grid.
Qed.

(** *** The invariant *)

Lemma good_toggle_connector t i j s :
  truthy (at2 (computeEligibleConnectorPositions t) i j) = true ->
  summit_good t i j s ->
  summit_good t i j
    {| connector_angle :=
         match connector_angle s with
         | Some _ => None
         | None => Some (computeConnectorDirection t i j)
         end;
       tile_chamfer := tile_chamfer s; screw := screw s |}.
Proof.
  intros El [Hall Hangle]. split; [by eauto with allowed|].
  simpl. intros a. destruct (connector_angle s); [done|]. by intros [= <-].
Qed.

Lemma good_enable_connector t i j s :
  truthy (at2 (computeEligibleConnectorPositions t) i j) = true ->
  summit_good t i j s ->
  summit_good t i j
    {| connector_angle :=
         match connector_angle s with
         | None => Some (computeConnectorDirection t i j)
         | Some a => Some a
         end;
       tile_chamfer := tile_chamfer s; screw := screw s |}.
Proof.
  intros El [Hall Hangle]. split; [by eauto with allowed|].
  simpl. intros a. destruct (connector_angle s) as [a'|] eqn:E.
  - intros [= <-]. by apply Hangle.
  - by intros [= <-].
Qed.

Lemma good_clear_connector t i j s :
  summit_good t i j s ->
  summit_good t i j
    {| connector_angle := None; tile_chamfer := tile_chamfer s;
       screw := screw s |}.
Proof. intros [Hall Hangle]. split; [by eauto with allowed|done]. Qed.

Lemma good_set_chamfer t i j s b :
  truthy (at2 (computeEligibleChamferPositions t) i j) = true ->
  summit_good t i j s ->
  summit_good t i j
    {| connector_angle := connector_angle s; tile_chamfer := b;
       screw := screw s |}.
Proof. intros El [Hall Hangle]. split; [by eauto with allowed|done]. Qed.

Lemma good_clear_chamfer t i j s :
  summit_good t i j s ->
  summit_good t i j
    {| connector_angle := connector_angle s; tile_chamfer := false;
       screw := screw s |}.
Proof. intros [Hall Hangle]. split; [by eauto with allowed|done]. Qed.

Lemma good_set_screw t i j s b :
  truthy (at2 (computeEligibleScrewPositions t) i j) = true ->
  summit_good t i j s ->
  summit_good t i j
    {| connector_angle := connector_angle s;
       tile_chamfer := tile_chamfer s; screw := b |}.
Proof. intros El [Hall Hangle]. split; [by eauto with allowed|done]. Qed.

Lemma good_clear_screw t i j s :
  summit_good t i j s ->
  summit_good t i j
    {| connector_angle := connector_angle s;
       tile_chamfer := tile_chamfer s; screw := false |}.
Proof. intros [Hall Hangle]. split; [by eauto with allowed|done]. Qed.

(** The invariant, unfolded on the fields of a state. *)
Lemma editor_invariant_intro st :
  1 <= rows_of (st_tiles st) -> 1 <= cols_of (st_tiles st) ->
  rectangular (st_tiles st) ->
  shape (st_summits st) (rows_of (st_tiles st) + 1) (cols_of (st_tiles st) + 1) ->
  (forall i j s, at2 (st_summits st) i j = Some s ->
                 summit_good (st_tiles st) i j s) ->
  st_type st = "full" \/ st_type st = "lite" ->
  editor_invariant st.
Proof.
  intros Hr Hc Hrect Hsh Hgood Htag.
  split; [|split; [exact Hgood|exact Htag]].
  split; [exact Hr|]. split; [exact Hc|]. split; [exact Hrect|exact Hsh].
Qed.

Lemma same_tiles_invariant st st' :
  editor_invariant st ->
  st_tiles st' = st_tiles st /\ st_type st' = st_type st
  /\ st_screw st' = st_screw st
  /\ shape (st_summits st') (rows_of (st_tiles st) + 1)
           (cols_of (st_tiles st) + 1)
  /\ (forall i j s, at2 (st_summits st') i j = Some s ->
                    summit_good (st_tiles st) i j s) ->
  editor_invariant st'.
Proof.
  intros ((Hr & Hc & Hrect & Hshape) & Hcons & Htag)
         (Ht & Hty & _ & Hsh & Hgood).
  apply editor_invariant_intro; rewrite ?Ht, ?Hty; done.
Qed.

Lemma toggleTile_invariant r c st st' :
  editor_invariant st -> toggleTile r c st = Some st' -> editor_invariant st'.
Proof.
  intros ((Hr & Hc & Hrect & Hshape) & Hcons & Htag). simpl in *.
  unfold toggleTile. destruct (at2 (st_tiles st) r c) as [b|] eqn:Eb; [|done].
  intros [= <-].
  apply editor_invariant_intro; simpl;
    rewrite ?rows_of_set2, ?cols_of_set2; try done.
  - by apply rectangular_set2.
  - by apply shape_pruneSummits.
  - apply (pruneSummits_good (st_tiles st) _ _ (st_summits st)); [done..|].
    intros i j. apply (direction_one_flip _ _ r c).
    intros r' c' Hne. rewrite isTile_set2 by eauto.
    by rewrite decide_False.
Qed.

Lemma removeRow_invariant st :
  editor_invariant st -> editor_invariant (removeRow st).
Proof.
  intros Hinv. pose proof Hinv as ((Hr & Hc & Hrect & Hshape) & Hcons & Htag).
  simpl in *. unfold removeRow.
  destruct (rows_of (st_tiles st) <=? 1) eqn:E; [done|].
  apply Z.leb_gt in E.
  apply editor_invariant_intro; simpl;
    rewrite ?rows_of_slice, ?cols_of_slice_rows by lia; try done; try lia.
  - unfold rectangular. rewrite cols_of_slice_rows by lia.
    unfold slice_0_m1. by apply Forall_take.
  - apply shape_pruneSummits.
    replace (Z.max 0 (rows_of (st_tiles st) - 1) + 1)
      with (Z.max 0 (rows_of (st_tiles st) + 1 - 1)) by lia.
    by apply shape_slice_rows.
  - apply (pruneSummits_good (st_tiles st) _ _ (st_summits st)); [|done|].
    + intros i j s. apply at2_slice_rows.
    + intros i j. apply direction_shrink.
      intros r c. by apply isTile_slice_rows.
Qed.

Lemma removeColumn_invariant st :
  editor_invariant st -> editor_invariant (removeColumn st).
Proof.
  intros Hinv. pose proof Hinv as ((Hr & Hc & Hrect & Hshape) & Hcons & Htag).
  simpl in *. unfold removeColumn.
  destruct (cols_of (st_tiles st) <=? 1) eqn:E; [done|].
  apply Z.leb_gt in E.
  apply editor_invariant_intro; simpl;
    rewrite ?cols_of_slice_cols; unfold rows_of; rewrite ?len_fmap;
    fold (rows_of (st_tiles st)); try done; try lia.
  - unfold rectangular. rewrite cols_of_slice_cols.
    by apply (shape_slice_cols _ (rows_of (st_tiles st))).
  - apply shape_pruneSummits.
    replace (Z.max 0 (cols_of (st_tiles st) - 1) + 1)
      with (Z.max 0 (cols_of (st_tiles st) + 1 - 1)) by lia.
    by apply shape_slice_cols.
  - apply (pruneSummits_good (st_tiles st) _ _ (st_summits st)); [|done|].
    + intros i j s. apply at2_slice_cols.
    + intros i j. apply direction_shrink.
      intros r c. by apply isTile_slice_cols.
Qed.

Lemma apply_op_invariant o st st' :
  grows o = false -> editor_invariant st ->
  apply_op o st = Some st' -> editor_invariant st'.
Proof.
  intros Hgrow Hinv Hop.
  pose proof Hinv as ((Hr & Hc & Hrect & Hshape) & Hcons & Htag).
  simpl in *.
  destruct o; simpl in Hop; try done;
    try (injection Hop as <-;
         apply (same_tiles_invariant st); [done|];
         repeat (split; [done|]);
         apply clear_all_pointwise;
           eauto using good_clear_connector, good_clear_chamfer,
                       good_clear_screw);
    try (apply (same_tiles_invariant st); [done|];
         revert Hop; apply toggle_feature_pointwise;
           eauto using good_toggle_connector, good_set_chamfer,
                       good_set_screw);
    try (apply (same_tiles_invariant st); [done|];
         revert Hop; apply enable_all_pointwise;
           eauto using good_enable_connector, good_set_chamfer,
                       good_set_screw).
  - by eapply toggleTile_invariant.
  - injection Hop as <-. by apply removeRow_invariant.
  - injection Hop as <-. by apply removeColumn_invariant.
  - injection Hop as <-. apply editor_invariant_intro; simpl; try done.
    destruct lite; auto.
  - injection Hop as <-. by apply editor_invariant_intro.
Qed.

(** Every operation other than [addRow] and [addColumn] keeps the
    plan well shaped and consistent. *)
Lemma invariant_without_growth st0 st :
  editor_invariant st0 -> reachable_without_growth st0 st ->
  editor_invariant st.
Proof.
  intros H0. induction 1 as [|st st' o _ IH Hgrow Hop]; [done|].
  by eapply apply_op_invariant.
Qed.

Lemma initialState_invariant rows cols :
  1 <= rows -> 1 <= cols -> editor_invariant (initialState rows cols).
Proof.
  intros Hr Hc.
  assert (rows_of (Array_from rows (Array_from cols true)) = rows) as Er.
  { unfold rows_of, len, Array_from. rewrite length_replicate. lia. }
  assert (cols_of (Array_from rows (Array_from cols true)) = cols) as Ec.
  { unfold cols_of, len, Array_from.
    rewrite lookup_replicate_2 by lia. rewrite length_replicate. lia. }
  apply editor_invariant_intro; simpl; rewrite ?Er, ?Ec; try done.
  - unfold rectangular. rewrite Ec. unfold Array_from.
    apply Forall_replicate. unfold len. rewrite length_replicate. lia.
  - unfold Array_from. split.
    + unfold len. rewrite length_replicate. lia.
    + apply Forall_replicate. unfold len. rewrite length_replicate. lia.
  - intros i j s (row & Hrow & Hcell)%at2_Some.
    unfold at_, Array_from in Hrow, Hcell.
    case_bool_decide; [|done]. case_bool_decide; [|done].
    apply lookup_replicate in Hrow as [-> _].
    apply lookup_replicate in Hcell as [-> _].
    by repeat split.
  - by left.
Qed.

(** The editor started on an R x C grid and never grown by [addRow] or
    [addColumn] holds an eligibility-consistent state, and its plans
    with screw dimensions in range survive the round trip. *)
Lemma editor_without_growth rows cols st :
  1 <= rows -> 1 <= cols ->
  reachable_without_growth (initialState rows cols) st ->
  eligibility_consistent st
  /\ (screw_in_range (st_screw st) -> roundtrip_law (toGridPlan st)).
Proof.
  intros Hr Hc Hreach.
  destruct (invariant_without_growth _ _
              (initialState_invariant rows cols Hr Hc) Hreach)
    as (Hws & Hcons & Htag).
  split.
  - intros i j s Hs. by destruct (Hcons i j s Hs).
  - intros Hscrew. by apply consistent_plan_roundtrip.
Qed.

(** * Further properties of the codec *)

(** ** Base64url *)

(** X1: decoding the Base64url text of a byte array gives the array
    back, whatever its length. *)
Theorem b64url_decode_encode (data : list Z) :
  Forall is_byte data -> b64urlDecode (b64urlEncode data) = data.
Proof. apply b64url_roundtrip. Qed.

Lemma b64url_decode_encode_witness :
  b64urlDecode (b64urlEncode [42; 80; 10; 255]) = [42; 80; 10; 255].
Proof.
  apply (b64url_decode_encode [42; 80; 10; 255]).
  repeat constructor; unfold is_byte; lia.
Defined.

Lemma b64_padding_step n : 0 <= n -> b64_padding (n + 3) = b64_padding n.
Proof.
  intros Hn. unfold b64_padding.
  replace (n + 3) with (n + 1 * 3) by lia. by rewrite Z.mod_add by lia.
Qed.

Lemma append_String c s r : String c s +:+ r = String c (s +:+ r).
Proof. reflexivity. Qed.

Lemma append_empty r : "" +:+ r = r.
Proof. reflexivity. Qed.

Lemma b64_groups_padded (data : list Z) :
  Forall is_byte data ->
  b64_groups (b64urlEncode data +:+ b64_padding (len data)) = data.
Proof.
  induction data as [|a|a b|a b c l IH] using list_ind3; intros Hb.
  - done.
  - apply Forall_cons in Hb as [Ha _].
    change (b64_padding (len [a])) with "==".
    cbn [b64urlEncode]. rewrite !append_String, append_empty.
    cbn [b64_groups]. rewrite b64_group_one by done. done.
  - apply Forall_cons in Hb as [Ha Hb]. apply Forall_cons in Hb as [Hb _].
    change (b64_padding (len [a; b])) with "=".
    cbn [b64urlEncode]. rewrite !append_String, append_empty.
    cbn [b64_groups]. rewrite b64_group_two by done. done.
  - apply Forall_cons in Hb as [Ha Hb]. apply Forall_cons in Hb as [Hb Hc].
    apply Forall_cons in Hc as [Hc Hl].
    replace (len (a :: b :: c :: l)) with (len l + 3)
      by (unfold len; simpl; lia).
    rewrite b64_padding_step by (unfold len; lia).
    change (b64urlEncode (a :: b :: c :: l))
      with (String (B64_at (Z.land (Z.shiftr a 2) 63))
             (String (B64_at (Z.land (Z.lor (Z.shiftl a 4) (Z.shiftr b 4)) 63))
               (String
                  (B64_at (Z.land (Z.lor (Z.shiftl b 2) (Z.shiftr c 6)) 63))
                  (String (B64_at (Z.land c 63)) (b64urlEncode l))))).
    rewrite !append_String. cbn [b64_groups].
    rewrite b64_group_full, IH by done. done.
Qed.

(** X2: padding is tolerated on decode: the unpadded text followed by
    the "=" characters a standard encoder would append ("==" after
    3k+1 bytes, "=" after 3k+2) decodes to the same bytes. *)
Theorem b64url_decode_padded (data : list Z) :
  Forall is_byte data ->
  b64urlDecode (b64urlEncode data +:+ b64_padding (len data)) = data.
Proof.
  intros Hb. unfold b64urlDecode. rewrite b64_groups_padded by done.
  by apply u8_bytes.
Qed.

Lemma b64url_decode_padded_witness :
  b64urlDecode "KlAK_w==" = [42; 80; 10; 255].
Proof.
  apply (b64url_decode_padded [42; 80; 10; 255]).
  repeat constructor; unfold is_byte; lia.
Defined.

Lemma url_safe_check :
  forallb (fun x => url_safe (B64_at x)) (range 64) = true.
Proof. vm_compute. reflexivity. Qed.

Lemma url_safe_sextet x : url_safe (B64_at (Z.land x 63)) = true.
Proof. apply (forall_range _ 64 url_safe_check). apply land_63_bound. Qed.

Lemma b64urlEncode_length_safe (data : list Z) :
  Z.of_nat (String.length (b64urlEncode data)) = Math_ceil_div (4 * len data) 3
  /\ all_chars url_safe (b64urlEncode data) = true.
Proof.
  induction data as [|a|a b|a b c l IH] using list_ind3.
  - done.
  - cbn [b64urlEncode all_chars]. rewrite !url_safe_sextet. done.
  - cbn [b64urlEncode all_chars]. rewrite !url_safe_sextet. done.
  - destruct IH as [IHlen IHsafe].
    change (b64urlEncode (a :: b :: c :: l))
      with (String (B64_at (Z.land (Z.shiftr a 2) 63))
             (String (B64_at (Z.land (Z.lor (Z.shiftl a 4) (Z.shiftr b 4)) 63))
               (String
                  (B64_at (Z.land (Z.lor (Z.shiftl b 2) (Z.shiftr c 6)) 63))
                  (String (B64_at (Z.land c 63)) (b64urlEncode l))))).
    cbn [String.length all_chars]. rewrite !url_safe_sextet, IHsafe.
    split; [|done].
    replace (len (a :: b :: c :: l)) with (len l + 3)
      by (unfold len; simpl; lia).
    rewrite !Nat2Z.inj_succ, IHlen. unfold Math_ceil_div.
    Z.div_mod_to_equations. lia.
Qed.

(** X3: the text of [n] bytes has [ceil(4n/3)] characters, all of them
    from the alphabet [A-Z a-z 0-9 - _]: no padding is emitted, for any
    array of numbers. *)
Theorem b64urlEncode_text (data : list Z) :
  Z.of_nat (String.length (b64urlEncode data)) = Math_ceil_div (4 * len data) 3
  /\ all_chars url_safe (b64urlEncode data) = true.
Proof. apply b64urlEncode_length_safe. Qed.

(** ** Bit packing *)

(** X4: [bitsToBytes] packs [n] bits into [ceil(n/8)] bytes, most
    significant bit first, and pads the last byte with zero bits;
    [bytesToBits] reads the [n] bits back. *)
Theorem bit_packing (bits : list bool) :
  len (bitsToBytes bits) = Math_ceil_div (len bits) 8
  /\ Forall is_byte (bitsToBytes bits)
  /\ (forall j, 0 <= j ->
        Z.testbit (default 0 (at_ (bitsToBytes bits) (j / 8))) (7 - j mod 8)
        = truthy (at_ bits j))
  /\ bytesToBits (bitsToBytes bits) (len bits) = bits.
Proof.
  assert (0 <= len bits) as Hn by (unfold len; lia).
  pose proof (ceil_div_8_bounds (len bits) Hn) as Hc.
  destruct (bitsToBytes_spec bits) as (Hlen & Hbytes & _).
  split; [done|]. split; [done|]. split; [|apply bits_roundtrip].
  intros j Hj. rewrite <- bit_of_bytes_testbit.
  pose proof (fold_set_bits bits
                (replicate (Z.to_nat (Math_ceil_div (len bits) 8)) 0)
                (length bits)) as H.
  cbv zeta in H. fold (len bits) in H.
  destruct H as (_ & _ & Hbits).
  - unfold len at 2. rewrite length_replicate. lia.
  - lia.
  - apply Forall_replicate. apply is_byte_0.
  - unfold bitsToBytes. rewrite Hbits by done.
    rewrite bit_of_zero_bytes, orb_false_r.
    destruct (Z.ltb_spec j (len bits)) as [Hlt|Hge]; [done|].
    simpl. by rewrite at_None by lia.
Qed.

(** ** Dimensions *)

Lemma parse_digits_app s rest acc :
  all_chars (fun c => bool_decide (is_Some (digit_of c))) s = true ->
  parse_digits (s +:+ rest) acc = parse_digits rest (parse_digits s acc).
Proof.
  revert acc. induction s as [|c s IH]; intros acc; [done|].
  rewrite append_String. simpl.
  intros [Hc Hs]%andb_true_iff. apply bool_decide_eq_true in Hc as [d Hd].
  rewrite Hd. by apply IH.
Qed.

Lemma string_of_uint_digits d :
  all_chars (fun c => bool_decide (is_Some (digit_of c)))
            (DecimalString.NilEmpty.string_of_uint d) = true.
Proof. induction d; simpl; [done|by rewrite IHd..]. Qed.

Lemma toString_digits n :
  all_chars (fun c => bool_decide (is_Some (digit_of c))) (Number_toString n)
  = true
  /\ exists c rest d, Number_toString n = String c rest /\ digit_of c = Some d.
Proof.
  unfold Number_toString, DecimalString.NilZero.string_of_uint.
  destruct (Nat.to_uint _) eqn:E;
    (split; [first [done | apply string_of_uint_digits]|]);
    simpl; eauto.
Qed.

(** X5: [parseInt] reads back the decimal rendering of every
    non-negative dimension, also when the digits are followed by text
    that does not start with a digit. *)
Theorem parseInt_reads_rendering (n : Z) (rest : string) :
  0 <= n ->
  match rest with
  | String c _ => digit_of c = None
  | EmptyString => True
  end ->
  parseInt (Number_toString n) = Some n
  /\ parseInt (Number_toString n +:+ rest) = Some n.
Proof.
  intros Hn Hrest. pose proof (parseInt_toString n Hn) as Hp.
  split; [done|].
  destruct (toString_digits n) as (Hdig & c & s & d & Es & Ed).
  rewrite (parseInt_digits _ c s d Es Ed) in Hp.
  rewrite (parseInt_digits (Number_toString n +:+ rest) c (s +:+ rest) d);
    [|by rewrite Es, append_String|done].
  rewrite parse_digits_app by done.
  injection Hp as ->.
  destruct rest as [|c' rest']; simpl; [done|]. by rewrite Hrest.
Qed.

Lemma parseInt_reads_rendering_witness :
  parseInt (Number_toString 12) = Some 12
  /\ parseInt (Number_toString 12 +:+ "px") = Some 12.
Proof.
  apply (parseInt_reads_rendering 12 "px"); [lia|reflexivity].
Defined.

(** ** Encoding *)

Lemma in_range n x : x ∈ range n <-> 0 <= x < n.
Proof. unfold range. rewrite elem_of_seqZ. lia. Qed.

(** X6: [encode] raises exactly when the summit grid of the plan lacks
    a cell at one of the (R+1) x (C+1) summit positions of its tiles. *)
Theorem encode_fails_iff (p : GridPlan) :
  encode p = None
  <-> exists i j,
        0 <= i <= rows_of (tiles p) /\ 0 <= j <= cols_of (tiles p)
        /\ at2 (summits p) i j = None.
Proof.
  unfold encode.
  destruct (mapM _ (range (rows_of (tiles p) + 1))) as [rows|] eqn:E; simpl.
  - split; [done|]. intros (i & j & Hi & Hj & Hnone). exfalso.
    assert (is_Some (mapM
      (fun i => mapM (fun j => summit_active <$> at2 (summits p) i j)
                     (range (cols_of (tiles p) + 1)))
      (range (rows_of (tiles p) + 1)))) as Hsome by (rewrite E; eauto).
    apply mapM_is_Some_1 in Hsome. rewrite Forall_forall in Hsome.
    specialize (Hsome i ltac:(apply in_range; lia)). simpl in Hsome.
    apply mapM_is_Some_1 in Hsome. rewrite Forall_forall in Hsome.
    specialize (Hsome j ltac:(apply in_range; lia)). simpl in Hsome.
    rewrite Hnone in Hsome. by destruct Hsome.
  - split; [|done]. intros _.
    apply mapM_None_1, Exists_exists in E as (i & Hi & E).
    apply mapM_None_1, Exists_exists in E as (j & Hj & E).
    apply in_range in Hi, Hj. exists i, j.
    split; [lia|]. split; [lia|].
    by destruct (at2 (summits p) i j).
Qed.

Lemma all_chars_app P s r :
  all_chars P (s +:+ r) = all_chars P s && all_chars P r.
Proof.
  induction s as [|c s IH]; [done|].
  rewrite append_String. simpl. by rewrite IH, andb_assoc.
Qed.

Lemma all_chars_impl (P Q : ascii -> bool) s :
  (forall c, P c = true -> Q c = true) ->
  all_chars P s = true -> all_chars Q s = true.
Proof.
  intros HPQ. induction s as [|c s IH]; simpl; [done|].
  intros [Hc Hs]%andb_true_iff. by rewrite (HPQ c Hc), IH.
Qed.

Lemma digit_url_safe c : is_Some (digit_of c) -> url_safe c = true.
Proof.
  intros [d Hd]. unfold digit_of in Hd. unfold url_safe. cbv zeta in *.
  destruct ((48 <=? charCode c) && (charCode c <=? 57)) eqn:E; [|done].
  by rewrite !orb_true_r.
Qed.

Lemma code_chars_of_safe s : all_chars url_safe s = true -> all_chars code_char s = true.
Proof.
  apply all_chars_impl. intros c Hc. unfold code_char. by rewrite Hc.
Qed.

Lemma toString_code_chars n : all_chars code_char (Number_toString n) = true.
Proof.
  apply code_chars_of_safe.
  eapply all_chars_impl; [|apply toString_digits].
  intros c Hc%bool_decide_eq_true. by apply digit_url_safe.
Qed.

Lemma b64_code_chars data : all_chars code_char (b64urlEncode data) = true.
Proof. apply code_chars_of_safe, b64urlEncode_length_safe. Qed.

Lemma code_chars_join s r :
  all_chars code_char s = true -> all_chars code_char r = true ->
  all_chars code_char (s +:+ "." +:+ r) = true.
Proof.
  intros Hs Hr. rewrite all_chars_app, Hs.
  change ("." +:+ r) with (String "." r). simpl. by rewrite Hr.
Qed.

Lemma split_dot_joined v t r c s ti f :
  no_dot v = true -> no_dot t = true -> no_dot r = true ->
  no_dot c = true -> no_dot s = true -> no_dot ti = true ->
  no_dot f = true ->
  split_dot (v +:+ "." +:+ t +:+ "." +:+ r +:+ "." +:+ c +:+ "." +:+ s
             +:+ "." +:+ ti +:+ "." +:+ f)
  = [v; t; r; c; s; ti; f].
Proof.
  intros Hv Ht Hr Hc Hs Hti Hf.
  assert (forall x, "." +:+ x = String "." x) as Hdot by done.
  rewrite !Hdot, !split_dot_field by done. by rewrite split_dot_no_dot.
Qed.

(** X7: whatever plan [encode] accepts, the code it returns has
    exactly seven dot-separated fields and consists of the characters
    [A-Z a-z 0-9 - _] and the separating dots only. *)
Theorem encode_code_format (p : GridPlan) (code : string) :
  encode p = Some code ->
  len (split_dot code) = 7
  /\ all_chars code_char code = true
  /\ field code 0 = "0"
  /\ (field code 1 = "f" \/ field code 1 = "l")
  /\ parseInt (field code 2) = Some (rows_of (tiles p))
  /\ parseInt (field code 3) = Some (cols_of (tiles p)).
Proof.
  unfold encode.
  destruct (mapM _ (range (rows_of (tiles p) + 1))) as [rows|] eqn:E;
    cbn [mbind option_bind]; [|done].
  intros Hcode. apply (inj Some) in Hcode. subst code.
  assert (no_dot (typeChar_of p) = true) as Ht by apply typeChar_no_dot.
  pose proof (split_dot_joined "0" (typeChar_of p)
    (Number_toString (rows_of (tiles p)))
    (Number_toString (cols_of (tiles p)))
    (b64urlEncode (screwBytes_of p))
    (b64urlEncode (bitsToBytes (tileBits_of p)))
    (b64urlEncode (bitsToBytes (mjoin rows)))
    eq_refl Ht (toString_no_dot _) (toString_no_dot _)
    (b64urlEncode_no_dot _) (b64urlEncode_no_dot _) (b64urlEncode_no_dot _))
    as Hsplit.
  assert (forall x, "0." +:+ x = "0" +:+ "." +:+ x) as H0 by done.
  cbv zeta. unfold field. rewrite H0, Hsplit.
  split; [reflexivity|]. split.
  - repeat (apply code_chars_join;
      [first [apply toString_code_chars | apply b64_code_chars
             | unfold typeChar_of; case_bool_decide; reflexivity
             | reflexivity]|]).
    apply b64_code_chars.
  - split; [reflexivity|]. split.
    + unfold typeChar_of. case_bool_decide; auto.
    + split; apply parseInt_toString;
        [apply rows_of_nonneg|apply cols_of_nonneg].
Qed.

Lemma encode_code_format_witness :
  len (split_dot "0.f.2.2.KlAK.8A._4A") = 7
  /\ all_chars code_char "0.f.2.2.KlAK.8A._4A" = true.
Proof.
  pose proof (encode_code_format full_2x2 "0.f.2.2.KlAK.8A._4A") as H.
  destruct H as (H1 & H2 & _); [by vm_compute|]. by split.
Defined.

(** ** Decoding *)

Lemma shape_table {B} (f : Z -> Z -> B) n m :
  0 <= n -> 0 <= m ->
  shape ((fun i => (fun j => f i j) <$> range m) <$> range n) n m.
Proof.
  intros Hn Hm. split.
  - by rewrite len_fmap, len_range.
  - apply Forall_fmap, Forall_forall. intros i _. simpl.
    by rewrite len_fmap, len_range.
Qed.

Lemma rectangular_table {B} (f : Z -> Z -> B) n m :
  1 <= n -> 0 <= m ->
  rectangular ((fun i => (fun j => f i j) <$> range m) <$> range n).
Proof.
  intros Hn Hm. unfold rectangular. rewrite cols_of_table by lia.
  apply shape_table; lia.
Qed.

Lemma at2_shape_bounds {A} (g : list (list A)) n m i j x :
  shape g n m -> at2 g i j = Some x -> 0 <= i < n /\ 0 <= j < m.
Proof.
  intros [Hn Hrows] (row & Hrow & Hx)%at2_Some.
  pose proof (at_Some _ _ _ Hrow) as Hi.
  pose proof (at_Some _ _ _ Hx) as Hj.
  unfold at_ in Hrow. case_bool_decide; [|done].
  rewrite Forall_forall in Hrows.
  rewrite <- (Hrows row) by (by eapply list_elem_of_lookup_2).
  lia.
Qed.

Lemma b64urlDecode_bytes s : Forall is_byte (b64urlDecode s).
Proof.
  unfold b64urlDecode. apply Forall_fmap, Forall_forall.
  intros x _. apply is_byte_u8.
Qed.

Lemma decode_summit_good (t : Tiles) b i j :
  summit_good t i j
    (decode_summit t (computeEligibleConnectorPositions t)
       (computeEligibleChamferPositions t) (computeEligibleScrewPositions t)
       b i j).
Proof.
  unfold decode_summit, summit_good, feature_allowed. simpl.
  destruct b; [|simpl; naive_solver].
  destruct (truthy (at2 (computeEligibleConnectorPositions t) i j)) eqn:E1;
    [simpl; naive_solver|].
  destruct (truthy (at2 (computeEligibleChamferPositions t) i j)) eqn:E2;
    [simpl; naive_solver|].
  destruct (truthy (at2 (computeEligibleScrewPositions t) i j)) eqn:E3;
    simpl; naive_solver.
Qed.

Lemma decode_summit_one_feature (t : Tiles) ce he se b i j :
  at_most_one_feature (decode_summit t ce he se b i j).
Proof.
  unfold decode_summit, at_most_one_feature.
  destruct b, (truthy (at2 ce i j)), (truthy (at2 he i j)),
    (truthy (at2 se i j)); simpl; naive_solver.
Qed.

Lemma decode_fields_meta v t r c s ti f p :
  decode_fields v t r c s ti f = Ok p ->
  opengrid_type p = (if bool_decide (t = "f") then "full" else "lite")
  /\ screw_size p
     = {| diameter :=
            Number_div (inject_Z (default 0 (at_ (b64urlDecode s) 0))) 10;
          head_diameter :=
            Number_div (inject_Z (default 0 (at_ (b64urlDecode s) 1))) 10;
          head_inset :=
            Number_div (inject_Z (default 0 (at_ (b64urlDecode s) 2))) 10 |}.
Proof.
  unfold decode_fields.
  destruct (negb (bool_decide (v = "0"))); [done|].
  destruct (negb (bool_decide (t = "f")) && negb (bool_decide (t = "l")));
    [done|].
  destruct (parseInt r) as [rows|]; [|done].
  destruct (parseInt c) as [cols|]; [|done].
  destruct ((rows <? 1) || (cols <? 1)); [done|].
  destruct (negb (len (b64urlDecode s) =? 3)); [done|].
  cbv zeta.
  destruct (len (b64urlDecode ti) <? _); [done|].
  destruct (len (b64urlDecode f) <? _); [done|].
  intros Hp. apply (f_equal (fun r => match r with Ok q => q | Throw _ => p end)) in Hp.
  by subst p.
Qed.

Lemma decode_Ok_fields code p :
  decode code = Ok p ->
  exists v t r c s ti f,
    split_dot code = [v; t; r; c; s; ti; f]
    /\ decode_fields v t r c s ti f = Ok p.
Proof.
  unfold decode.
  destruct (split_dot code)
    as [|v [|t [|r [|c [|s [|ti [|f [|x rest]]]]]]]] eqn:E; try done.
  intros H. by exists v, t, r, c, s, ti, f.
Qed.

Lemma three_bytes (l : list Z) :
  len l = 3 -> Forall is_byte l ->
  exists b0 b1 b2,
    l = [b0; b1; b2] /\ is_byte b0 /\ is_byte b1 /\ is_byte b2.
Proof.
  destruct l as [|b0 [|b1 [|b2 [|b3 l]]]]; unfold len; simpl; try lia.
  intros _ (H0 & (H1 & (H2 & _)%Forall_cons)%Forall_cons)%Forall_cons.
  by exists b0, b1, b2.
Qed.

Lemma decode_Ok_consistent code p :
  decode code = Ok p ->
  well_shaped p /\ plan_consistent p
  /\ (opengrid_type p = "full" \/ opengrid_type p = "lite")
  /\ (exists b0 b1 b2,
        is_byte b0 /\ is_byte b1 /\ is_byte b2
        /\ screw_size p
           = {| diameter := Number_div (inject_Z b0) 10;
                head_diameter := Number_div (inject_Z b1) 10;
                head_inset := Number_div (inject_Z b2) 10 |})
  /\ (forall i j s, at2 (summits p) i j = Some s -> at_most_one_feature s).
Proof.
  intros (v & t & r & c & s & ti & f & Hsplit & Hd)%decode_Ok_fields.
  pose proof (decode_fields_spec v t r c s ti f) as H. rewrite Hd in H.
  destruct H as (_ & Ht & rows & cols & _ & _ & Hr & Hc & Hs & _ & _
                 & Htiles & Hsummits).
  destruct (decode_fields_meta _ _ _ _ _ _ _ _ Hd) as [Htype Hscrew].
  assert (rows_of (tiles p) = rows) as Erows
      by (rewrite Htiles; apply rows_of_table; lia).
  assert (cols_of (tiles p) = cols) as Ecols
      by (rewrite Htiles; apply cols_of_table; lia).
  split; [|split; [|split; [|split]]].
  - unfold well_shaped. rewrite Erows, Ecols.
    split; [done|]. split; [done|]. split.
    + rewrite Htiles. apply rectangular_table; lia.
    + rewrite Hsummits. apply shape_table; lia.
  - intros i j x Hx.
    assert (0 <= i < rows + 1 /\ 0 <= j < cols + 1) as [Hi Hj].
    { eapply at2_shape_bounds; [|exact Hx].
      rewrite Hsummits. apply shape_table; lia. }
    rewrite Hsummits, at2_table in Hx by done.
    injection Hx as <-. apply decode_summit_good.
  - rewrite Htype. destruct Ht as [-> | ->]; [by left|by right].
  - destruct (three_bytes _ Hs (b64urlDecode_bytes s))
      as (b0 & b1 & b2 & Hb & H0 & H1 & H2).
    exists b0, b1, b2. rewrite Hscrew, Hb. done.
  - intros i j x Hx.
    assert (0 <= i < rows + 1 /\ 0 <= j < cols + 1) as [Hi Hj].
    { eapply at2_shape_bounds; [|exact Hx].
      rewrite Hsummits. apply shape_table; lia. }
    rewrite Hsummits, at2_table in Hx by done.
    injection Hx as <-. apply decode_summit_one_feature.
Qed.

(** X8: every plan [decode] returns, for whatever code, is well
    shaped (rectangular tiles of at least 1x1, a summit grid one larger
    each way), carries only features that are eligible on its own
    tiles, connectors with the direction its tiles give and at most
    one feature per summit, is tagged "full" or "lite", and has screw
    dimensions between 0 and 25.5 mm. *)
Theorem decode_yields_consistent_plan (code : string) (p : GridPlan) :
  decode code = Ok p ->
  well_shaped p /\ plan_consistent p
  /\ (forall i j s, at2 (summits p) i j = Some s -> at_most_one_feature s)
  /\ (opengrid_type p = "full" \/ opengrid_type p = "lite")
  /\ screw_in_range (screw_size p).
Proof.
  intros (Hws & Hcons & Htype & (b0 & b1 & b2 & H0 & H1 & H2 & Hscrew) & Hone)
    %decode_Ok_consistent.
  repeat (split; [done|]).
  rewrite Hscrew. unfold screw_in_range.
  cbn [diameter head_diameter head_inset].
  split; [by apply byte_decodes_in_range|].
  split; by apply byte_decodes_in_range.
Qed.

Lemma decode_yields_consistent_plan_witness :
  exists p, decode "0.l.2.2.KlAK.4A.CAA" = Ok p /\ plan_consistent p.
Proof.
  eexists. split; [vm_compute; reflexivity|].
  eapply (decode_yields_consistent_plan "0.l.2.2.KlAK.4A.CAA").
  vm_compute. reflexivity.
Defined.

(** X9: decoded plans are fixed points of the codec: a plan that
    [decode] returned is accepted by [encode], and the code [encode]
    gives for it decodes to exactly that plan again. *)
Theorem decode_encode_decode (code : string) (p : GridPlan) :
  decode code = Ok p ->
  exists code', encode p = Some code' /\ decode code' = Ok p.
Proof.
  intros (Hws & Hcons & Htype & (b0 & b1 & b2 & H0 & H1 & H2 & Hscrew) & _)
    %decode_Ok_consistent.
  eexists. split; [by apply encode_well_shaped|].
  rewrite decode_joined
    by first [ done | apply typeChar_no_dot | apply toString_no_dot
             | apply b64urlEncode_no_dot ].
  rewrite decode_fields_encoded by done.
  rewrite Hscrew. unfold stored_screw.
  cbn [diameter head_diameter head_inset].
  rewrite !byte_reencodes by done. rewrite <- Hscrew. by destruct p.
Qed.

Lemma decode_encode_decode_witness :
  exists p code',
    decode "0.l.2.2.KlAK.4A.CAA" = Ok p
    /\ encode p = Some code' /\ decode code' = Ok p.
Proof.
  pose (p := match decode "0.l.2.2.KlAK.4A.CAA" with
             | Ok q => q
             | Throw _ => full_2x2
             end).
  assert (decode "0.l.2.2.KlAK.4A.CAA" = Ok p) as H
      by (vm_compute; reflexivity).
  destruct (decode_encode_decode _ _ H) as (code' & He & Hd).
  exists p, code'. split; [exact H|]. split; [exact He|exact Hd].
Defined.

(** ** The round trip of an arbitrary well-shaped plan *)

Lemma resolved_table (p : GridPlan) :
  (fun i =>
     (fun j =>
        decode_summit (tiles p) (computeEligibleConnectorPositions (tiles p))
          (computeEligibleChamferPositions (tiles p))
          (computeEligibleScrewPositions (tiles p))
          (truthy (at_ (featureBits_of p) (i * (cols_of (tiles p) + 1) + j)))
          i j)
       <$> range (cols_of (tiles p) + 1))
    <$> range (rows_of (tiles p) + 1)
  = (fun i =>
       (fun j =>
          resolved_summit (tiles p) i j
            (default emptySummit (at2 (summits p) i j)))
         <$> range (cols_of (tiles p) + 1))
      <$> range (rows_of (tiles p) + 1).
Proof.
  apply table_ext. intros i j Hi Hj.
  unfold featureBits_of, resolved_summit. by rewrite at_join_table.
Qed.

Lemma decode_fields_well_shaped (p : GridPlan) :
  well_shaped p ->
  decode_fields "0" (typeChar_of p)
    (Number_toString (rows_of (tiles p)))
    (Number_toString (cols_of (tiles p)))
    (b64urlEncode (screwBytes_of p))
    (b64urlEncode (bitsToBytes (tileBits_of p)))
    (b64urlEncode (bitsToBytes (featureBits_of p)))
  = Ok {| tiles := tiles p;
          summits :=
            (fun i =>
               (fun j =>
                  resolved_summit (tiles p) i j
                    (default emptySummit (at2 (summits p) i j)))
                 <$> range (cols_of (tiles p) + 1))
              <$> range (rows_of (tiles p) + 1);
          opengrid_type := stored_type (opengrid_type p);
          screw_size := stored_screw (screw_size p) |}.
Proof.
  intros (Hr & Hc & Hrect & Hshape).
  unfold decode_fields.
  rewrite (bool_decide_eq_true_2 ("0" = "0")) by done.
  assert ((negb (bool_decide (typeChar_of p = "f"))
           && negb (bool_decide (typeChar_of p = "l")) = false)
          /\ (if bool_decide (typeChar_of p = "f") then "full" else "lite")
             = stored_type (opengrid_type p)) as [Ht1 Ht2].
  { unfold typeChar_of, stored_type.
    destruct (bool_decide (opengrid_type p = "full")); by vm_compute. }
  cbn [negb]. rewrite Ht1, Ht2.
  rewrite !parseInt_toString by lia.
  replace ((rows_of (tiles p) <? 1) || (cols_of (tiles p) <? 1)) with false
    by (symmetry; rewrite orb_false_iff, !Z.ltb_ge; lia).
  rewrite (b64url_roundtrip (screwBytes_of p)) by apply screwBytes_bytes.
  destruct (packed_bits_roundtrip (tileBits_of p) _ (len_tileBits p))
    as [-> ->].
  destruct (packed_bits_roundtrip (featureBits_of p) _ (len_featureBits p))
    as [-> ->].
  cbv zeta. rewrite decoded_tiles by done. rewrite resolved_table.
  unfold screwBytes_of, stored_screw.
  generalize (tenths_byte (diameter (screw_size p)))
    (tenths_byte (head_diameter (screw_size p)))
    (tenths_byte (head_inset (screw_size p))).
  reflexivity.
Qed.

Lemma inactive_summit s : summit_active s = false -> s = emptySummit.
Proof.
  destruct s as [[a|] [] []]; unfold summit_active; simpl; try done.
Qed.

(** X10: what the codec makes of any well-shaped plan, consistent or
    not.  [encode] accepts it and [decode] accepts the code; the
    decoded plan has the same tiles; each summit is resolved from its
    activity alone (active and connector-eligible: a connector with
    the direction of the tiles; else active and chamfer-eligible: a
    chamfer; else active and screw-eligible: a screw; else empty), so
    an inactive summit stays empty; the tag is "full" for "full" and
    "lite" for anything else; each screw dimension is the double that
    the division of its stored byte by 10 gives, the byte being what
    the encoder computes in doubles: the product of the dimension with
    10, rounded to a double, then rounded half up to an integer and
    reduced modulo 256, and 0 where the product overflows.  A diameter
    of 0.15, the double nearest to it, is stored as 2, not as 1, since
    its product with 10 rounds to the double 1.5. *)
Theorem roundtrip_resolves_plan (p : GridPlan) :
  well_shaped p ->
  exists code q,
    encode p = Some code /\ decode code = Ok q
    /\ tiles q = tiles p
    /\ shape (summits q) (rows_of (tiles p) + 1) (cols_of (tiles p) + 1)
    /\ (forall i j s,
          at2 (summits p) i j = Some s ->
          at2 (summits q) i j = Some (resolved_summit (tiles p) i j s)
          /\ (summit_active s = false ->
              at2 (summits q) i j = Some s))
    /\ opengrid_type q = stored_type (opengrid_type p)
    /\ screw_size q = stored_screw (screw_size p).
Proof.
  intros Hws. pose proof Hws as (Hr & Hc & Hrect & Hshape).
  eexists _, _. split; [by apply encode_well_shaped|].
  rewrite decode_joined
    by first [ done | apply typeChar_no_dot | apply toString_no_dot
             | apply b64urlEncode_no_dot ].
  split; [by apply decode_fields_well_shaped|].
  cbn [tiles summits opengrid_type screw_size].
  split; [done|]. split; [apply shape_table; lia|].
  split; [|done].
  intros i j s Hs.
  destruct (at2_shape_bounds _ _ _ _ _ _ Hshape Hs) as [Hi Hj].
  rewrite at2_table, Hs by done. cbn [default from_option id].
  split; [done|]. intros Hoff. f_equal.
  unfold resolved_summit, decode_summit. rewrite Hoff.
  symmetry. by apply inactive_summit.
Qed.

Lemma stale_state_well_shaped : well_shaped (toGridPlan stale_state).
Proof.
  split; [by vm_compute|]. split; [by vm_compute|].
  split; [by repeat constructor|]. split; [done|by repeat constructor].
Qed.

Lemma roundtrip_resolves_plan_witness :
  exists code q,
    encode thin_screw_plan = Some code /\ decode code = Ok q
    /\ tiles q = tiles thin_screw_plan
    /\ at2 (summits q) 2 1
       = Some {| connector_angle := None;
                 tile_chamfer := false; screw := true |}
    /\ diameter (screw_size q) = round_double (2 # 10).
Proof.
  destruct (roundtrip_resolves_plan thin_screw_plan stale_state_well_shaped)
    as (code & q & He & Hd & Ht & _ & Hsum & _ & Hs).
  exists code, q. split; [exact He|]. split; [exact Hd|].
  split; [exact Ht|]. split.
  - apply (proj1 (Hsum 2 1 {| connector_angle := Some 90;
                              tile_chamfer := false; screw := false |}
                    eq_refl)).
  - rewrite Hs. vm_compute. reflexivity.
Defined.

(** * Further properties of the eligibility rules *)

Lemma rows_of_full rows cols :
  0 <= rows -> rows_of (fst (createEmptyGrid rows cols)) = rows.
Proof.
  intros H. unfold rows_of, len, createEmptyGrid, Array_from. simpl.
  rewrite length_replicate. lia.
Qed.

Lemma cols_of_full rows cols :
  1 <= rows -> 0 <= cols -> cols_of (fst (createEmptyGrid rows cols)) = cols.
Proof.
  intros Hr Hc. unfold cols_of, len, createEmptyGrid, Array_from. simpl.
  rewrite lookup_replicate_2 by lia. rewrite length_replicate. lia.
Qed.

Lemma isTile_full rows cols r c :
  1 <= rows -> 0 <= cols ->
  isTile (fst (createEmptyGrid rows cols)) r c
  = bool_decide (0 <= r < rows /\ 0 <= c < cols).
Proof.
  intros Hr Hc. unfold isTile.
  rewrite rows_of_full, cols_of_full by lia.
  destruct ((0 <=? r) && (r <? rows) && (0 <=? c) && (c <? cols)) eqn:E.
  - rewrite !andb_true_iff, !Z.leb_le, !Z.ltb_lt in E.
    rewrite bool_decide_eq_true_2 by lia.
    unfold at2, at_, createEmptyGrid, Array_from. simpl.
    rewrite bool_decide_eq_true_2 by lia.
    rewrite lookup_replicate_2 by lia.
    rewrite bool_decide_eq_true_2 by lia.
    by rewrite lookup_replicate_2 by lia.
  - rewrite bool_decide_eq_false_2; [done|].
    intros H. rewrite <- not_true_iff_false in E. apply E.
    rewrite !andb_true_iff, !Z.leb_le, !Z.ltb_lt. lia.
Qed.

Ltac full_grid_cases :=
  repeat case_bool_decide; simpl; try reflexivity; try lia.

(** X11: the eligibility of the grid a new editor starts from, for
    every size.  On the all-tile grid of R x C slots the four corner
    summits are the chamfer positions, the other summits of the border
    are the connector positions, and the interior summits are the
    screw positions; a connector on the top edge is turned by -90
    degrees, on the bottom edge by 90, on the left edge by 0 and on
    the right edge by 180. *)
Theorem full_grid_eligibility (R C i j : Z) :
  1 <= R -> 1 <= C -> 0 <= i <= R -> 0 <= j <= C ->
  let t := fst (createEmptyGrid R C) in
  let e := computeAllEligibility t in
  truthy (at2 (chamfers e) i j)
  = bool_decide ((i = 0 \/ i = R) /\ (j = 0 \/ j = C))
  /\ truthy (at2 (connectors e) i j)
     = bool_decide (((i = 0 \/ i = R) /\ 0 < j < C)
                    \/ (0 < i < R /\ (j = 0 \/ j = C)))
  /\ truthy (at2 (screws e) i j) = bool_decide (0 < i < R /\ 0 < j < C)
  /\ (0 < j < C ->
      (i = 0 -> computeConnectorDirection t i j = -90)
      /\ (i = R -> computeConnectorDirection t i j = 90))
  /\ (0 < i < R ->
      (j = 0 -> computeConnectorDirection t i j = 0)
      /\ (j = C -> computeConnectorDirection t i j = 180)).
Proof.
  intros HR HC Hi Hj t e. unfold e, computeAllEligibility. simpl.
  unfold computeEligibleChamferPositions, computeEligibleConnectorPositions,
    computeEligibleScrewPositions.
  rewrite !at2_summit_grid
    by (unfold t; rewrite ?rows_of_full, ?cols_of_full; lia).
  unfold chamfer_at, connector_at, screw_at, computeConnectorDirection, t.
  rewrite !isTile_full by lia. simpl.
  split; [full_grid_cases|]. split; [full_grid_cases|].
  split; [full_grid_cases|].
  split; intros H; split; intros ->; full_grid_cases.
Qed.

Lemma full_grid_eligibility_witness :
  truthy (at2 (computeEligibleChamferPositions (fst (createEmptyGrid 3 5))) 3 5)
  = true
  /\ computeConnectorDirection (fst (createEmptyGrid 3 5)) 2 5 = 180.
Proof.
  pose proof (full_grid_eligibility 3 5 3 5) as H1.
  pose proof (full_grid_eligibility 3 5 2 5) as H2.
  split.
  - destruct H1 as [H _]; [lia..|]. exact H.
  - destruct H2 as (_ & _ & _ & _ & H); [lia..|].
    destruct H as [_ H]; [lia|]. by apply H.
Defined.

(** ** Corner screws *)

Lemma isEligible_corner (e : list (list bool)) r c :
  isEligible (computeCornerScrewPositions e) r c = true ->
  isEligible e r c = true.
Proof.
  unfold isEligible at 1.
  destruct (decide (1 <= rows_of e)) as [Hrows|Hrows].
  - unfold computeCornerScrewPositions. cbv zeta.
    rewrite rows_of_table by apply rows_of_nonneg.
    rewrite cols_of_table by (first [done|apply cols_of_nonneg]).
    destruct ((0 <=? r) && (r <? rows_of e) && (0 <=? c) && (c <? cols_of e))
      eqn:E; [|done].
    unfold isEligible. rewrite E.
    rewrite !andb_true_iff, !Z.leb_le, !Z.ltb_lt in E.
    rewrite at2_table by lia. simpl.
    by destruct (truthy (at2 e r c)).
  - assert (rows_of e = 0) as E0 by (pose proof (rows_of_nonneg e); lia).
    unfold computeCornerScrewPositions. rewrite E0.
    change (rows_of (_ <$> range 0)) with 0.
    destruct ((0 <=? r) && (r <? 0) && _ && _) eqn:E; [|done].
    rewrite !andb_true_iff, !Z.leb_le, !Z.ltb_lt in E. lia.
Qed.

(** X12: [computeCornerScrewPositions] is idempotent: the corners of
    the corner positions are the corner positions themselves, for
    every grid of flags. *)
Theorem corner_screws_idempotent (eligible : list (list bool)) :
  computeCornerScrewPositions (computeCornerScrewPositions eligible)
  = computeCornerScrewPositions eligible.
Proof.
  destruct (decide (1 <= rows_of eligible)) as [Hrows|Hrows].
  - unfold computeCornerScrewPositions at 1 3. cbv zeta.
    assert (rows_of (computeCornerScrewPositions eligible) = rows_of eligible)
      as -> by (apply rows_of_table, rows_of_nonneg).
    assert (cols_of (computeCornerScrewPositions eligible) = cols_of eligible)
      as -> by (apply cols_of_table; [done|apply cols_of_nonneg]).
    apply table_ext. intros i j Hi Hj.
    destruct (truthy (at2 (computeCornerScrewPositions eligible) i j)) eqn:Ec.
    + simpl.
      pose proof Ec as Ec'. unfold computeCornerScrewPositions in Ec'.
      rewrite at2_table in Ec' by lia. simpl in Ec'.
      destruct (truthy (at2 eligible i j)); [|done]. simpl in *.
      rewrite Ec'.
      apply andb_true_iff in Ec' as [Hh Hv].
      apply negb_true_iff, andb_false_iff in Hh, Hv.
      apply andb_true_iff.
      split; apply negb_true_iff, andb_false_iff.
      * destruct Hh as [Hh|Hh]; [left|right];
          apply not_true_iff_false; intros Hx%isEligible_corner; congruence.
      * destruct Hv as [Hv|Hv]; [left|right];
          apply not_true_iff_false; intros Hx%isEligible_corner; congruence.
    + simpl. unfold computeCornerScrewPositions in Ec.
      rewrite at2_table in Ec by lia. simpl in Ec. by rewrite Ec.
  - destruct eligible as [|row rest]; [reflexivity|].
    exfalso. apply Hrows. unfold rows_of, len. simpl. lia.
Qed.

(** ** Pruning *)

Lemma prune_one_fixed e i j s :
  prune_one e i j s = s <-> feature_allowed e i j s.
Proof.
  split.
  - intros <-. apply prune_one_allowed.
  - intros (Hc & Hh & Hs). destruct s as [a h w]. unfold prune_one. simpl in *.
    f_equal.
    + destruct a as [a|]; [by rewrite Hc|].
      by destruct (truthy (at2 (connectors e) i j)).
    + destruct h; [by rewrite Hh|].
      by destruct (truthy (at2 (chamfers e) i j)).
    + destruct w; [by rewrite Hs|].
      by destruct (truthy (at2 (screws e) i j)).
Qed.

Lemma at2_ext {A} (g h : list (list A)) :
  length g = length h ->
  (forall (k : nat) r r', g !! k = Some r -> h !! k = Some r' ->
                          length r = length r') ->
  (forall i j, at2 g i j = at2 h i j) -> g = h.
Proof.
  intros Hlen Hrows Hat.
  apply list_eq_same_length with (length g); [by symmetry|done|].
  intros k r r' Hk Hr Hr'.
  apply list_eq_same_length with (length r);
    [symmetry; by eapply Hrows|done|].
  intros k' x y Hk' Hx Hy.
  specialize (Hat (Z.of_nat k) (Z.of_nat k')).
  unfold at2 in Hat. rewrite !at_of_nat, Hr, Hr' in Hat.
  rewrite !at_of_nat, Hx, Hy in Hat. congruence.
Qed.

Lemma pruneSummits_fixed (ss : Summits) e :
  pruneSummits ss e = ss <-> summits_allowed e ss.
Proof.
  split.
  - intros <-. apply pruneSummits_allowed.
  - intros Hall. apply at2_ext.
    + unfold pruneSummits. by rewrite length_imap.
    + intros k r r'. unfold pruneSummits. rewrite list_lookup_imap.
      intros Hr Hr'. rewrite Hr' in Hr. simpl in Hr. injection Hr as <-.
      by rewrite length_imap.
    + intros i j. rewrite at2_pruneSummits.
      destruct (at2 ss i j) as [s|] eqn:Es; [|done]. simpl. f_equal.
      apply prune_one_fixed. by eapply Hall.
Qed.

(** X13: pruning changes nothing exactly on the summit grids whose
    active features the eligibility grids all allow; on any grid it
    never activates a feature and leaves the allowed features of every
    summit as they are. *)
Theorem pruneSummits_fixed_points (ss : Summits) (e : Eligibility) :
  (pruneSummits ss e = ss <-> summits_allowed e ss)
  /\ forall i j s,
       at2 ss i j = Some s ->
       exists s',
         at2 (pruneSummits ss e) i j = Some s'
         /\ (connector_angle s' = connector_angle s
             \/ connector_angle s' = None
                /\ truthy (at2 (connectors e) i j) = false)
         /\ (tile_chamfer s' = tile_chamfer s
             \/ tile_chamfer s' = false
                /\ truthy (at2 (chamfers e) i j) = false)
         /\ (screw s' = screw s
             \/ screw s' = false /\ truthy (at2 (screws e) i j) = false).
Proof.
  split; [apply pruneSummits_fixed|].
  intros i j s Hs. exists (prune_one e i j s).
  rewrite at2_pruneSummits, Hs. split; [done|].
  unfold prune_one. simpl.
  destruct (truthy (at2 (connectors e) i j)),
    (truthy (at2 (chamfers e) i j)), (truthy (at2 (screws e) i j)); auto.
Qed.

(** * Further properties of the editor *)

(** ** The "enable all" loops *)

Lemma foldl_flatten {A B C} (h : A -> B -> C -> A) (a : A)
    (xs : list B) (ys : list C) :
  foldl (fun acc i => foldl (fun acc j => h acc i j) acc ys) a xs
  = foldl (fun acc p => h acc p.1 p.2) a
          (xs ≫= fun i => (fun j => (i, j)) <$> ys).
Proof.
  revert a. induction xs as [|i xs IH]; intros a; [done|].
  csimpl. rewrite foldl_app, foldl_fmap. simpl. apply IH.
Qed.

Lemma for_summits_positions rows cols body next :
  for_summits rows cols body next
  = foldl (fun acc p => acc ≫= body p.1 p.2) (Some next)
          (summit_positions rows cols).
Proof.
  unfold for_summits, summit_positions.
  apply (foldl_flatten (fun acc i j => acc ≫= body i j)).
Qed.

Lemma elem_of_summit_positions rows cols i j :
  (i, j) ∈ summit_positions rows cols
  <-> 0 <= i <= rows /\ 0 <= j <= cols.
Proof.
  unfold summit_positions. rewrite list_elem_of_bind. split.
  - intros (i' & Hj & Hi). apply list_elem_of_fmap in Hj as (j' & [= -> ->] & Hj).
    apply in_range in Hi, Hj. lia.
  - intros [Hi Hj]. exists i. split; [|apply in_range; lia].
    apply list_elem_of_fmap. exists j. split; [done|apply in_range; lia].
Qed.

Lemma NoDup_summit_positions rows cols : NoDup (summit_positions rows cols).
Proof.
  unfold summit_positions. apply NoDup_bind.
  - intros i1 i2 [i j] _ _ (j1 & [= -> ->] & _)%list_elem_of_fmap
      (j2 & [= -> _] & _)%list_elem_of_fmap.
    done.
  - intros i _. apply NoDup_fmap_2; [|apply NoDup_seqZ].
    by intros j1 j2 [= ->].
  - apply NoDup_seqZ.
Qed.

(** The loop over a duplicate-free list of positions rewrites exactly
    the eligible positions of the list, each once. *)
Lemma enable_fold elig f (next : Summits) (ps : list (Z * Z)) :
  NoDup ps ->
  (forall i j, (i, j) ∈ ps -> truthy (at2 elig i j) = true ->
               is_Some (at2 next i j)) ->
  exists res,
    foldl (fun acc p => acc ≫= enable_body elig f p.1 p.2) (Some next) ps
    = Some res
    /\ forall i j,
         at2 res i j
         = if decide ((i, j) ∈ ps /\ truthy (at2 elig i j) = true)
           then f i j <$> at2 next i j
           else at2 next i j.
Proof.
  induction ps as [|[i0 j0] ps IH] using rev_ind.
  - intros _ _. exists next. split; [done|]. intros i j.
    rewrite decide_False; [done|]. intros [H _]. by apply elem_of_nil in H.
  - intros (Hnd & Hdis & _)%NoDup_app Hsome.
    assert ((i0, j0) ∉ ps) as Hfresh.
    { intros Hin. apply (Hdis _ Hin). by left. }
    destruct IH as (res & Hres & Hat); [done| |].
    { intros i j Hin. apply Hsome, elem_of_app. by left. }
    rewrite foldl_app, Hres. simpl. unfold enable_body.
    destruct (truthy (at2 elig i0 j0)) eqn:El.
    + assert (at2 res i0 j0 = at2 next i0 j0) as Hsame.
      { rewrite Hat, decide_False; [done|]. by intros [H _]. }
      destruct (Hsome i0 j0) as [s Hs]; [apply elem_of_app; right; by left|done|].
      rewrite Hsame, Hs. eexists. split; [done|]. intros i j.
      rewrite at2_set2 by (rewrite Hsame, Hs; eauto).
      destruct (decide (i = i0 /\ j = j0)) as [[-> ->]|Hne].
      * rewrite decide_True; [by rewrite Hs|].
        split; [apply elem_of_app; right; by left|done].
      * rewrite Hat. apply decide_ext. rewrite elem_of_app, list_elem_of_singleton.
        split; [intros [H1 H2]; auto|].
        intros [[H1|[= -> ->]] H2]; [done|]. by destruct Hne.
    + exists res. split; [done|]. intros i j. rewrite Hat.
      apply decide_ext. rewrite elem_of_app, list_elem_of_singleton.
      split; [intros [H1 H2]; auto|].
      intros [[H1|[= -> ->]] H2]; [done|congruence].
Qed.

Lemma enable_all_spec elig f st :
  shape (st_summits st) (rows_of (st_tiles st) + 1) (cols_of (st_tiles st) + 1) ->
  exists st',
    enable_all elig f st = Some st'
    /\ st_tiles st' = st_tiles st /\ st_type st' = st_type st
    /\ st_screw st' = st_screw st
    /\ forall i j,
         at2 (st_summits st') i j
         = if decide ((0 <= i <= rows_of (st_tiles st)
                       /\ 0 <= j <= cols_of (st_tiles st))
                      /\ truthy (at2 elig i j) = true)
           then f i j <$> at2 (st_summits st) i j
           else at2 (st_summits st) i j.
Proof.
  intros Hshape. unfold enable_all. rewrite for_summits_positions.
  destruct (enable_fold elig f (st_summits st)
              (summit_positions (rows_of (st_tiles st)) (cols_of (st_tiles st))))
    as (res & -> & Hat).
  - apply NoDup_summit_positions.
  - intros i j Hin%elem_of_summit_positions _.
    eapply shape_at2; [exact Hshape|lia..].
  - eexists. split; [done|]. simpl. repeat (split; [done|]).
    intros i j. rewrite Hat. apply decide_ext.
    by rewrite elem_of_summit_positions.
Qed.

Lemma summit_grid_eligible_in_range {A} (t : list (list A)) (g : Z -> Z -> bool)
    i j :
  truthy (at2 (summit_grid t g) i j) = true ->
  0 <= i <= rows_of t /\ 0 <= j <= cols_of t.
Proof.
  intros H.
  destruct (decide (0 <= i <= rows_of t /\ 0 <= j <= cols_of t)); [done|].
  by rewrite at2_summit_grid_None in H.
Qed.

Lemma enable_eligible_spec (g : Z -> Z -> bool) f st :
  shape (st_summits st) (rows_of (st_tiles st) + 1) (cols_of (st_tiles st) + 1) ->
  exists st',
    enable_all (summit_grid (st_tiles st) g) f st = Some st'
    /\ st_tiles st' = st_tiles st /\ st_type st' = st_type st
    /\ st_screw st' = st_screw st
    /\ summits_map
         (fun i j s =>
            if truthy (at2 (summit_grid (st_tiles st) g) i j)
            then f i j s else s)
         (st_summits st) (st_summits st').
Proof.
  intros Hshape.
  destruct (enable_all_spec (summit_grid (st_tiles st) g) f st Hshape)
    as (st' & He & Ht & Hty & Hsc & Hat).
  exists st'. repeat (split; [done|]). intros i j. rewrite Hat.
  destruct (truthy (at2 (summit_grid (st_tiles st) g) i j)) eqn:El.
  - rewrite decide_True; [done|].
    split; [by apply (summit_grid_eligible_in_range _ g)|done].
  - rewrite decide_False by (intros [_ H]; done).
    by destruct (at2 (st_summits st) i j).
Qed.

(** X14: the three "enable all" operations on a state whose summit
    grid is complete.  Each succeeds, keeps the tiles, the type and
    the screw size, and rewrites exactly the summits that are eligible
    for its feature: [enableAllConnectors] gives a connector-eligible
    summit without a connector the direction of its tiles and keeps an
    existing angle, [enableAllChamfers] sets the chamfer and
    [enableAllScrews] sets the screw; every other field and every
    other summit is unchanged. *)
Theorem enableAll_postcondition (st : EditorState) :
  shape (st_summits st) (rows_of (st_tiles st) + 1) (cols_of (st_tiles st) + 1) ->
  let e := computeAllEligibility (st_tiles st) in
  (exists st',
     enableAllConnectors st = Some st'
     /\ st_tiles st' = st_tiles st /\ st_type st' = st_type st
     /\ st_screw st' = st_screw st
     /\ summits_map
          (fun i j s =>
             if truthy (at2 (connectors e) i j)
             then {| connector_angle :=
                       match connector_angle s with
                       | None =>
                           Some (computeConnectorDirection (st_tiles st) i j)
                       | Some a => Some a
                       end;
                     tile_chamfer := tile_chamfer s; screw := screw s |}
             else s)
          (st_summits st) (st_summits st'))
  /\ (exists st',
        enableAllChamfers st = Some st'
        /\ st_tiles st' = st_tiles st /\ st_type st' = st_type st
        /\ st_screw st' = st_screw st
        /\ summits_map
             (fun i j s =>
                if truthy (at2 (chamfers e) i j)
                then {| connector_angle := connector_angle s;
                        tile_chamfer := true; screw := screw s |}
                else s)
             (st_summits st) (st_summits st'))
  /\ (exists st',
        enableAllScrews st = Some st'
        /\ st_tiles st' = st_tiles st /\ st_type st' = st_type st
        /\ st_screw st' = st_screw st
        /\ summits_map
             (fun i j s =>
                if truthy (at2 (screws e) i j)
                then {| connector_angle := connector_angle s;
                        tile_chamfer := tile_chamfer s; screw := true |}
                else s)
             (st_summits st) (st_summits st')).
Proof.
  intros Hshape e. split; [|split].
  - apply (enable_eligible_spec (connector_at (st_tiles st)) _ st Hshape).
  - apply (enable_eligible_spec (chamfer_at (st_tiles st)) _ st Hshape).
  - apply (enable_eligible_spec (screw_at (st_tiles st)) _ st Hshape).
Qed.

Lemma initial_shape rows cols :
  1 <= rows -> 1 <= cols ->
  shape (st_summits (initialState rows cols))
        (rows_of (st_tiles (initialState rows cols)) + 1)
        (cols_of (st_tiles (initialState rows cols)) + 1).
Proof.
  intros Hr Hc.
  by destruct (initialState_invariant rows cols Hr Hc) as ((_ & _ & _ & H) & _).
Qed.

Lemma enableAll_postcondition_witness :
  exists st',
    enableAllChamfers (initialState 2 3) = Some st'
    /\ at2 (st_summits st') 2 3
       = Some {| connector_angle := None; tile_chamfer := true;
                 screw := false |}.
Proof.
  destruct (enableAll_postcondition (initialState 2 3))
    as (_ & (st' & He & _ & _ & _ & Hmap) & _);
    [split; [reflexivity|repeat constructor]|].
  exists st'. split; [exact He|]. rewrite (Hmap 2 3). reflexivity.
Defined.

(** X15: [enableCornerScrews] on a state whose summit grid is
    complete succeeds and rewrites the screw of every screw-eligible
    summit to its corner flag, so it also removes the screws of the
    eligible summits that are not corners; connectors, chamfers, the
    summits that are not screw-eligible, the tiles, the type and the
    screw size are unchanged. *)
Theorem enableCornerScrews_postcondition (st : EditorState) :
  shape (st_summits st) (rows_of (st_tiles st) + 1) (cols_of (st_tiles st) + 1) ->
  let elig := computeEligibleScrewPositions (st_tiles st) in
  exists st',
    enableCornerScrews st = Some st'
    /\ st_tiles st' = st_tiles st /\ st_type st' = st_type st
    /\ st_screw st' = st_screw st
    /\ summits_map
         (fun i j s =>
            if truthy (at2 elig i j)
            then {| connector_angle := connector_angle s;
                    tile_chamfer := tile_chamfer s;
                    screw := truthy (at2 (computeCornerScrewPositions elig) i j) |}
            else s)
         (st_summits st) (st_summits st').
Proof.
  intros Hshape elig.
  apply (enable_eligible_spec (screw_at (st_tiles st)) _ st Hshape).
Qed.

Lemma enableCornerScrews_postcondition_witness :
  exists st',
    enableCornerScrews (initialState 4 4) = Some st'
    /\ at2 (st_summits st') 1 2 = Some emptySummit
    /\ at2 (st_summits st') 1 3
       = Some {| connector_angle := None; tile_chamfer := false;
                 screw := true |}.
Proof.
  destruct (enableCornerScrews_postcondition (initialState 4 4))
    as (st' & He & _ & _ & _ & Hmap);
    [split; [reflexivity|repeat constructor]|].
  exists st'. split; [exact He|].
  rewrite (Hmap 1 2), (Hmap 1 3). split; reflexivity.
Defined.

(** ** No operation fails on a state of the editor *)

Lemma same_tiles_well_shaped st st' :
  well_shaped (toGridPlan st) ->
  st_tiles st' = st_tiles st ->
  shape (st_summits st') (rows_of (st_tiles st) + 1)
        (cols_of (st_tiles st) + 1) ->
  well_shaped (toGridPlan st').
Proof.
  intros (Hr & Hc & Hrect & _) Ht Hs. unfold well_shaped. simpl in *.
  by rewrite Ht.
Qed.

Lemma toggle_feature_total (g : Z -> Z -> bool) f i j st :
  shape (st_summits st) (rows_of (st_tiles st) + 1) (cols_of (st_tiles st) + 1) ->
  exists st',
    toggle_feature (summit_grid (st_tiles st) g) f i j st = Some st'
    /\ st_tiles st' = st_tiles st
    /\ shape (st_summits st') (rows_of (st_tiles st) + 1)
             (cols_of (st_tiles st) + 1).
Proof.
  intros Hshape. unfold toggle_feature.
  destruct (truthy (at2 (summit_grid (st_tiles st) g) i j)) eqn:El; simpl;
    [|by exists st].
  apply summit_grid_eligible_in_range in El as [Hi Hj].
  destruct (shape_at2 _ _ _ i j Hshape) as [s ->]; [lia..|].
  eexists. split; [done|]. simpl. split; [done|]. by apply shape_set2.
Qed.

Lemma len_Array_from {A} n (x : A) : 0 <= n -> len (Array_from n x) = n.
Proof. intros H. unfold len, Array_from. rewrite length_replicate. lia. Qed.

Lemma len_app_one {A} (l : list A) x : len (l ++ [x]) = len l + 1.
Proof. unfold len. rewrite length_app. simpl. lia. Qed.

Lemma addRow_well_shaped st :
  well_shaped (toGridPlan st) -> well_shaped (toGridPlan (addRow st)).
Proof.
  intros (Hr & Hc & Hrect & Hn & Hrows). unfold well_shaped, addRow.
  simpl in *. rewrite cols_of_app_row by done.
  unfold rows_of in *. rewrite !len_app_one.
  split; [lia|]. split; [done|]. split; [|split].
  - unfold rectangular. rewrite cols_of_app_row by done.
    apply Forall_app. split; [done|].
    apply Forall_singleton, len_Array_from. lia.
  - rewrite len_app_one. lia.
  - apply Forall_app. split; [done|].
    apply Forall_singleton, len_Array_from. lia.
Qed.

Lemma addColumn_well_shaped st :
  well_shaped (toGridPlan st) -> well_shaped (toGridPlan (addColumn st)).
Proof.
  intros (Hr & Hc & Hrect & Hn & Hrows). unfold well_shaped, addColumn.
  simpl in *. rewrite cols_of_app_col by done.
  unfold rows_of in *. rewrite !len_fmap.
  split; [done|]. split; [lia|]. split; [|split].
  - unfold rectangular. rewrite cols_of_app_col by done.
    apply Forall_fmap. eapply Forall_impl; [exact Hrect|].
    intros row Hrow. unfold compose. cbn beta in *. rewrite len_app_one. lia.
  - by rewrite len_fmap.
  - apply Forall_fmap. eapply Forall_impl; [exact Hrows|].
    intros row Hrow. unfold compose. cbn beta in *. rewrite len_app_one. lia.
Qed.

Lemma removeRow_well_shaped st :
  well_shaped (toGridPlan st) -> well_shaped (toGridPlan (removeRow st)).
Proof.
  intros Hws. pose proof Hws as (Hr & Hc & Hrect & Hshape).
  simpl in *. unfold removeRow.
  destruct (rows_of (st_tiles st) <=? 1) eqn:E; [done|].
  apply Z.leb_gt in E. unfold well_shaped. simpl.
  rewrite rows_of_slice, cols_of_slice_rows by lia.
  split; [lia|]. split; [done|]. split.
  - unfold rectangular. rewrite cols_of_slice_rows by lia.
    unfold slice_0_m1. by apply Forall_take.
  - apply shape_pruneSummits.
    replace (Z.max 0 (rows_of (st_tiles st) - 1) + 1)
      with (Z.max 0 (rows_of (st_tiles st) + 1 - 1)) by lia.
    by apply shape_slice_rows.
Qed.

Lemma removeColumn_well_shaped st :
  well_shaped (toGridPlan st) -> well_shaped (toGridPlan (removeColumn st)).
Proof.
  intros Hws. pose proof Hws as (Hr & Hc & Hrect & Hshape).
  simpl in *. unfold removeColumn.
  destruct (cols_of (st_tiles st) <=? 1) eqn:E; [done|].
  apply Z.leb_gt in E. unfold well_shaped. simpl.
  rewrite cols_of_slice_cols. unfold rows_of. rewrite len_fmap.
  fold (rows_of (st_tiles st)).
  split; [done|]. split; [lia|]. split.
  - unfold rectangular. rewrite cols_of_slice_cols.
    by apply (shape_slice_cols _ (rows_of (st_tiles st))).
  - apply shape_pruneSummits.
    replace (Z.max 0 (cols_of (st_tiles st) - 1) + 1)
      with (Z.max 0 (cols_of (st_tiles st) + 1 - 1)) by lia.
    by apply shape_slice_cols.
Qed.

Lemma enable_all_well_shaped (g : Z -> Z -> bool) f st :
  well_shaped (toGridPlan st) ->
  exists st',
    enable_all (summit_grid (st_tiles st) g) f st = Some st'
    /\ well_shaped (toGridPlan st').
Proof.
  intros Hws. pose proof Hws as (_ & _ & _ & Hshape). simpl in Hshape.
  destruct (enable_all_spec (summit_grid (st_tiles st) g) f st Hshape)
    as (st' & He & _).
  exists st'. split; [done|].
  destruct (enable_all_pointwise (fun _ _ _ => True)
              (rows_of (st_tiles st) + 1) (cols_of (st_tiles st) + 1)
              (summit_grid (st_tiles st) g) f st st')
    as (Ht & _ & _ & Hs & _); [done|exact Hshape|done|exact He|].
  by apply (same_tiles_well_shaped st).
Qed.

Lemma clear_all_well_shaped f st :
  well_shaped (toGridPlan st) -> well_shaped (toGridPlan (clear_all f st)).
Proof.
  intros Hws. pose proof Hws as (_ & _ & _ & Hshape). simpl in Hshape.
  apply (same_tiles_well_shaped st); [done..|].
  by apply (clear_all_pointwise (fun _ _ _ => True)).
Qed.

Lemma toggle_feature_well_shaped (g : Z -> Z -> bool) f i j st :
  well_shaped (toGridPlan st) ->
  exists st',
    toggle_feature (summit_grid (st_tiles st) g) f i j st = Some st'
    /\ well_shaped (toGridPlan st').
Proof.
  intros Hws. pose proof Hws as (_ & _ & _ & Hshape). simpl in Hshape.
  destruct (toggle_feature_total g f i j st Hshape) as (st' & He & Ht & Hs).
  exists st'. split; [done|]. by apply (same_tiles_well_shaped st).
Qed.

Lemma toggleTile_well_shaped r c st b :
  well_shaped (toGridPlan st) -> at2 (st_tiles st) r c = Some b ->
  exists st', toggleTile r c st = Some st' /\ well_shaped (toGridPlan st').
Proof.
  intros (Hr & Hc & Hrect & Hshape) Hb. unfold toggleTile. rewrite Hb.
  eexists. split; [done|]. unfold well_shaped. simpl in *.
  rewrite rows_of_set2, cols_of_set2.
  split; [done|]. split; [done|].
  split; [by apply rectangular_set2|by apply shape_pruneSummits].
Qed.

Lemma apply_op_well_shaped o st :
  well_shaped (toGridPlan st) ->
  match apply_op o st with
  | Some st' => well_shaped (toGridPlan st')
  | None => exists r c, o = ToggleTile r c /\ at2 (st_tiles st) r c = None
  end.
Proof.
  intros Hws.
  destruct o; cbn [apply_op];
    try (by first [ apply addRow_well_shaped | apply removeRow_well_shaped
                  | apply addColumn_well_shaped
                  | apply removeColumn_well_shaped
                  | apply clear_all_well_shaped ]).
  - destruct (at2 (st_tiles st) r c) as [b|] eqn:Eb.
    + by destruct (toggleTile_well_shaped r c st b Hws Eb) as (st' & -> & H).
    + unfold toggleTile. rewrite Eb. eauto.
  - destruct (toggle_feature_well_shaped (connector_at (st_tiles st))
                (fun s =>
                   {| connector_angle :=
                        match connector_angle s with
                        | Some _ => None
                        | None =>
                            Some (computeConnectorDirection (st_tiles st) i j)
                        end;
                      tile_chamfer := tile_chamfer s; screw := screw s |})
                i j st Hws) as (st' & He & H).
    by replace (toggleConnector i j st) with (Some st').
  - destruct (toggle_feature_well_shaped (chamfer_at (st_tiles st))
                (fun s =>
                   {| connector_angle := connector_angle s;
                      tile_chamfer := negb (tile_chamfer s);
                      screw := screw s |})
                i j st Hws) as (st' & He & H).
    by replace (toggleChamfer i j st) with (Some st').
  - destruct (toggle_feature_well_shaped (screw_at (st_tiles st))
                (fun s =>
                   {| connector_angle := connector_angle s;
                      tile_chamfer := tile_chamfer s;
                      screw := negb (screw s) |})
                i j st Hws) as (st' & He & H).
    by replace (toggleScrew i j st) with (Some st').
  - destruct (enable_all_well_shaped (connector_at (st_tiles st))
                (fun i j s =>
                   {| connector_angle :=
                        match connector_angle s with
                        | None =>
                            Some (computeConnectorDirection (st_tiles st) i j)
                        | Some a => Some a
                        end;
                      tile_chamfer := tile_chamfer s; screw := screw s |})
                st Hws) as (st' & He & H).
    by replace (enableAllConnectors st) with (Some st').
  - destruct (enable_all_well_shaped (chamfer_at (st_tiles st))
                (fun _ _ s =>
                   {| connector_angle := connector_angle s;
                      tile_chamfer := true; screw := screw s |})
                st Hws) as (st' & He & H).
    by replace (enableAllChamfers st) with (Some st').
  - destruct (enable_all_well_shaped (screw_at (st_tiles st))
                (fun _ _ s =>
                   {| connector_angle := connector_angle s;
                      tile_chamfer := tile_chamfer s; screw := true |})
                st Hws) as (st' & He & H).
    by replace (enableAllScrews st) with (Some st').
  - destruct (enable_all_well_shaped (screw_at (st_tiles st))
                (fun i j s =>
                   {| connector_angle := connector_angle s;
                      tile_chamfer := tile_chamfer s;
                      screw :=
                        truthy
                          (at2 (computeCornerScrewPositions
                                  (screws (computeAllEligibility (st_tiles st))))
                               i j) |})
                st Hws) as (st' & He & H).
    by replace (enableCornerScrews st) with (Some st').
  - done.
  - done.
Qed.

Lemma reachable_well_shaped rows cols st :
  1 <= rows -> 1 <= cols ->
  reachable (initialState rows cols) st -> well_shaped (toGridPlan st).
Proof.
  intros Hr Hc. induction 1 as [|st st' o _ IH Hop].
  - by destruct (initialState_invariant rows cols Hr Hc).
  - pose proof (apply_op_well_shaped o st IH) as H. by rewrite Hop in H.
Qed.

(** X16: no operation of the editor fails.  Every state reached from
    [useGridState(rows, cols)] with [rows, cols >= 1], by any
    operations including [addRow] and [addColumn], has rectangular
    tiles of at least 1x1 and a summit grid one larger each way, and
    every operation returns a next state from it: none reads a field
    of an absent summit.  The one exception of the model is
    [toggleTile] at a slot outside the grid, to which the user
    interface binds no handler. *)
Theorem editor_operations_total (rows cols : Z) (st : EditorState) :
  1 <= rows -> 1 <= cols ->
  reachable (initialState rows cols) st ->
  well_shaped (toGridPlan st)
  /\ forall o,
       (exists st', apply_op o st = Some st')
       \/ (exists r c, o = ToggleTile r c /\ at2 (st_tiles st) r c = None).
Proof.
  intros Hr Hc Hreach.
  pose proof (reachable_well_shaped rows cols st Hr Hc Hreach) as Hws.
  split; [done|]. intros o.
  pose proof (apply_op_well_shaped o st Hws) as H.
  destruct (apply_op o st) as [st'|]; [left; eauto|by right].
Qed.

Lemma editor_operations_total_witness :
  well_shaped (toGridPlan stale_state).
Proof.
  refine (proj1 (editor_operations_total 2 2 stale_state _ _ _)); [lia..|].
  apply (reach_step _
           (default (initialState 2 2) (toggleConnector 2 1 (initialState 2 2)))
           _ AddRow); [|reflexivity].
  apply (reach_step _ (initialState 2 2) _ (ToggleConnector 2 1));
    [apply reach_init|reflexivity].
Defined.

(** X17: every state the editor reaches can be shared.  For a state
    reached from [useGridState(rows, cols)] with [rows, cols >= 1],
    [encode] of its plan returns a code and [decode] accepts that
    code, giving a plan with the tiles of the state and the summits
    the decoder resolves from their activity. *)
Theorem reachable_state_encodes (rows cols : Z) (st : EditorState) :
  1 <= rows -> 1 <= cols ->
  reachable (initialState rows cols) st ->
  exists code q,
    encode (toGridPlan st) = Some code /\ decode code = Ok q
    /\ tiles q = st_tiles st
    /\ forall i j s,
         at2 (st_summits st) i j = Some s ->
         at2 (summits q) i j = Some (resolved_summit (st_tiles st) i j s).
Proof.
  intros Hr Hc Hreach.
  pose proof (reachable_well_shaped rows cols st Hr Hc Hreach) as Hws.
  pose proof Hws as (Hr' & Hc' & Hrect & Hshape).
  eexists _, _. split; [by apply encode_well_shaped|].
  rewrite decode_joined
    by first [ done | apply typeChar_no_dot | apply toString_no_dot
             | apply b64urlEncode_no_dot ].
  split; [by apply decode_fields_well_shaped|].
  cbn [tiles summits toGridPlan]. split; [done|].
  intros i j s Hs.
  destruct (at2_shape_bounds _ _ _ _ _ _ Hshape Hs) as [Hi Hj].
  simpl in Hi, Hj. rewrite at2_table by done.
  cbn [toGridPlan summits]. by rewrite Hs.
Qed.

Lemma reachable_state_encodes_witness :
  exists code q,
    encode (toGridPlan stale_state_column) = Some code /\ decode code = Ok q.
Proof.
  destruct (reachable_state_encodes 2 2 stale_state_column)
    as (code & q & He & Hd & _); [lia..| |].
  - apply (reach_step _
             (default (initialState 2 2)
                (toggleConnector 1 2 (initialState 2 2)))
             _ AddColumn); [|reflexivity].
    apply (reach_step _ (initialState 2 2) _ (ToggleConnector 1 2));
      [apply reach_init|reflexivity].
  - exists code, q. split; [exact He|exact Hd].
Defined.

(** ** Toggling a tile is local *)

Lemma at2_summit_grid_ext {A} (t t' : list (list A)) (f f' : Z -> Z -> bool) i j :
  rows_of t' = rows_of t -> cols_of t' = cols_of t ->
  f' i j = f i j ->
  at2 (summit_grid t' f') i j = at2 (summit_grid t f) i j.
Proof.
  intros Hr Hc Hf.
  destruct (decide (0 <= i <= rows_of t /\ 0 <= j <= cols_of t)) as [[Hi Hj]|Hout].
  - rewrite !at2_summit_grid by (rewrite ?Hr, ?Hc; lia). by rewrite Hf.
  - rewrite !at2_summit_grid_None by (rewrite ?Hr, ?Hc; lia). done.
Qed.

Lemma eligibility_local (t : Tiles) r c v i j :
  rectangular t -> is_Some (at2 t r c) -> ~ corner_of r c i j ->
  at2 (connectors (computeAllEligibility (set2 t r c v))) i j
  = at2 (connectors (computeAllEligibility t)) i j
  /\ at2 (chamfers (computeAllEligibility (set2 t r c v))) i j
     = at2 (chamfers (computeAllEligibility t)) i j
  /\ at2 (screws (computeAllEligibility (set2 t r c v))) i j
     = at2 (screws (computeAllEligibility t)) i j
  /\ computeConnectorDirection (set2 t r c v) i j
     = computeConnectorDirection t i j.
Proof.
  intros Hrect Hsome Hfar. unfold corner_of in Hfar.
  assert (forall r' c', (r' = i - 1 \/ r' = i) -> (c' = j - 1 \/ c' = j) ->
                        isTile (set2 t r c v) r' c' = isTile t r' c') as Htile.
  { intros r' c' Hr' Hc'. rewrite isTile_set2 by done.
    rewrite decide_False; [done|lia]. }
  simpl.
  unfold computeEligibleConnectorPositions, computeEligibleChamferPositions,
    computeEligibleScrewPositions.
  repeat split;
    try (apply at2_summit_grid_ext;
         [apply rows_of_set2|apply cols_of_set2|]);
    unfold connector_at, chamfer_at, screw_at, computeConnectorDirection;
    rewrite !Htile by lia; reflexivity.
Qed.

(** X18: toggling a tile is local.  [toggleTile(r, c)] on a
    rectangular grid flips slot [(r, c)] and no other slot; away from
    the four summits at the corners of that slot, the three
    eligibility grids and the connector direction are the same before
    and after, and, when the features of the state were eligible, so
    is every summit. *)
Theorem toggleTile_local (r c : Z) (st st' : EditorState) :
  rectangular (st_tiles st) ->
  toggleTile r c st = Some st' ->
  (exists b, at2 (st_tiles st) r c = Some b
             /\ at2 (st_tiles st') r c = Some (negb b))
  /\ (forall r' c', ~ (r' = r /\ c' = c) ->
                    at2 (st_tiles st') r' c' = at2 (st_tiles st) r' c')
  /\ (forall i j,
        ~ corner_of r c i j ->
        at2 (connectors (computeAllEligibility (st_tiles st'))) i j
        = at2 (connectors (computeAllEligibility (st_tiles st))) i j
        /\ at2 (chamfers (computeAllEligibility (st_tiles st'))) i j
           = at2 (chamfers (computeAllEligibility (st_tiles st))) i j
        /\ at2 (screws (computeAllEligibility (st_tiles st'))) i j
           = at2 (screws (computeAllEligibility (st_tiles st))) i j
        /\ computeConnectorDirection (st_tiles st') i j
           = computeConnectorDirection (st_tiles st) i j)
  /\ (eligibility_consistent st ->
      forall i j, ~ corner_of r c i j ->
                  at2 (st_summits st') i j = at2 (st_summits st) i j).
Proof.
  intros Hrect. unfold toggleTile.
  destruct (at2 (st_tiles st) r c) as [b|] eqn:Eb; [|done].
  intros Hst. apply (inj Some) in Hst. subst st'. cbn [st_tiles st_summits with_grid].
  split; [|split; [|split]].
  - exists b. split; [done|]. rewrite at2_set2 by eauto.
    by rewrite decide_True.
  - intros r' c' Hne. rewrite at2_set2 by eauto. by rewrite decide_False.
  - intros i j Hfar. apply eligibility_local; eauto.
  - intros Hcons i j Hfar. rewrite at2_pruneSummits.
    destruct (at2 (st_summits st) i j) as [s|] eqn:Es; [|done].
    simpl. f_equal.
    destruct (eligibility_local (st_tiles st) r c (negb b) i j)
      as (Hc1 & Hc2 & Hc3 & _); [eauto..|].
    transitivity (prune_one (computeAllEligibility (st_tiles st)) i j s).
    + unfold prune_one. by rewrite Hc1, Hc2, Hc3.
    + apply prune_one_fixed. by apply (Hcons i j s).
Qed.

Lemma toggleTile_local_witness :
  exists st',
    toggleTile 0 0 (initialState 3 3) = Some st'
    /\ at2 (st_tiles st') 0 0 = Some false
    /\ at2 (st_tiles st') 1 1 = Some true.
Proof.
  pose (st' := default (initialState 3 3) (toggleTile 0 0 (initialState 3 3))).
  assert (toggleTile 0 0 (initialState 3 3) = Some st') as H by reflexivity.
  destruct (toggleTile_local 0 0 (initialState 3 3) st')
    as ((b & Hb & Hb') & Hother & _); [by repeat constructor|exact H|].
  exists st'. split; [exact H|]. split.
  - rewrite Hb'. f_equal. vm_compute in Hb. by injection Hb as <-.
  - rewrite Hother by lia. reflexivity.
Defined.

(** ** Growing and shrinking *)

Lemma slice_app_one {A} (l : list A) x : slice_0_m1 (l ++ [x]) = l.
Proof.
  unfold slice_0_m1. rewrite length_app. simpl.
  replace (length l + 1 - 1)%nat with (length l) by lia.
  apply take_app_length.
Qed.

Lemma slice_app_col {A} (g : list (list A)) x :
  slice_0_m1 <$> ((fun row => row ++ [x]) <$> g) = g.
Proof.
  induction g as [|row g IH]; [done|].
  csimpl. by rewrite slice_app_one, IH.
Qed.

(** X19: removing undoes adding.  On a state with at least one row
    and one column whose features are all eligible, [addRow] followed
    by [removeRow] gives back the state, and so does [addColumn]
    followed by [removeColumn]. *)
Theorem remove_undoes_add (st : EditorState) :
  dims_at_least_one st -> eligibility_consistent st ->
  removeRow (addRow st) = st /\ removeColumn (addColumn st) = st.
Proof.
  intros [Hr Hc] Hcons.
  apply pruneSummits_fixed in Hcons.
  split.
  - unfold removeRow, addRow. cbn [st_tiles st_summits with_grid].
    unfold rows_of at 1. rewrite len_app_one. fold (rows_of (st_tiles st)).
    replace (rows_of (st_tiles st) + 1 <=? 1) with false
      by (symmetry; apply Z.leb_gt; lia).
    rewrite !slice_app_one, Hcons. by destruct st.
  - unfold removeColumn, addColumn. cbn [st_tiles st_summits with_grid].
    rewrite cols_of_app_col by done.
    replace (cols_of (st_tiles st) + 1 <=? 1) with false
      by (symmetry; apply Z.leb_gt; lia).
    rewrite !slice_app_col, Hcons. by destruct st.
Qed.

Lemma remove_undoes_add_witness :
  removeRow (addRow (initialState 2 2)) = initialState 2 2.
Proof.
  refine (proj1 (remove_undoes_add (initialState 2 2) _ _)).
  - split; vm_compute; discriminate.
  - intros i j s Hs.
    assert (0 <= i < 3 /\ 0 <= j < 3) as [Hi Hj].
    { apply (at2_rectangular_bounds (st_summits (initialState 2 2)) i j s);
        [by repeat constructor|done]. }
    assert (i = 0 \/ i = 1 \/ i = 2) as [->|[->| ->]] by lia;
      (assert (j = 0 \/ j = 1 \/ j = 2) as [->|[->| ->]] by lia);
      vm_compute in Hs; injection Hs as <-; by vm_compute.
Defined.

(** ** Toggling a feature twice *)

Lemma set2_restore {A} (g : list (list A)) i j v s :
  at2 g i j = Some s -> set2 (set2 g i j v) i j s = g.
Proof.
  intros (row & Hrow & Hcell)%at2_Some.
  pose proof (at_Some _ _ _ Hrow) as Hi.
  pose proof (at_Some _ _ _ Hcell) as Hj.
  unfold at_ in Hrow, Hcell.
  rewrite bool_decide_eq_true_2 in Hrow, Hcell by lia.
  unfold set2. rewrite list_alter_alter_eq.
  rewrite (list_alter_ext _ id _ g (Z.to_nat i)); [by apply list_alter_id|
                                                   |done].
  intros row' Hrow'. rewrite Hrow in Hrow'. injection Hrow' as <-.
  unfold compose. rewrite list_insert_insert_eq. by apply list_insert_id.
Qed.

Lemma toggle_feature_twice elig f f' i j st st1 :
  (forall s, at2 (st_summits st) i j = Some s -> f' (f s) = s) ->
  toggle_feature elig f i j st = Some st1 ->
  toggle_feature elig f' i j st1 = Some st.
Proof.
  intros Hinv. unfold toggle_feature.
  destruct (negb (truthy (at2 elig i j))); [by intros [= <-]|].
  destruct (at2 (st_summits st) i j) as [s|] eqn:Es; [|done].
  intros Hst. apply (inj Some) in Hst. subst st1.
  cbn [st_summits with_summits].
  rewrite at2_set2 by eauto. rewrite decide_True by done.
  rewrite Hinv by done. rewrite set2_restore by done. by destruct st.
Qed.

(** X20: toggling a feature twice restores the state.  For every
    state, a second [toggleChamfer] at the same summit undoes the
    first, and likewise [toggleScrew]; a second [toggleConnector]
    undoes the first when the summit had no connector or a connector
    with the direction of its tiles. *)
Theorem toggle_twice (i j : Z) (st st1 : EditorState) :
  (toggleChamfer i j st = Some st1 -> toggleChamfer i j st1 = Some st)
  /\ (toggleScrew i j st = Some st1 -> toggleScrew i j st1 = Some st)
  /\ ((forall s a, at2 (st_summits st) i j = Some s ->
                   connector_angle s = Some a ->
                   a = computeConnectorDirection (st_tiles st) i j) ->
      toggleConnector i j st = Some st1 ->
      toggleConnector i j st1 = Some st).
Proof.
  split; [|split].
  - intros H. pose proof (toggle_feature_tiles _ _ _ _ _ _ H) as Ht.
    unfold toggleChamfer in *. rewrite Ht.
    revert H. apply toggle_feature_twice.
    intros [a h w] _. simpl. by rewrite negb_involutive.
  - intros H. pose proof (toggle_feature_tiles _ _ _ _ _ _ H) as Ht.
    unfold toggleScrew in *. rewrite Ht.
    revert H. apply toggle_feature_twice.
    intros [a h w] _. simpl. by rewrite negb_involutive.
  - intros Hdir H. pose proof (toggle_feature_tiles _ _ _ _ _ _ H) as Ht.
    unfold toggleConnector in *. rewrite Ht.
    revert H. apply toggle_feature_twice.
    intros [[a|] h w] Hs; simpl; [|done].
    by rewrite (Hdir _ a Hs).
Qed.

(** ** The editor without growth *)

(** X21: as long as the grid is not grown, the editor keeps its
    state consistent.  Every state reached from
    [useGridState(rows, cols)] with [rows, cols >= 1] by operations
    other than [addRow] and [addColumn] has rectangular tiles and a
    complete summit grid, only eligible features, connectors with the
    direction of their tiles and the type "full" or "lite"; and when
    its screw dimensions lie between 0 and 25.5 mm its plan is encoded
    to a code that decodes to the same tiles, summits and type, and to
    screw dimensions that agree with its own to 0.1 mm. *)
Theorem editor_sound_without_growth (rows cols : Z) (st : EditorState) :
  1 <= rows -> 1 <= cols ->
  reachable_without_growth (initialState rows cols) st ->
  editor_invariant st
  /\ eligibility_consistent st
  /\ (screw_in_range (st_screw st) -> roundtrip_law (toGridPlan st)).
Proof.
  intros Hr Hc Hreach. split.
  - eapply invariant_without_growth; [|exact Hreach].
    by apply initialState_invariant.
  - by apply (editor_without_growth rows cols).
Qed.

Lemma editor_sound_without_growth_witness :
  at2 (st_summits featured_state) 0 1
  = Some {| connector_angle := Some (-90);
            tile_chamfer := false; screw := false |}
  /\ at2 (st_summits featured_state) 0 2
     = Some {| connector_angle := None;
               tile_chamfer := true; screw := false |}
  /\ roundtrip_law (toGridPlan featured_state).
Proof.
  split; [reflexivity|]. split; [reflexivity|].
  refine (proj2 (proj2 (editor_sound_without_growth 3 2
                          featured_state _ _ _)) _);
    [lia|lia| |].
  - apply (reach0_step _
             (default (initialState 3 2)
                (run_ops [EnableAllConnectors; EnableAllChamfers;
                          SetScrewSize thin_screw] (initialState 3 2)))
             _ RemoveRow); [|reflexivity|vm_compute; reflexivity].
    apply (reach0_step _
             (default (initialState 3 2)
                (run_ops [EnableAllConnectors; EnableAllChamfers]
                         (initialState 3 2)))
             _ (SetScrewSize thin_screw));
      [|reflexivity|vm_compute; reflexivity].
    apply (reach0_step _
             (default (initialState 3 2)
                (run_ops [EnableAllConnectors] (initialState 3 2)))
             _ EnableAllChamfers); [|reflexivity|vm_compute; reflexivity].
    apply (reach0_step _ (initialState 3 2) _ EnableAllConnectors);
      [apply reach0_init|reflexivity|vm_compute; reflexivity].
  - vm_compute. intuition congruence.
Defined.

(** * Properties of the CAD generation *)

Lemma for_each_invariant {A S} (P : nat -> S -> Prop) (a : list A)
    (body : Z -> A -> S -> S) (s : S) :
  P 0%nat s ->
  (forall (k : nat) x acc, a !! k = Some x -> P k acc ->
                           P (Datatypes.S k) (body (Z.of_nat k) x acc)) ->
  P (length a) (for_each a body s).
Proof.
  intros H0 Hstep. unfold for_each, range, len.
  assert (forall (pre l : list A) acc,
            a = pre ++ l -> P (length pre) acc ->
            P (length a)
              (foldl (fun acc ix => body ix.1 ix.2 acc) acc
                 (zip (seqZ (Z.of_nat (length pre)) (Z.of_nat (length l))) l)))
    as Hgen.
  { intros pre l. revert pre. induction l as [|x l IH]; intros pre acc Ha Hacc.
    - simpl. rewrite Ha, length_app. simpl. by rewrite Nat.add_0_r.
    - replace (Z.of_nat (length (x :: l))) with (Z.succ (Z.of_nat (length l)))
        by (simpl; lia).
      rewrite seqZ_cons by lia. simpl.
      replace (Z.pred (Z.succ (Z.of_nat (length l)))) with (Z.of_nat (length l))
        by lia.
      replace (Z.succ (Z.of_nat (length pre)))
        with (Z.of_nat (length (pre ++ [x])))
        by (rewrite length_app; simpl; lia).
      apply IH; [by rewrite <- app_assoc|].
      rewrite length_app. simpl. rewrite Nat.add_1_r.
      apply Hstep; [|done].
      rewrite Ha. by apply list_lookup_middle. }
  apply (Hgen [] a s); done.
Qed.

Lemma count_tiles_snoc (t : Tiles) row :
  count_tiles (t ++ [row]) = (count_tiles t + count_row row)%nat.
Proof.
  unfold count_tiles. rewrite fmap_app, sum_list_with_app. simpl.
  unfold count_row. lia.
Qed.

Lemma count_row_snoc row (b : bool) :
  count_row (row ++ [b]) = (count_row row + if b then 1 else 0)%nat.
Proof.
  unfold count_row. rewrite List.filter_app, length_app.
  by destruct b.
Qed.

Lemma count_features_snoc (ss : Summits) row :
  count_features (ss ++ [row])
  = (count_features ss + sum_list (feature_fields <$> row))%nat.
Proof.
  unfold count_features. rewrite fmap_app, sum_list_with_app. simpl. lia.
Qed.

Lemma take_snoc {A} (l : list A) (k : nat) x :
  l !! k = Some x -> take (S k) l = take k l ++ [x].
Proof. intros H. by apply take_S_r. Qed.

Section GridProofs.

Variables TILE_SIZE TILE_THICKNESS : Q.

Lemma place_tile_placed plan rowIdx colIdx n result :
  placed n result ->
  placed (S n) (place_tile TILE_SIZE plan rowIdx colIdx result).
Proof.
  unfold placed, place_tile.
  destruct result as [s|]; simpl.
  - intros (Ht & Hn & Hc).
    destruct (bool_decide (opengrid_type plan = "lite")); simpl; lia.
  - intros ->. destruct (bool_decide (opengrid_type plan = "lite")); simpl; lia.
Qed.

Lemma place_tiles_placed plan :
  placed (count_tiles (tiles plan)) (place_tiles TILE_SIZE plan).
Proof.
  unfold place_tiles.
  replace (count_tiles (tiles plan))
    with (count_tiles (take (length (tiles plan)) (tiles plan)))
    by (by rewrite firstn_all).
  apply (for_each_invariant
           (fun k acc => placed (count_tiles (take k (tiles plan))) acc)).
  - done.
  - intros k row acc Hrow Hacc.
    rewrite (take_snoc _ _ _ Hrow), count_tiles_snoc.
    replace (count_row row) with (count_row (take (length row) row))
      by (by rewrite firstn_all).
    apply (for_each_invariant
             (fun j acc =>
                placed (count_tiles (take k (tiles plan))
                        + count_row (take j row)) acc)).
    + by rewrite Nat.add_0_r.
    + intros j b acc' Hb Hacc'.
      rewrite (take_snoc _ _ _ Hb), count_row_snoc.
      destruct b; simpl.
      * replace (count_tiles (take k (tiles plan))
                 + (count_row (take j row) + 1))%nat
          with (S (count_tiles (take k (tiles plan))
                   + count_row (take j row))) by lia.
        by apply place_tile_placed.
      * by rewrite !Nat.add_0_r.
Qed.

Lemma cut_summit_counts plan i j summit st :
  tiles_in (cs_result (cut_summit TILE_SIZE TILE_THICKNESS plan i j summit st))
  = tiles_in (cs_result st)
  /\ cuts_in (cs_result (cut_summit TILE_SIZE TILE_THICKNESS plan i j summit st))
     = (cuts_in (cs_result st) + feature_fields summit)%nat.
Proof.
  unfold cut_summit, cut_screw, cut_chamfer, cut_connector, feature_fields.
  destruct (connector_angle summit), (tile_chamfer summit), (screw summit);
    simpl; split; lia.
Qed.

Lemma cut_summits_counts plan st :
  let final :=
    for_each (summits plan)
      (fun i row =>
         for_each row
           (fun j summit => cut_summit TILE_SIZE TILE_THICKNESS plan i j summit))
      st in
  tiles_in (cs_result final) = tiles_in (cs_result st)
  /\ cuts_in (cs_result final)
     = (cuts_in (cs_result st) + count_features (summits plan))%nat.
Proof.
  cbv zeta.
  replace (count_features (summits plan))
    with (count_features (take (length (summits plan)) (summits plan)))
    by (by rewrite firstn_all).
  apply (for_each_invariant
           (fun k acc =>
              tiles_in (cs_result acc) = tiles_in (cs_result st)
              /\ cuts_in (cs_result acc)
                 = (cuts_in (cs_result st)
                    + count_features (take k (summits plan)))%nat)).
  - split; [done|]. unfold count_features. simpl. lia.
  - intros k row acc Hrow [Ht Hc].
    rewrite (take_snoc _ _ _ Hrow), count_features_snoc.
    replace (sum_list (feature_fields <$> row))
      with (sum_list (feature_fields <$> take (length row) row))
      by (by rewrite firstn_all).
    apply (for_each_invariant
             (fun j acc' =>
                tiles_in (cs_result acc') = tiles_in (cs_result st)
                /\ cuts_in (cs_result acc')
                   = (cuts_in (cs_result st)
                      + (count_features (take k (summits plan))
                         + sum_list (feature_fields <$> take j row)))%nat)).
    + split; [done|]. simpl. lia.
    + intros j summit acc' Hs [Ht' Hc'].
      rewrite (take_snoc _ _ _ Hs), fmap_app, sum_list_with_app. simpl.
      destruct (cut_summit_counts plan (Z.of_nat k) (Z.of_nat j) summit acc')
        as [-> ->].
      split; [done|]. lia.
Qed.

Lemma count_tiles_zero (t : Tiles) :
  count_tiles t = 0%nat <-> forall r c, at2 t r c <> Some true.
Proof.
  unfold count_tiles, count_row. split.
  - intros Hsum r c (row & Hrow & Hcell)%at2_Some.
    unfold at_ in Hrow, Hcell.
    case_bool_decide; [|done]. case_bool_decide; [|done].
    assert (length (List.filter (fun b : bool => b) row) = 0%nat) as Hrow0.
    { apply list_elem_of_lookup_2 in Hrow.
      induction t as [|row' t IH]; [by apply elem_of_nil in Hrow|].
      simpl in Hsum. apply Nat.eq_add_0 in Hsum as [Hhead Htail].
      apply elem_of_cons in Hrow as [->|Hin]; [exact Hhead|].
      apply IH; [exact Htail|done]. }
    apply list_elem_of_lookup_2 in Hcell.
    apply length_zero_iff_nil in Hrow0.
    assert (true ∈ List.filter (fun b : bool => b) row) as Hin.
    { apply list_elem_of_In, List.filter_In. split; [by apply list_elem_of_In|done]. }
    rewrite Hrow0 in Hin. by apply elem_of_nil in Hin.
  - intros Hnone.
    assert (forall (k : nat) row, t !! k = Some row ->
              length (List.filter (fun b : bool => b) row) = 0%nat) as Hrows.
    { intros k row Hrow.
      destruct (List.filter (fun b : bool => b) row) as [|b l] eqn:E; [done|].
      exfalso.
      assert (List.In b (List.filter (fun b : bool => b) row)) as Hin
          by (rewrite E; by left).
      apply List.filter_In in Hin as [Hin Hb]. destruct b; [|done].
      apply list_elem_of_In, list_elem_of_lookup_1 in Hin as [j Hj].
      apply (Hnone (Z.of_nat k) (Z.of_nat j)).
      unfold at2. by rewrite !at_of_nat, Hrow, at_of_nat. }
    clear Hnone. induction t as [|row t IH]; [done|].
    simpl. rewrite (Hrows 0%nat row) by done. simpl.
    apply IH. intros k row' Hk. by apply (Hrows (S k)).
Qed.

End GridProofs.

(** X22: [drawGrid] raises "No tiles in grid plan" exactly when no
    slot of the plan's tile layout is a tile, and returns a solid for
    every other plan, whatever its summits, type and screw size. *)
Theorem drawGrid_fails_without_tiles (TILE_SIZE TILE_THICKNESS : Q)
    (plan : GridPlan) :
  (drawGrid TILE_SIZE TILE_THICKNESS plan = Error "No tiles in grid plan"
   <-> forall r c, at2 (tiles plan) r c <> Some true)
  /\ ((exists r c, at2 (tiles plan) r c = Some true)
      -> exists s, drawGrid TILE_SIZE TILE_THICKNESS plan = Shape s).
Proof.
  pose proof (place_tiles_placed TILE_SIZE plan) as Hplaced.
  unfold drawGrid, placed in *.
  destruct (place_tiles TILE_SIZE plan) as [s|].
  - destruct Hplaced as (_ & Hpos & _). split.
    + split; [done|]. intros Hnone.
      apply (proj2 (count_tiles_zero _)) in Hnone. lia.
    + intros _. eauto.
  - split.
    + split; [|done]. intros _. by apply (proj1 (count_tiles_zero _)).
    + intros (r & c & Hrc). exfalso.
      by apply (proj1 (count_tiles_zero _) Hplaced r c).
Qed.

(** X23: the solid [drawGrid] returns fuses exactly one tile per
    tile slot of the plan and has exactly one cut per active feature
    field of its summits: eligibility is not consulted, and a summit
    that carries several features is cut once for each. *)
Theorem drawGrid_counts (TILE_SIZE TILE_THICKNESS : Q) (plan : GridPlan)
    (s : Solid) :
  drawGrid TILE_SIZE TILE_THICKNESS plan = Shape s ->
  tiles_in s = count_tiles (tiles plan)
  /\ cuts_in s = count_features (summits plan).
Proof.
  pose proof (place_tiles_placed TILE_SIZE plan) as Hplaced.
  unfold drawGrid, placed in *.
  destruct (place_tiles TILE_SIZE plan) as [r|]; [|done].
  destruct Hplaced as (Ht & _ & Hc).
  intros Hs. injection Hs as <-.
  destruct (cut_summits_counts TILE_SIZE TILE_THICKNESS plan
              {| cs_result := r; connectorTemplate := None;
                 connectorZ := 0; screwTemplate := None |}) as [Ht' Hc'].
  cbv zeta in Ht', Hc'. rewrite Ht', Hc'. simpl. split; [done|lia].
Qed.

Lemma drawGrid_counts_witness :
  exists s,
    drawGrid 28 (68 # 10) (toGridPlan stale_state) = Shape s
    /\ tiles_in s = 6%nat /\ cuts_in s = 1%nat.
Proof.
  pose (d := drawGrid 28 (68 # 10) (toGridPlan stale_state)).
  pose (s := match d with Shape s => s | Error _ => makeOpengridFullTile end).
  assert (drawGrid 28 (68 # 10) (toGridPlan stale_state) = Shape s) as H
      by (vm_compute; reflexivity).
  destruct (drawGrid_counts 28 (68 # 10) (toGridPlan stale_state) s H)
    as [Ht Hc].
  exists s. split; [exact H|]. split; [exact Ht|exact Hc].
Defined.

(** * Properties of the drawing *)

Lemma eligible_grid_flag (t : Tiles) (g : Z -> Z -> bool) i j :
  g i j = false -> truthy (at2 (summit_grid t g) i j) = false.
Proof.
  intros Hg.
  destruct (decide (0 <= i <= rows_of t /\ 0 <= j <= cols_of t)) as [[]|].
  - by rewrite at2_summit_grid.
  - by rewrite at2_summit_grid_None.
Qed.

(** X24: the order in which [cornerFeature] tests the three
    eligibility grids does not matter.  On the eligibility of any
    tile layout it returns "chamfer", "screw" or "connector" exactly
    when the summit is eligible for that feature, and [null] exactly
    when it is eligible for none. *)
Theorem cornerFeature_classifies (t : Tiles) (si sj : Z) :
  let e := computeAllEligibility t in
  (cornerFeature e si sj = Some Chamfer
   <-> truthy (at2 (chamfers e) si sj) = true)
  /\ (cornerFeature e si sj = Some Screw
      <-> truthy (at2 (screws e) si sj) = true)
  /\ (cornerFeature e si sj = Some Connector
      <-> truthy (at2 (connectors e) si sj) = true)
  /\ (cornerFeature e si sj = None
      <-> truthy (at2 (chamfers e) si sj) = false
          /\ truthy (at2 (screws e) si sj) = false
          /\ truthy (at2 (connectors e) si sj) = false).
Proof.
  cbv zeta. unfold cornerFeature. simpl.
  destruct (predicates_exclusive t si sj) as (Hch & Hcs & Hhs).
  destruct (truthy (at2 (computeEligibleChamferPositions t) si sj)) eqn:Eh;
    destruct (truthy (at2 (computeEligibleScrewPositions t) si sj)) eqn:Es;
    destruct (truthy (at2 (computeEligibleConnectorPositions t) si sj)) eqn:Ec;
    try apply chamfer_at_grid in Eh; try apply screw_at_grid in Es;
    try apply eligible_at_grid in Ec;
    try (rewrite Eh, Es in Hhs; done);
    try (rewrite Ec, Es in Hcs; done);
    try (rewrite Ec, Eh in Hch; done);
    repeat split; try done; intros; try done; intuition congruence.
Qed.

Ltac svg_numbers :=
  unfold on_tile, tileX, tileY, summitX, summitY;
  change CHAMFER_SIZE with 22; change TILE_CONTENT with 88;
  change CELL_SIZE with 100; change GAP with 12;
  change (- (22)) with (-22);
  change (Z.sgn 22) with 1; change (Z.sgn (-22)) with (-1);
  change (1 * 12 / 2) with 6; change (-1 * 12 / 2) with (-6);
  change (12 / 2) with 6; cbn [fst snd]; repeat split; lia.

(** X25: the triangle [ChamferFeature] draws lies on the one tile at
    its summit.  At a chamfer-eligible summit exactly one of the four
    slots around it is a tile; the component renders a triangle whose
    three points all lie on the drawn square of that tile, the first
    of them at the corner of the square nearest to the summit.  At a
    summit that is not eligible it renders nothing. *)
Theorem chamfer_triangle_on_tile (t : Tiles) (i j : Z) (active : bool) :
  let eligible := truthy (at2 (computeEligibleChamferPositions t) i j) in
  (eligible = false -> ChamferFeature i j active eligible t = None)
  /\ (eligible = true ->
      exists r c p0 p1 p2 color,
        ChamferFeature i j active eligible t
        = Some {| points := [p0; p1; p2]; fill := color |}
        /\ isTile t r c = true
        /\ (r = i - 1 \/ r = i) /\ (c = j - 1 \/ c = j)
        /\ on_tile r c p0 /\ on_tile r c p1 /\ on_tile r c p2
        /\ Z.abs (p0.1 - summitX j) = GAP / 2
        /\ Z.abs (p0.2 - summitY i) = GAP / 2).
Proof.
  cbv zeta. split.
  - intros ->. reflexivity.
  - intros Hel. rewrite Hel. unfold ChamferFeature. cbn [negb].
    apply chamfer_at_grid in Hel. unfold chamfer_at in Hel.
    destruct (isTile t (i - 1) (j - 1)) eqn:Etl, (isTile t (i - 1) j) eqn:Etr,
      (isTile t i (j - 1)) eqn:Ebl, (isTile t i j) eqn:Ebr;
      try discriminate Hel; clear Hel.
    + exists (i - 1), (j - 1). do 4 eexists. split; [reflexivity|].
      split; [done|]. split; [auto|]. split; [auto|].
      svg_numbers.
    + exists (i - 1), j. do 4 eexists. split; [reflexivity|].
      split; [done|]. split; [auto|]. split; [auto|].
      svg_numbers.
    + exists i, (j - 1). do 4 eexists. split; [reflexivity|].
      split; [done|]. split; [auto|]. split; [auto|].
      svg_numbers.
    + exists i, j. do 4 eexists. split; [reflexivity|].
      split; [done|]. split; [auto|]. split; [auto|].
      svg_numbers.
Qed.

(** * Properties of the command-line script *)

Lemma parse_loop_cons2 a b rest st :
  parse_loop (a :: b :: rest) st
  = if bool_decide (a = "--format") then
      parse_loop rest
        {| as_code := as_code st; as_format := toLowerCase b;
           as_output := as_output st |}
    else if bool_decide (a = "-o") then
      parse_loop rest
        {| as_code := as_code st; as_format := as_format st;
           as_output := Some b |}
    else
      parse_loop (b :: rest)
        (if negb (startsWith_dash a)
         then {| as_code := Some a; as_format := as_format st;
                 as_output := as_output st |}
         else st).
Proof. reflexivity. Qed.

Lemma parse_loop_code (all : list string) (n : nat) :
  forall args st,
    (length args <= n)%nat ->
    (forall a, a ∈ args -> a ∈ all) ->
    (forall c, as_code st = Some c -> c ∈ all /\ startsWith_dash c = false) ->
    forall c, as_code (parse_loop args st) = Some c ->
              c ∈ all /\ startsWith_dash c = false.
Proof.
  induction n as [|n IH]; intros args st Hlen Hall Hst.
  - destruct args; [exact Hst|simpl in Hlen; lia].
  - destruct args as [|a [|b rest]]; [exact Hst| |].
    + simpl. destruct (startsWith_dash a) eqn:Ea; simpl; [exact Hst|].
      intros c [= <-]. split; [apply Hall; by left|done].
    + rewrite parse_loop_cons2.
      assert (forall x, x ∈ rest -> x ∈ all) as Hrest.
      { intros x Hx. apply Hall. by do 2 right. }
      assert (forall x, x ∈ b :: rest -> x ∈ all) as Hrest'.
      { intros x Hx. apply Hall. by right. }
      assert (forall c,
                as_code (if negb (startsWith_dash a)
                         then {| as_code := Some a; as_format := as_format st;
                                 as_output := as_output st |}
                         else st) = Some c ->
                c ∈ all /\ startsWith_dash c = false) as Hpos.
      { destruct (startsWith_dash a) eqn:Ea; simpl; [exact Hst|].
        intros c [= <-]. split; [apply Hall; by left|done]. }
      repeat case_bool_decide;
        (apply IH; [simpl in Hlen |- *; lia|assumption|assumption]).
Qed.

Lemma truthy_string_Some o s :
  truthy_string o = Some s -> o = Some s /\ s <> "".
Proof. destruct o as [[|c r]|]; simpl; intros [= <-]; done. Qed.

(** X26: what [parseArgs] returns is usable.  Whenever it returns
    instead of exiting, the code is one of the arguments, is not empty
    and does not start with a dash; the format is "step" or "stl"; and
    the output name is not empty. *)
Theorem parseArgs_sound (args : list string) (r : ParsedArgs) :
  parseArgs args = Parsed r ->
  pa_code r ∈ args /\ pa_code r <> "" /\ startsWith_dash (pa_code r) = false
  /\ (pa_format r = "step" \/ pa_format r = "stl")
  /\ pa_output r <> "".
Proof.
  unfold parseArgs. cbv zeta.
  set (st := parse_loop args _).
  destruct (truthy_string (as_code st)) as [code|] eqn:Ec; [|done].
  apply truthy_string_Some in Ec as [Ec Hne].
  destruct (parse_loop_code args (length args) args
              {| as_code := None; as_format := "step"; as_output := None |}
              (le_n _) (fun a H => H) ltac:(done) code Ec) as [Hin Hdash].
  destruct (negb (bool_decide (as_format st = "step"))
            && negb (bool_decide (as_format st = "stl"))) eqn:Ef; [done|].
  intros Hr. injection Hr as <-. cbn [pa_code pa_format pa_output].
  repeat (split; [done|]). split.
  - apply andb_false_iff in Ef as [Ef|Ef];
      apply negb_false_iff, bool_decide_eq_true in Ef; auto.
  - destruct (truthy_string (as_output st)) as [o|] eqn:Eo.
    + by apply truthy_string_Some in Eo as [_ Ho].
    + done.
Qed.

Lemma parseArgs_sound_witness :
  exists r,
    parseArgs ["-o"; "grid.stl"; "0.f.2.2.KlAK.8A._4A"; "--format"; "STL"]
    = Parsed r
    /\ pa_code r = "0.f.2.2.KlAK.8A._4A"
    /\ (pa_format r = "step" \/ pa_format r = "stl")
    /\ pa_output r <> "".
Proof.
  pose (r := {| pa_code := "0.f.2.2.KlAK.8A._4A"; pa_format := "stl";
                pa_output := "grid.stl" |}).
  assert (parseArgs ["-o"; "grid.stl"; "0.f.2.2.KlAK.8A._4A"; "--format"; "STL"]
          = Parsed r) as H by reflexivity.
  destruct (parseArgs_sound _ r H) as (_ & _ & _ & Hf & Ho).
  exists r. split; [exact H|]. split; [reflexivity|]. split; [exact Hf|exact Ho].
Defined.

Lemma encode_starts_with_version p code :
  encode p = Some code -> exists rest, code = String "0" rest.
Proof.
  unfold encode.
  destruct (mapM _ (range (rows_of (tiles p) + 1))) as [rows|];
    cbn [mbind option_bind]; [|done].
  intros Hcode. apply (inj Some) in Hcode. subst code. cbv zeta.
  eexists. reflexivity.
Qed.

(** X27: the script accepts every code the editor produces.  A code
    returned by [encode], given as the only argument, is taken as the
    code, with the format "step" and the output name "opengrid.step";
    with [--format] and any spelling of "stl" in upper or lower case,
    before or after the code, the format is "stl" and the output name
    "opengrid.stl"; with no argument the script exits with the usage
    message. *)
Theorem parseArgs_accepts_codes (p : GridPlan) (code f : string) :
  encode p = Some code -> toLowerCase f = "stl" ->
  parseArgs [code]
  = Parsed {| pa_code := code; pa_format := "step";
              pa_output := "opengrid.step" |}
  /\ parseArgs [code; "--format"; f]
     = Parsed {| pa_code := code; pa_format := "stl";
                 pa_output := "opengrid.stl" |}
  /\ parseArgs ["--format"; f; code]
     = Parsed {| pa_code := code; pa_format := "stl";
                 pa_output := "opengrid.stl" |}
  /\ exists usage, parseArgs [] = Exit1 usage.
Proof.
  intros (rest & ->)%encode_starts_with_version Hf.
  unfold parseArgs. cbn [parse_loop]. rewrite Hf.
  repeat split; try reflexivity. by eexists.
Qed.

Lemma parseArgs_accepts_codes_witness :
  parseArgs ["0.f.2.2.KlAK.8A._4A"; "--format"; "Stl"]
  = Parsed {| pa_code := "0.f.2.2.KlAK.8A._4A"; pa_format := "stl";
              pa_output := "opengrid.stl" |}.
Proof.
  refine (proj1 (proj2 (parseArgs_accepts_codes full_2x2
                          "0.f.2.2.KlAK.8A._4A" "Stl" _ _)));
    vm_compute; reflexivity.
Defined.

(** * Properties of the CAD client *)

Lemma setStatus_snapshot st err c :
  status (snapshot c) <> status_loading ->
  setStatus st err c = c.
Proof. unfold setStatus. by destruct (status (snapshot c)). Qed.

Lemma client_step_settled_status e c :
  status (snapshot c) <> status_loading ->
  snapshot (client_step e c) = snapshot c.
Proof.
  intros H. destruct e as [[| | |]| | |]; simpl;
    rewrite ?setStatus_snapshot by done; try done.
  - by destruct (pending c !! id).
  - by destruct (pending c !! id).
Qed.

(** X28: the status of the CAD engine is set once.  After it has left
    "loading", no event changes the status or its error message: a
    timeout or a worker error after "ready" is ignored, and so is a
    late "ready" after an error. *)
Theorem client_status_one_shot (events : list ClientEvent) (c : Client) :
  status (snapshot c) <> status_loading ->
  snapshot (client_run events c) = snapshot c.
Proof.
  unfold client_run. revert c.
  induction events as [|e events IH]; intros c H; [done|].
  simpl. rewrite IH.
  - by apply client_step_settled_status.
  - by rewrite client_step_settled_status.
Qed.

Lemma client_status_one_shot_witness :
  snapshot (client_run [LoadTimeout; WorkerError]
              (client_run [WorkerMessage msg_ready] initialClient))
  = {| status := status_ready; error := None |}.
Proof.
  rewrite (client_status_one_shot [LoadTimeout; WorkerError]
             (client_run [WorkerMessage msg_ready] initialClient));
    [reflexivity|discriminate].
Defined.

Lemma setStatus_invariant st err c :
  client_invariant c -> client_invariant (setStatus st err c).
Proof. unfold setStatus. by destruct (status (snapshot c)). Qed.

Lemma settle_invariant c id s :
  client_invariant c -> is_Some (pending c !! id) -> settled_id s = id ->
  client_invariant
    {| snapshot := snapshot c; nextId := nextId c;
       pending := delete id (pending c); settled := settled c ++ [s] |}.
Proof.
  intros (Hn & Hp & Hs & Hdis & Hnd) Hid Hsid. unfold client_invariant. simpl.
  split; [done|]. split; [|split; [|split]].
  - intros id' [m Hm]. apply lookup_delete_Some in Hm as [_ Hm].
    apply Hp. eauto.
  - apply Forall_app. split; [done|].
    apply Forall_singleton. rewrite Hsid. by apply Hp.
  - intros s' [Hin|Hin%list_elem_of_singleton]%elem_of_app.
    + destruct (decide (settled_id s' = id)) as [->|Hne].
      * apply lookup_delete_eq.
      * rewrite lookup_delete_ne by done. by apply Hdis.
    + subst s'. rewrite Hsid. apply lookup_delete_eq.
  - rewrite fmap_app. apply NoDup_app. split; [done|]. split.
    + intros x (s' & -> & Hin)%list_elem_of_fmap Hx.
      apply list_elem_of_singleton in Hx. rewrite Hsid in Hx.
      pose proof (Hdis s' Hin) as Hnone. rewrite Hx in Hnone.
      destruct Hid as [m Hm]. congruence.
    + apply NoDup_singleton.
Qed.

Lemma client_step_invariant e c :
  client_invariant c -> client_invariant (client_step e c).
Proof.
  intros Hinv. destruct e as [[| | |]| | |]; simpl;
    try (by apply setStatus_invariant).
  - destruct (pending c !! id) as [m|] eqn:E; [|done].
    apply settle_invariant; [done|by rewrite E|done].
  - destruct (pending c !! id) as [m|] eqn:E; [|done].
    apply settle_invariant; [done|by rewrite E|done].
  - destruct Hinv as (Hn & Hp & Hs & Hdis & Hnd).
    unfold client_invariant, send_request. simpl.
    split; [lia|]. split; [|split; [|split]].
    + intros id [m Hm]. apply lookup_insert_Some in Hm as [[<- _]|[_ Hm]].
      * lia.
      * specialize (Hp id (ex_intro _ m Hm)). lia.
    + eapply Forall_impl; [exact Hs|]. simpl. intros. lia.
    + intros s Hin. rewrite lookup_insert_ne; [by apply Hdis|].
      rewrite Forall_forall in Hs. specialize (Hs s Hin). lia.
    + done.
Qed.

Lemma client_run_invariant events c :
  client_invariant c -> client_invariant (client_run events c).
Proof.
  unfold client_run. revert c.
  induction events as [|e events IH]; intros c H; [done|].
  simpl. by apply IH, client_step_invariant.
Qed.

Lemma initialClient_invariant : client_invariant initialClient.
Proof.
  unfold client_invariant, initialClient. simpl.
  split; [lia|]. split; [|split; [|split]].
  - intros id [m Hm]. by rewrite lookup_empty in Hm.
  - apply Forall_nil_2.
  - intros s Hs. by apply elem_of_nil in Hs.
  - apply NoDup_nil_2.
Qed.

(** X29: requests and responses are matched by id, once.  Whatever
    the events, from the start of the client: every request gets an
    id that no request in flight and no settled request has; no
    request is settled twice; a settled request is no longer in
    flight; and a response whose id is not in flight (unknown, or
    already settled) changes nothing. *)
Theorem client_requests_settle_once (events : list ClientEvent) :
  let c := client_run events initialClient in
  pending c !! nextId c = None
  /\ (forall s, s ∈ settled c -> settled_id s <> nextId c)
  /\ NoDup (settled_id <$> settled c)
  /\ (forall s, s ∈ settled c -> pending c !! settled_id s = None)
  /\ (forall id data err,
        pending c !! id = None ->
        on_message (msg_result id data) c = c
        /\ on_message (msg_error id err) c = c).
Proof.
  cbv zeta.
  destruct (client_run_invariant events initialClient initialClient_invariant)
    as (Hn & Hp & Hs & Hdis & Hnd).
  split; [|split; [|split; [|split]]]; try done.
  - destruct (pending _ !! nextId _) as [m|] eqn:E; [|done].
    specialize (Hp _ (ex_intro _ m E)). lia.
  - intros s Hin. rewrite Forall_forall in Hs. specialize (Hs s Hin). lia.
  - intros id data err Hnone. simpl. by rewrite Hnone.
Qed.

(** * From a code to a solid *)

Lemma one_feature_fields s :
  at_most_one_feature s ->
  feature_fields s = if summit_active s then 1%nat else 0%nat.
Proof.
  unfold at_most_one_feature, feature_fields, summit_active.
  destruct s as [[a|] [] []]; simpl; intros [H1 H2]; try done.
  - by destruct H1.
  - by destruct H1.
  - by destruct H1.
  - by specialize (H2 eq_refl).
Qed.

Lemma one_feature_row (row : list SummitFeatures) :
  Forall at_most_one_feature row ->
  sum_list (feature_fields <$> row) = length (List.filter summit_active row).
Proof.
  induction 1 as [|s row Hs _ IH]; [done|].
  csimpl. rewrite IH, (one_feature_fields s Hs).
  by destruct (summit_active s).
Qed.

Lemma one_feature_grid (ss : Summits) :
  (forall i j s, at2 ss i j = Some s -> at_most_one_feature s) ->
  count_features ss = count_active ss.
Proof.
  intros Hone. unfold count_features, count_active. f_equal.
  apply list_fmap_ext. intros k row Hrow. apply one_feature_row.
  apply Forall_lookup. intros j s Hs.
  apply (Hone (Z.of_nat k) (Z.of_nat j)).
  unfold at2. by rewrite !at_of_nat, Hrow, at_of_nat.
Qed.

(** X30: the solid generated from a code has one cut per active
    summit.  For every plan [decode] returns, the solid [drawGrid]
    builds from it fuses one tile per tile slot and carries exactly as
    many cuts as the plan has summits with a feature, no summit being
    cut twice. *)
Theorem decoded_plan_cuts (TILE_SIZE TILE_THICKNESS : Q) (code : string)
    (p : GridPlan) (s : Solid) :
  decode code = Ok p ->
  drawGrid TILE_SIZE TILE_THICKNESS p = Shape s ->
  tiles_in s = count_tiles (tiles p)
  /\ cuts_in s = count_active (summits p).
Proof.
  intros (_ & _ & _ & _ & Hone)%decode_Ok_consistent Hdraw.
  rewrite <- (one_feature_grid _ Hone).
  pose proof (place_tiles_placed TILE_SIZE p) as Hplaced.
  unfold drawGrid, placed in *.
  destruct (place_tiles TILE_SIZE p) as [r|]; [|done].
  destruct Hplaced as (Ht & _ & Hc).
  injection Hdraw as <-.
  destruct (cut_summits_counts TILE_SIZE TILE_THICKNESS p
              {| cs_result := r; connectorTemplate := None;
                 connectorZ := 0; screwTemplate := None |}) as [Ht' Hc'].
  cbv zeta in Ht', Hc'. rewrite Ht', Hc'. simpl. split; [done|lia].
Qed.

Lemma decoded_plan_cuts_witness :
  exists p s,
    decode "0.f.2.2.KlAK.8A._4A" = Ok p
    /\ drawGrid 28 (68 # 10) p = Shape s
    /\ tiles_in s = 4%nat /\ cuts_in s = 9%nat.
Proof.
  pose (p := match decode "0.f.2.2.KlAK.8A._4A" with
             | Ok q => q
             | Throw _ => full_2x2
             end).
  pose (s := match drawGrid 28 (68 # 10) p with
             | Shape s => s
             | Error _ => makeOpengridFullTile
             end).
  assert (decode "0.f.2.2.KlAK.8A._4A" = Ok p) as Hp
      by (vm_compute; reflexivity).
  assert (drawGrid 28 (68 # 10) p = Shape s) as Hs
      by (vm_compute; reflexivity).
  destruct (decoded_plan_cuts 28 (68 # 10) _ p s Hp Hs) as [Ht Hc].
  exists p, s. split; [exact Hp|]. split; [exact Hs|].
  split; [exact Ht|exact Hc].
Defined.
